(** * FamilyLocator: geofence detection, notification fan-out and history

    A shallow embedding of the server-side core of the FamilyLocator
    repository:

    - [server/geofencing.ts]    : [calculateDistance], [isWithinGeofence],
                                  [checkGeofenceTransitions],
                                  [sendGeofenceNotification],
                                  [clearUserGeofenceState];
    - [server/routes.ts]        : the [POST /api/locations] handler, the
                                  WebSocket client registry with its
                                  message and close handlers,
                                  [broadcastNotification],
                                  [broadcastLocationUpdate] and the
                                  [POST /api/family/join] handler;
    - [server/storage.ts]       : [getFamilyMembersLocations], the grouping
                                  and the hourly filter of
                                  [getFamilyLocationHistory], and the
                                  family and invitation tables;
    - [server/locationLogger.ts]: [logUserLocation] and the logging
                                  sessions.

    JavaScript numbers that hold coordinates are modelled as real numbers
    (the IEEE-754 rounding of the double type is not modelled); identifiers
    and millisecond timestamps are integers. *)

From Stdlib Require Import Reals Lra Sorted.
From stdpp Require Import gmap strings list pretty.

Local Open Scope Z_scope.

(** ** Distance engine (geofencing.ts, lines 3-33) *)

Module Distance.

Local Open Scope R_scope.

(** [Math.atan2 y x] on the reals, by the quadrant of [(x, y)]. *)
Definition atan2 (y x : R) : R :=
  if Rlt_dec 0 x then atan (y / x)
  else if Rlt_dec x 0 then
    (if Rle_dec 0 y then atan (y / x) + PI else atan (y / x) - PI)
  else if Rlt_dec 0 y then PI / 2
  else if Rlt_dec y 0 then - (PI / 2)
  else 0.

Definition calculateDistance (lat1 lon1 lat2 lon2 : R) : R :=
  let R_earth := 6371 in
  let dLat := ((lat2 - lat1) * PI) / 180 in
  let dLon := ((lon2 - lon1) * PI) / 180 in
  let a :=
    sin (dLat / 2) * sin (dLat / 2) +
    cos ((lat1 * PI) / 180) *
      cos ((lat2 * PI) / 180) *
      sin (dLon / 2) *
      sin (dLon / 2) in
  let c := 2 * atan2 (sqrt a) (sqrt (1 - a)) in
  R_earth * c * 1000.

(** [distance <= radiusMeters] as a boolean. *)
Definition isWithinGeofenceRadius
    (userLat userLon placeLat placeLon radiusMeters : R) : bool :=
  let distance := calculateDistance userLat userLon placeLat placeLon in
  if Rle_dec distance radiusMeters then true else false.

(** The default parameter [radiusMeters = 20]. *)
Definition isWithinGeofence (userLat userLon placeLat placeLon : R) : bool :=
  isWithinGeofenceRadius userLat userLon placeLat placeLon 20.

End Distance.


(** ** Data model (shared/schema.ts) *)

(** Row of the [users] table, restricted to the columns the core reads.
    [first_name] and the boolean settings are nullable columns. *)
Record User := mkUser {
  user_id : Z;
  user_email : string;
  user_firstName : option string;
  user_locationHistoryEnabled : option bool;
}.

(** Row of the [places] table; [id] is the primary key. *)
Record Place := mkPlace {
  place_id : Z;
  place_name : string;
  place_latitude : R;
  place_longitude : R;
}.

(** Row of the [locations] table; [timestamp] is nullable ([defaultNow]). *)
Record Location := mkLocation {
  loc_id : Z;
  loc_userId : Z;
  loc_latitude : R;
  loc_longitude : R;
  loc_accuracy : option R;
  loc_address : option string;
  loc_type : string;
  loc_timestamp : option Z;
}.

(** [InsertLocation]: the [locations] columns without [id] and
    [timestamp]. *)
Record InsertLocation := mkInsertLocation {
  il_userId : Z;
  il_latitude : R;
  il_longitude : R;
  il_accuracy : option R;
  il_address : option string;
  il_type : string;
}.

Inductive Action := entered | exited.

Definition actionString (action : Action) : string :=
  match action with entered => "entered" | exited => "exited" end.

(** The [data] payload (jsonb) of a notification row. *)
Inductive NotificationData :=
  | GeofenceData (triggeredByUserId : option Z) (placeId : Z)
                 (placeName : string) (action : Action)
  | LocationData (locationId : Z) (userId : Z).

(** [InsertNotification]: the argument of [storage.createNotification]. *)
Record InsertNotification := mkInsertNotification {
  n_userId : Z;
  n_type : string;
  n_title : string;
  n_message : string;
  n_data : NotificationData;
  n_isRead : bool;
}.

(** ** Promises and exceptions *)

(** How an awaited call ends: it resolves with a value or it rejects
    (throws). *)
Inductive outcome (A : Type) :=
  | Resolved (a : A)
  | Rejected.
Arguments Resolved {A} a.
Arguments Rejected {A}.

(** The storage collaborator ([IStorage]), as far as the core uses it.
    Each method is given by its answer to a call, as a mock would be. *)
Record Storage := mkStorage {
  getFamilyPlaces : Z -> outcome (option (list Place));
  getUser : Z -> outcome (option User);
  getFamilyMembers : Z -> outcome (list User);
  createNotification : InsertNotification -> outcome unit;
  saveLocation : InsertLocation -> outcome Location;
  getUserLatestLocation : Z -> outcome (option Location);
}.

(** ** The server process *)

Inductive ReadyState := CONNECTING | OPEN | CLOSING | CLOSED.

Definition isOpen (s : ReadyState) : bool :=
  match s with OPEN => true | _ => false end.

(** The object handed to [broadcastNotification]: its own [type] key, when
    it has one, and the remaining keys. *)
Inductive PayloadBody :=
  | GeofenceBody (userId : Z) (userName placeName : string)
                 (action : Action) (message : string) (timestamp : Z)
  | NotificationBody (userId : Z) (notificationType message : string)
                     (timestamp : Z).

Record Payload := mkPayload {
  p_type : option string;
  p_body : PayloadBody;
}.

(** A JSON message written to a WebSocket. *)
Inductive Frame :=
  | BroadcastFrame (type : string) (body : PayloadBody)
  | LocationUpdateFrame (userId : string) (location : Location).

(** The console lines that record a transition or a caught error; the
    purely informative [console.log] lines are left out. *)
Inductive LogLine :=
  | LogTransition (userId : Z) (action : Action) (placeName : string)
                  (placeId : Z)
  | LogErrorChecking
  | LogErrorSending
  | LogCreatedLocationNotification (memberId : Z)
  | LogFailedLocationNotification (memberId : Z)
  | LogErrorSavingLocation
  | LogLogger (userId : Z) (line : string).

(** [userId.toString()] and the property key [obj[userId]]. *)
Definition toString (n : Z) : string := pretty n.

(** Process-wide mutable state, the rows written through the storage
    collaborator, the frames written to sockets and the clock.
    - [userGeofenceStates]: [Map<string, Set<number>>] of geofencing.ts;
    - [lastLocationNotification]: the lazily created global object of the
      movement throttle ([None] while the global slot is undefined);
    - [broadcastInstalled]: whether [global.broadcastNotification] is set;
    - [clients]: [Map<string, WebSocket>] in insertion order, sockets
      named by a handle; [readyState] gives each socket's state;
    - [wire]: frames sent so far, oldest first, with the receiving socket;
    - [clock]: the reading of [Date.now()]. *)
Record World := mkWorld {
  userGeofenceStates : gmap string (gset Z);
  lastLocationNotification : option (gmap string Z);
  broadcastInstalled : bool;
  clients : list (string * Z);
  readyState : Z -> ReadyState;
  wire : list (Z * Frame);
  notificationRows : list InsertNotification;
  locationRows : list InsertLocation;
  console : list LogLine;
  clock : Z;
}.

Definition set_userGeofenceStates (f : gmap string (gset Z) -> gmap string (gset Z))
    (w : World) : World :=
  mkWorld (f (userGeofenceStates w)) (lastLocationNotification w)
    (broadcastInstalled w) (clients w) (readyState w) (wire w)
    (notificationRows w) (locationRows w) (console w) (clock w).

Definition set_lastLocationNotification (v : option (gmap string Z))
    (w : World) : World :=
  mkWorld (userGeofenceStates w) v
    (broadcastInstalled w) (clients w) (readyState w) (wire w)
    (notificationRows w) (locationRows w) (console w) (clock w).

Definition set_clients (f : list (string * Z) -> list (string * Z))
    (w : World) : World :=
  mkWorld (userGeofenceStates w) (lastLocationNotification w)
    (broadcastInstalled w) (f (clients w)) (readyState w) (wire w)
    (notificationRows w) (locationRows w) (console w) (clock w).

Definition add_wire (ws : Z) (fr : Frame) (w : World) : World :=
  mkWorld (userGeofenceStates w) (lastLocationNotification w)
    (broadcastInstalled w) (clients w) (readyState w) (wire w ++ [(ws, fr)])
    (notificationRows w) (locationRows w) (console w) (clock w).

Definition add_notificationRow (n : InsertNotification) (w : World) : World :=
  mkWorld (userGeofenceStates w) (lastLocationNotification w)
    (broadcastInstalled w) (clients w) (readyState w) (wire w)
    (notificationRows w ++ [n]) (locationRows w) (console w) (clock w).

Definition add_locationRow (l : InsertLocation) (w : World) : World :=
  mkWorld (userGeofenceStates w) (lastLocationNotification w)
    (broadcastInstalled w) (clients w) (readyState w) (wire w)
    (notificationRows w) (locationRows w ++ [l]) (console w) (clock w).

Definition add_console (l : LogLine) (w : World) : World :=
  mkWorld (userGeofenceStates w) (lastLocationNotification w)
    (broadcastInstalled w) (clients w) (readyState w) (wire w)
    (notificationRows w) (locationRows w) (console w ++ [l]) (clock w).

(** A computation of the server: it runs in a world and either resolves
    or rejects; what it did to the world before rejecting stays done. *)
Definition M (A : Type) : Type := World -> outcome A * World.

Definition ret {A} (a : A) : M A := fun w => (Resolved a, w).

Definition throw {A} : M A := fun w => (Rejected, w).

Definition bind {A B} (m : M A) (k : A -> M B) : M B :=
  fun w =>
    match m w with
    | (Resolved a, w') => k a w'
    | (Rejected, w') => (Rejected, w')
    end.

Notation "'let*' x ':=' m 'in' k" := (bind m (fun x => k))
  (at level 10, x name, m at level 100, k at level 200).
Notation "m ';;' k" := (bind m (fun _ => k))
  (at level 100, k at level 200, right associativity).

(** [try { body } catch (error) { handler }]. *)
Definition tryCatch {A} (body handler : M A) : M A :=
  fun w =>
    match body w with
    | (Resolved a, w') => (Resolved a, w')
    | (Rejected, w') => handler w'
    end.

(** [await] of a storage call that only reads. *)
Definition await {A} (o : outcome A) : M A := fun w => (o, w).

Definition get : M World := fun w => (Resolved w, w).

Definition modify (f : World -> World) : M unit := fun w => (Resolved tt, f w).

Definition consoleLog (l : LogLine) : M unit := modify (add_console l).

(** [for (const x of xs) { await body(x) }]: the first rejection leaves
    the loop. *)
Fixpoint forOf {A} (xs : list A) (body : A -> M unit) : M unit :=
  match xs with
  | [] => ret tt
  | x :: rest => body x ;; forOf rest body
  end.

(** ** Connection registry (routes.ts, lines 960-1037) *)

(** [Map.prototype.set]: an existing key keeps its place in the iteration
    order, a new key goes last. *)
Fixpoint mapSet (key : string) (ws : Z) (m : list (string * Z))
    : list (string * Z) :=
  match m with
  | [] => [(key, ws)]
  | (k, v) :: rest =>
      if String.eqb k key then (k, ws) :: rest
      else (k, v) :: mapSet key ws rest
  end.

(** The [auth] message of a socket: [clients.set(data.userId.toString(), ws)]. *)
Definition registerClient (userId : Z) (ws : Z) : M unit :=
  modify (set_clients (mapSet (toString userId) ws)).

(** The [close] handler of a socket: every entry that holds this socket
    is deleted. *)
Definition closeClient (ws : Z) : M unit :=
  modify (set_clients (List.filter (fun e => negb (Z.eqb (snd e) ws)))).

(** [client.send(JSON.stringify(message))]. *)
Definition send (ws : Z) (fr : Frame) : M unit := modify (add_wire ws fr).

(** [{ type: 'geofence', ...notification }]: a [type] key of the
    notification overrides the default one. *)
Definition broadcastFrame (notification : Payload) : Frame :=
  BroadcastFrame (default "geofence" (p_type notification))
                 (p_body notification).

(** [global.broadcastNotification]: [clients.forEach] over the whole
    registry. *)
Definition broadcastNotification (notification : Payload) : M unit :=
  let* w := get in
  forOf (clients w) (fun entry =>
    let client := snd entry in
    if isOpen (readyState w client)
    then send client (broadcastFrame notification)
    else ret tt).

(** [if (global.broadcastNotification) global.broadcastNotification(n)]. *)
Definition broadcastIfInstalled (notification : Payload) : M unit :=
  let* w := get in
  if broadcastInstalled w then broadcastNotification notification
  else ret tt.

(** [Map.prototype.get]. *)
Fixpoint mapGet (key : string) (m : list (string * Z)) : option Z :=
  match m with
  | [] => None
  | (k, v) :: rest => if String.eqb k key then Some v else mapGet key rest
  end.

(** ** Geofence tracker and dispatcher (geofencing.ts, lines 35-189) *)

(** [user.firstName || user.email]: a null or empty first name is falsy. *)
Definition displayName (user : User) : string :=
  match user_firstName user with
  | Some name => if String.eqb name EmptyString then user_email user else name
  | None => user_email user
  end.

Section Server.

Variable storage : Storage.

(** [await storage.createNotification(n)]: the row exists once the call
    has resolved. *)
Definition createNotificationM (n : InsertNotification) : M unit :=
  fun w =>
    match createNotification storage n with
    | Resolved _ => (Resolved tt, add_notificationRow n w)
    | Rejected => (Rejected, w)
    end.

Definition sendGeofenceNotification
    (userId : Z) (place : Place) (action : Action) : M unit :=
  tryCatch
    (let* user := await (getUser storage userId) in
     match user with
     | None => ret tt
     | Some user =>
         let message :=
           displayName user +:+ " has " +:+ actionString action +:+ " "
             +:+ place_name place in
         let title := "Location Alert" in
         let* familyMembers := await (getFamilyMembers storage userId) in
         forOf familyMembers (fun familyMember =>
           createNotificationM
             {| n_userId := user_id familyMember;
                n_type := "geofence_" +:+ actionString action;
                n_title := title;
                n_message := message;
                n_data := GeofenceData (Some userId) (place_id place)
                            (place_name place) action;
                n_isRead := false |}) ;;
         createNotificationM
           {| n_userId := userId;
              n_type := "geofence_" +:+ actionString action;
              n_title := title;
              n_message :=
                "You " +:+ (match action with
                            | entered => "entered"
                            | exited => "exited"
                            end) +:+ " " +:+ place_name place;
              n_data := GeofenceData None (place_id place)
                          (place_name place) action;
              n_isRead := false |} ;;
         let* w := get in
         broadcastIfInstalled
           {| p_type := Some "geofence";
              p_body := GeofenceBody userId (displayName user)
                          (place_name place) action message (clock w) |}
     end)
    (consoleLog LogErrorSending).

(** The body of the loop over [familyPlaces], with the set [newGeofences]
    built so far; [currentGeofences] is the set read before the loop. *)
Fixpoint checkPlaces (userId : Z) (newLat newLon : R)
    (currentGeofences : gset Z) (familyPlaces : list Place)
    (newGeofences : gset Z) : M (gset Z) :=
  match familyPlaces with
  | [] => ret newGeofences
  | place :: rest =>
      let isCurrentlyInside :=
        Distance.isWithinGeofence newLat newLon
          (place_latitude place) (place_longitude place) in
      let newGeofences :=
        if isCurrentlyInside then {[place_id place]} ∪ newGeofences
        else newGeofences in
      let wasInside := bool_decide (place_id place ∈ currentGeofences) in
      (if isCurrentlyInside && negb wasInside then
         consoleLog
           (LogTransition userId entered (place_name place) (place_id place)) ;;
         sendGeofenceNotification userId place entered
       else if negb isCurrentlyInside && wasInside then
         consoleLog
           (LogTransition userId exited (place_name place) (place_id place)) ;;
         sendGeofenceNotification userId place exited
       else ret tt) ;;
      checkPlaces userId newLat newLon currentGeofences rest newGeofences
  end.

Definition checkGeofenceTransitions (userId : Z) (newLat newLon : R)
    : M unit :=
  tryCatch
    (let* familyPlaces := await (getFamilyPlaces storage userId) in
     match familyPlaces with
     | None | Some [] => ret tt
     | Some familyPlaces =>
         let userKey := toString userId in
         let* w := get in
         let currentGeofences :=
           default ∅ (userGeofenceStates w !! userKey) in
         let* newGeofences :=
           checkPlaces userId newLat newLon currentGeofences familyPlaces ∅ in
         modify (set_userGeofenceStates (fun m => <[userKey := newGeofences]> m))
     end)
    (consoleLog LogErrorChecking).

Definition clearUserGeofenceState (userId : Z) : M unit :=
  modify (set_userGeofenceStates (fun m => delete (toString userId) m)).

(** ** Location ingest (routes.ts, POST /api/locations, lines 243-315) *)

Inductive Response :=
  | Json (location : Location)
  | Status500.

(** [await storage.saveLocation(l)]. *)
Definition saveLocationM (l : InsertLocation) : M Location :=
  fun w =>
    match saveLocation storage l with
    | Resolved saved => (Resolved saved, add_locationRow l w)
    | Rejected => (Rejected, w)
    end.

(** [user?.firstName || user?.email || 'User']. *)
Definition userNameOf (user : option User) : string :=
  match user with
  | None => "User"
  | Some u =>
      let name := displayName u in
      if String.eqb name EmptyString then "User" else name
  end.

(** [global.lastLocationNotification?.[userId] || 0]. *)
Definition lastNotificationTimeOf (w : World) (userId : Z) : Z :=
  match lastLocationNotification w with
  | None => 0
  | Some tracking => default 0 (tracking !! toString userId)
  end.

(** [broadcastLocationUpdate]: the family members are fetched with
    [.then]; a rejection of that fetch is not the caller's. *)
Definition broadcastLocationUpdate (userId : Z) (location : Location)
    : M unit :=
  match getFamilyMembers storage userId with
  | Rejected => ret tt
  | Resolved familyMembers =>
      forOf familyMembers (fun member =>
        let* w := get in
        match mapGet (toString (user_id member)) (clients w) with
        | Some client =>
            if isOpen (readyState w client)
            then send client (LocationUpdateFrame (toString userId) location)
            else ret tt
        | None => ret tt
        end)
  end.

(** One turn of the loop that creates the "moved" notifications: the
    [try]/[catch] is inside the loop, one per recipient. *)
Definition notifyMember (userId : Z) (userName : string) (location : Location)
    (familyMember : User) : M unit :=
  tryCatch
    (createNotificationM
       {| n_userId := user_id familyMember;
          n_type := "location";
          n_title := "Location Update";
          n_message := userName +:+ " updated their location";
          n_data := LocationData (loc_id location) userId;
          n_isRead := false |} ;;
     consoleLog (LogCreatedLocationNotification (user_id familyMember)) ;;
     let* w := get in
     broadcastIfInstalled
       {| p_type := Some "notification";
          p_body := NotificationBody (user_id familyMember) "location"
                      (userName +:+ " updated their location") (clock w) |})
    (consoleLog (LogFailedLocationNotification (user_id familyMember))).

(** [for (const familyMember of familyMembers) { try { ... } catch { ... } }]. *)
Definition notifyMoved (userId : Z) (userName : string) (location : Location)
    (familyMembers : list User) : M unit :=
  forOf familyMembers (notifyMember userId userName location).

(** [timeSinceLastNotification > 5 * 60 * 1000]. *)
Definition shouldCreateNotification (currentTime lastNotificationTime : Z)
    : bool :=
  5 * 60 * 1000 <? currentTime - lastNotificationTime.

(** The handler; [parsed] is the result of [insertLocationSchema.parse]
    on the request body with the session's user id. *)
Definition postLocations (userId : Z) (parsed : outcome InsertLocation)
    : M Response :=
  tryCatch
    (let* locationData := await parsed in
     let* location := saveLocationM locationData in
     let* user := await (getUser storage userId) in
     let userName := userNameOf user in
     let* familyMembers := await (getFamilyMembers storage userId) in
     let* w := get in
     let lastNotificationTime := lastNotificationTimeOf w userId in
     let currentTime := clock w in
     (if shouldCreateNotification currentTime lastNotificationTime
         && (0 <? Z.of_nat (length familyMembers))
      then
        modify (set_lastLocationNotification
                  (Some (<[toString userId := currentTime]>
                           (default ∅ (lastLocationNotification w))))) ;;
        notifyMoved userId userName location familyMembers
      else ret tt) ;;
     checkGeofenceTransitions userId
       (loc_latitude location) (loc_longitude location) ;;
     broadcastLocationUpdate userId location ;;
     ret (Json location))
    (consoleLog LogErrorSavingLocation ;; ret Status500).

(** ** Periodic re-logging (locationLogger.ts, lines 46-83) *)

Definition HOUR_IN_MS : Z := 60 * 60 * 1000.

(** [!user.locationHistoryEnabled] is false only for [true]. *)
Definition historyEnabled (user : User) : bool :=
  match user_locationHistoryEnabled user with
  | Some true => true
  | _ => false
  end.

(** [latestLocation.timestamp < twoHoursAgo]: a null timestamp compares
    as 0. *)
Definition tooOld (now : Z) (latestLocation : Location) : bool :=
  let twoHoursAgo := now - 2 * HOUR_IN_MS in
  default 0 (loc_timestamp latestLocation) <? twoHoursAgo.

Definition logUserLocation (userId : Z) : M unit :=
  tryCatch
    (let* user := await (getUser storage userId) in
     match user with
     | None =>
         consoleLog (LogLogger userId "history disabled")
     | Some user =>
         if negb (historyEnabled user) then
           consoleLog (LogLogger userId "history disabled")
         else
           let* latestLocation := await (getUserLatestLocation storage userId) in
           match latestLocation with
           | None => consoleLog (LogLogger userId "no location data")
           | Some latestLocation =>
               let* w := get in
               if tooOld (clock w) latestLocation then
                 consoleLog (LogLogger userId "too old")
               else
                 saveLocationM
                   {| il_userId := userId;
                      il_latitude := loc_latitude latestLocation;
                      il_longitude := loc_longitude latestLocation;
                      il_accuracy := loc_accuracy latestLocation;
                      il_address := loc_address latestLocation;
                      il_type := "automatic_hourly" |} ;;
                 consoleLog (LogLogger userId "logged")
           end
     end)
    (consoleLog (LogLogger userId "failed")).

End Server.

(** ** History compaction (storage.ts, getFamilyLocationHistory,
       lines 250-269) *)

(** [new Date(location.timestamp || new Date()).getTime()]: a null
    timestamp reads the clock. *)
Definition locationTime (now : Z) (location : Location) : Z :=
  match loc_timestamp location with
  | Some t => t
  | None => now
  end.

(** [oneHour * 0.75]. *)
Definition minSpacing : Z := 60 * 60 * 1000 * 3 / 4.

(** The [forEach] over one member's locations, from the value of
    [lastIncludedTime] reached so far; the result is what is pushed to
    [filteredLocations] from here on. *)
Fixpoint hourlyFilterFrom (now : Z) (lastIncludedTime : Z)
    (locations : list Location) : list Location :=
  match locations with
  | [] => []
  | location :: rest =>
      let locationTime := locationTime now location in
      let timeDiff := Z.abs (locationTime - lastIncludedTime) in
      if (lastIncludedTime =? 0) || (minSpacing <=? timeDiff)
      then location :: hourlyFilterFrom now locationTime rest
      else hourlyFilterFrom now lastIncludedTime rest
  end.

(** [let lastIncludedTime = 0] and the loop. *)
Definition hourlyFilter (now : Z) (locations : list Location)
    : list Location :=
  hourlyFilterFrom now 0 locations.

(** The grouping of the query result by user id: one member's rows, in
    the order of the result. *)
Definition locationsOf (member : Z) (result : list Location)
    : list Location :=
  List.filter (fun item => Z.eqb (loc_userId item) member) result.

(** One entry of the returned record: the filtered locations of a
    member. *)
Definition familyLocationHistory (now : Z) (result : list Location)
    (member : Z) : list Location :=
  hourlyFilter now (locationsOf member result).

(** The compaction as the specification words it: the first entry is
    always kept; a later entry is kept exactly when it lies at least 45
    minutes from the last kept one, which it then replaces. *)
Fixpoint keepSpaced (now : Z) (lastKept : Z) (entries : list Location)
    : list Location :=
  match entries with
  | [] => []
  | entry :: rest =>
      if 45 * 60 * 1000 <=? Z.abs (locationTime now entry - lastKept)
      then entry :: keepSpaced now (locationTime now entry) rest
      else keepSpaced now lastKept rest
  end.

Definition compactSpec (now : Z) (entries : list Location) : list Location :=
  match entries with
  | [] => []
  | first :: rest => first :: keepSpaced now (locationTime now first) rest
  end.

(** A ping of user 1 at the origin, taken at time [t] (milliseconds). *)
Definition pingAt (t : Z) : Location :=
  mkLocation t 1 0%R 0%R None None "manual" (Some t).

Definition minutes (m : Z) : Z := m * 60 * 1000.

(** ** Observations on a world and on runs *)

(** The transitions recorded on the console: who, which way, which
    place. Each such line is written just before the call of
    [sendGeofenceNotification] for that transition. *)
Definition transitionLines (lines : list LogLine) : list (Z * Action * Z) :=
  omap (fun l =>
          match l with
          | LogTransition userId action _ placeId =>
              Some (userId, action, placeId)
          | _ => None
          end) lines.

Definition inside (lat lon : R) (place : Place) : bool :=
  Distance.isWithinGeofence lat lon
    (place_latitude place) (place_longitude place).

(** The ids of the candidate places whose centre is within the radius. *)
Definition currentInside (lat lon : R) (places : list Place) : gset Z :=
  list_to_set (map place_id (List.filter (inside lat lon) places)).

(** The stored set of a user, empty when there is none. *)
Definition previousInside (w : World) (userId : Z) : gset Z :=
  default ∅ (userGeofenceStates w !! toString userId).

(** What one candidate place contributes to a check. *)
Definition transitionOf (previous : gset Z) (lat lon : R) (place : Place)
    : option Action :=
  let isCurrentlyInside := inside lat lon place in
  let wasInside := bool_decide (place_id place ∈ previous) in
  if isCurrentlyInside && negb wasInside then Some entered
  else if negb isCurrentlyInside && wasInside then Some exited
  else None.

Definition detected (userId : Z) (previous : gset Z) (lat lon : R)
    (places : list Place) : list (Z * Action * Z) :=
  omap (fun place =>
          (fun action => (userId, action, place_id place))
            <$> transitionOf previous lat lon place) places.

(** The transitions of one user at one place, as a list of actions. *)
Definition actionsAt (userId placeId : Z) (ts : list (Z * Action * Z))
    : list Action :=
  omap (fun t =>
          match t with
          | (u, action, p) =>
              if Z.eqb u userId && Z.eqb p placeId then Some action else None
          end) ts.

(** The changes of side in a sequence of observations, starting from
    [was]: one [entered] at each observation inside that follows outside,
    one [exited] at each observation outside that follows inside. *)
Fixpoint edges (was : bool) (sides : list bool) : list Action :=
  match sides with
  | [] => []
  | now :: rest =>
      (if now && negb was then [entered]
       else if negb now && was then [exited]
       else []) ++ edges now rest
  end.

(** The transitions recorded so far in a world. *)
Definition transitionsOn (w : World) : list (Z * Action * Z) :=
  transitionLines (console w).

(** One geofence check of a sequence: who moved, what the storage
    answers at that moment, and where the user is. *)
Record GeofenceCheck := mkCheck {
  chk_user : Z;
  chk_storage : Storage;
  chk_lat : R;
  chk_lon : R;
}.

Definition runCheck (c : GeofenceCheck) : M unit :=
  checkGeofenceTransitions (chk_storage c) (chk_user c) (chk_lat c) (chk_lon c).

(** Checks run one after the other. *)
Definition runChecks (checks : list GeofenceCheck) : M unit := forOf checks runCheck.

(** The candidate list of a check of [userId], when the place [placeId]
    is on it. *)
Definition candidatesOf (c : GeofenceCheck) : option (list Place) :=
  match getFamilyPlaces (chk_storage c) (chk_user c) with
  | Resolved (Some places) => Some places
  | _ => None
  end.

(** The candidate with a given id. *)
Definition findPlace (placeId : Z) (places : list Place) : option Place :=
  List.find (fun p => Z.eqb (place_id p) placeId) places.

(** The side of the place [placeId] that a check of [userId] finds. *)
Definition sideAt (userId placeId : Z) (c : GeofenceCheck) : option bool :=
  if Z.eqb (chk_user c) userId then
    places ← candidatesOf c;
    inside (chk_lat c) (chk_lon c) <$> findPlace placeId places
  else None.

(** The place stays on the candidate list of every check of [userId],
    and the ids of a candidate list are distinct (primary key). *)
Definition staysCandidate (userId placeId : Z) (c : GeofenceCheck) : Prop :=
  chk_user c = userId ->
  exists places,
    candidatesOf c = Some places /\
    NoDup (map place_id places) /\
    In placeId (map place_id places).

Definition set_clock (t : Z) (w : World) : World :=
  mkWorld (userGeofenceStates w) (lastLocationNotification w)
    (broadcastInstalled w) (clients w) (readyState w) (wire w)
    (notificationRows w) (locationRows w) (console w) t.

(** One ping of a sequence: what the storage answers, the parsed body,
    and the reading of the clock when the handler runs. *)
Record Ping := mkPing {
  ping_storage : Storage;
  ping_body : outcome InsertLocation;
  ping_time : Z;
}.

Definition ingestPing (userId : Z) (p : Ping) (w : World) : World :=
  snd (postLocations (ping_storage p) userId (ping_body p)
         (set_clock (ping_time p) w)).

(** Pings of one mover handled one after the other. *)
Definition ingestAll (userId : Z) (pings : list Ping) (w : World) : World :=
  fold_left (fun w p => ingestPing userId p w) pings w.

(** The "moved" notification rows about a mover. *)
Definition isMovedRow (moverId : Z) (n : InsertNotification) : bool :=
  String.eqb (n_type n) "location" &&
  match n_data n with
  | LocationData _ userId => Z.eqb userId moverId
  | _ => false
  end.

Definition movedRows (moverId : Z) (w : World) : list InsertNotification :=
  List.filter (isMovedRow moverId) (notificationRows w).

Definition isGeofenceData (d : NotificationData) : bool :=
  match d with
  | GeofenceData _ _ _ _ => true
  | LocationData _ _ => false
  end.

(** ** Sample data *)

Definition home : Place := mkPlace 8 "Home" 0 0.

Definition jane : User :=
  mkUser 1 "jane@example.com" (Some "Jane") (Some true).

Definition john : User :=
  mkUser 2 "john@example.com" (Some "John") (Some true).

Definition bob : User :=
  mkUser 3 "bob@example.com" None (Some true).

(** A storage that answers every call: the given candidate places and
    family members, the user [jane] under id 1, and rows that are always
    accepted except notifications for the recipients [failing]. *)
Definition sampleStorage (places : list Place) (family : list User)
    (failing : list Z) (latest : option Location) : Storage :=
  {| getFamilyPlaces := fun _ => Resolved (Some places);
     getUser := fun id => Resolved (if Z.eqb id 1 then Some jane else None);
     getFamilyMembers := fun _ => Resolved family;
     createNotification := fun n =>
       if existsb (Z.eqb (n_userId n)) failing then Rejected
       else Resolved tt;
     saveLocation := fun l =>
       Resolved (mkLocation 100 (il_userId l) (il_latitude l)
                   (il_longitude l) (il_accuracy l) (il_address l)
                   (il_type l) (Some 0));
     getUserLatestLocation := fun _ => Resolved latest |}.

(** A freshly started process: no stored state, no connection, the
    broadcast function installed, the clock at [t]. *)
Definition freshWorld (t : Z) : World :=
  mkWorld ∅ None true [] (fun _ => CLOSED) [] [] [] [] t.

(** A world in which user 1 is recorded inside place 7, a place that is
    no longer among the candidates. *)
Definition staleWorld : World :=
  set_userGeofenceStates (fun _ => {[toString 1 := {[7]}]}) (freshWorld 0).

(** Whether the stored set of the user holds the place. *)
Definition wasInside (w : World) (userId placeId : Z) : bool :=
  bool_decide (placeId ∈ previousInside w userId).

(** The sides of a place that the checks of a user find, in order. *)
Definition sides (userId placeId : Z) (checks : list GeofenceCheck) : list bool :=
  omap (sideAt userId placeId) checks.

(** A check of user 1 standing at the centre of [home], with [home] as
    the only candidate. *)
Definition atHome : GeofenceCheck :=
  mkCheck 1 (sampleStorage [home] [] [] None) 0 0.

(** The row that the "moved" loop creates for one family member. *)
Definition movedRow (userId : Z) (userName : string) (location : Location)
    (familyMember : User) : InsertNotification :=
  {| n_userId := user_id familyMember;
     n_type := "location";
     n_title := "Location Update";
     n_message := userName +:+ " updated their location";
     n_data := LocationData (loc_id location) userId;
     n_isRead := false |}.

(** Whether the storage accepts a notification row. *)
Definition accepted (storage : Storage) (n : InsertNotification) : bool :=
  match createNotification storage n with
  | Resolved _ => true
  | Rejected => false
  end.

(** The "moved" rows about a mover that are addressed to one recipient. *)
Definition movedRowsFor (moverId recipient : Z) (w : World)
    : list InsertNotification :=
  List.filter (fun n => Z.eqb (n_userId n) recipient) (movedRows moverId w).

(** The condition under which the handler creates "moved" notifications. *)
Definition throttleGate (w : World) (userId : Z) (familyMembers : list User)
    : bool :=
  shouldCreateNotification (clock w) (lastNotificationTimeOf w userId)
  && (0 <? Z.of_nat (length familyMembers)).

(** A world in which mover 1 was last announced at [t]. *)
Definition announcedAt (t now : Z) : World :=
  set_lastLocationNotification (Some {[toString 1 := t]}) (freshWorld now).

Definition samplePing : InsertLocation :=
  mkInsertLocation 1 0 0 None None "manual".

(** The row that the geofence fan-out creates for one family member. *)
Definition familyRow (userId : Z) (user : User) (place : Place)
    (action : Action) (familyMember : User) : InsertNotification :=
  {| n_userId := user_id familyMember;
     n_type := "geofence_" +:+ actionString action;
     n_title := "Location Alert";
     n_message := displayName user +:+ " has " +:+ actionString action
                    +:+ " " +:+ place_name place;
     n_data := GeofenceData (Some userId) (place_id place)
                 (place_name place) action;
     n_isRead := false |}.

(** The row that it creates for the mover. *)
Definition selfRow (userId : Z) (place : Place) (action : Action)
    : InsertNotification :=
  {| n_userId := userId;
     n_type := "geofence_" +:+ actionString action;
     n_title := "Location Alert";
     n_message := "You " +:+ actionString action +:+ " " +:+ place_name place;
     n_data := GeofenceData None (place_id place) (place_name place) action;
     n_isRead := false |}.

(** The object that it hands to the broadcast function. *)
Definition alertPayload (userId : Z) (user : User) (place : Place)
    (action : Action) (now : Z) : Payload :=
  {| p_type := Some "geofence";
     p_body := GeofenceBody userId (displayName user) (place_name place)
                 action
                 (displayName user +:+ " has " +:+ actionString action
                    +:+ " " +:+ place_name place)
                 now |}.

Definition add_notificationRows (rows : list InsertNotification) (w : World)
    : World :=
  fold_left (fun w n => add_notificationRow n w) rows w.

(** The frames a broadcast writes: one per registry entry whose socket is
    open, in the order of the registry. *)
Definition broadcastFrames (n : Payload) (w : World) : list (Z * Frame) :=
  map (fun entry => (snd entry, broadcastFrame n))
    (List.filter (fun entry => isOpen (readyState w (snd entry))) (clients w)).

(** A process with one open connection, registered by user 3 on socket
    30. *)
Definition connectedWorld : World :=
  mkWorld ∅ None true [(toString 3, 30)] (fun _ => OPEN) [] [] [] [] 0.

Definition isTransitionLine (l : LogLine) : bool :=
  match l with
  | LogTransition _ _ _ _ => true
  | _ => false
  end.

(** What a check does to the recorded transitions and to the stored
    sets, as a function of the stored sets it starts from: the
    transitions it adds and the sets it leaves. *)
Definition checkEffect (storage : Storage) (userId : Z) (lat lon : R)
    (states : gmap string (gset Z))
    : list (Z * Action * Z) * gmap string (gset Z) :=
  match getFamilyPlaces storage userId with
  | Resolved (Some (place :: rest)) =>
      (detected userId (default ∅ (states !! toString userId)) lat lon
         (place :: rest),
       <[toString userId := currentInside lat lon (place :: rest)]> states)
  | _ => ([], states)
  end.

(** A storage whose place query fails; the other calls answer as
    [sampleStorage] does. *)
Definition placesDown (family : list User) : Storage :=
  {| getFamilyPlaces := fun _ => Rejected;
     getUser := getUser (sampleStorage [] family [] None);
     getFamilyMembers := getFamilyMembers (sampleStorage [] family [] None);
     createNotification :=
       createNotification (sampleStorage [] family [] None);
     saveLocation := saveLocation (sampleStorage [] family [] None);
     getUserLatestLocation :=
       getUserLatestLocation (sampleStorage [] family [] None) |}.

(** The row that the periodic re-logging inserts for a latest ping. *)
Definition relogged (userId : Z) (latestLocation : Location) : InsertLocation :=
  {| il_userId := userId;
     il_latitude := loc_latitude latestLocation;
     il_longitude := loc_longitude latestLocation;
     il_accuracy := loc_accuracy latestLocation;
     il_address := loc_address latestLocation;
     il_type := "automatic_hourly" |}.

(** The user exists with location history enabled, [latestLocation] is
    the latest ping, and its timestamp (0 when null) is not older than
    two hours. *)
Definition relogCondition (storage : Storage) (userId now : Z)
    (latestLocation : Location) : Prop :=
  exists user,
    getUser storage userId = Resolved (Some user) /\
    user_locationHistoryEnabled user = Some true /\
    getUserLatestLocation storage userId = Resolved (Some latestLocation) /\
    now - 2 * (60 * 60 * 1000) <= default 0 (loc_timestamp latestLocation).

(** A latest ping of user 1, taken at time [t]. *)
Definition latestAt (t : Z) : Location :=
  mkLocation 7 1 0 0 None (Some "12 Elm Street") "manual" (Some t).

(** The rows that the fan-out of a mover can create: rows for family
    members name the mover in [triggeredByUserId], the mover's own row
    does not and is addressed to the mover. *)
Definition rowOfMover (moverId : Z) (n : InsertNotification) : bool :=
  match n_data n with
  | GeofenceData (Some _) _ _ _ => true
  | GeofenceData None _ _ _ => Z.eqb (n_userId n) moverId
  | LocationData _ _ => false
  end.

(** The mover's own geofence notifications about one place, as the list
    of their actions, oldest first. *)
Definition selfActions (userId placeId : Z) (rows : list InsertNotification)
    : list Action :=
  omap (fun n =>
          match n_data n with
          | GeofenceData None pid _ action =>
              if Z.eqb (n_userId n) userId && Z.eqb pid placeId
              then Some action else None
          | _ => None
          end) rows.

Definition selfActionsOn (userId placeId : Z) (w : World) : list Action :=
  selfActions userId placeId (notificationRows w).

(** At a check of [userId] the dispatcher finds the mover, reads the
    family and has its rows accepted. *)
Definition dispatchSucceeds (userId : Z) (c : GeofenceCheck) : Prop :=
  chk_user c = userId ->
  (exists user, getUser (chk_storage c) userId = Resolved (Some user)) /\
  (exists familyMembers,
      getFamilyMembers (chk_storage c) userId = Resolved familyMembers) /\
  (forall n, accepted (chk_storage c) n = true).

(** ** Reasoning about computations *)

(** A computation that never rejects. *)
Definition resolves {A} (m : M A) : Prop :=
  forall w, exists a, fst (m w) = Resolved a.

(** A computation whose final world is related to the initial one. *)
Definition keeps (R : relation World) {A} (m : M A) : Prop :=
  forall w, R w (snd (m w)).

(** Worlds that agree on an observation. *)
Definition same {B} (f : World -> B) : relation World :=
  fun w w' => f w' = f w.

(** A storage that cannot read users; the other calls answer as
    [sampleStorage] does. *)
Definition usersDown (places : list Place) : Storage :=
  {| getFamilyPlaces := getFamilyPlaces (sampleStorage places [] [] None);
     getUser := fun _ => Rejected;
     getFamilyMembers := getFamilyMembers (sampleStorage places [] [] None);
     createNotification :=
       createNotification (sampleStorage places [] [] None);
     saveLocation := saveLocation (sampleStorage places [] [] None);
     getUserLatestLocation :=
       getUserLatestLocation (sampleStorage places [] [] None) |}.

(** The frames that the push of a raw location writes: one per family
    member who has a registered socket that is open, in the order of the
    family. *)
Definition locationUpdateFrames (userId : Z) (location : Location)
    (familyMembers : list User) (w : World) : list (Z * Frame) :=
  omap (fun member =>
          match mapGet (toString (user_id member)) (clients w) with
          | Some client =>
              if isOpen (readyState w client)
              then Some (client, LocationUpdateFrame (toString userId) location)
              else None
          | None => None
          end) familyMembers.

(** A process with two connections: user 2 on the open socket 20 and
    user 3 on the closed socket 30. *)
Definition twoClients : World :=
  mkWorld ∅ None true [(toString 2, 20); (toString 3, 30)]
    (fun ws => if Z.eqb ws 20 then OPEN else CLOSED) [] [] [] [] 0.

(** ** Hourly logging sessions (locationLogger.ts, lines 4-44 and 85-101) *)

Record UserLocationSession := mkSession {
  session_userId : string;
  session_lastLogTime : Z;
  session_intervalId : Z;
}.

(** The logger object together with the interval timers of the process:
    - [activeSessions]: [Map<string, UserLocationSession>] in insertion
      order;
    - [liveIntervals]: the handles that [setInterval] has returned and
      [clearInterval] has not yet cleared, oldest first;
    - [nextInterval]: the handle that the next [setInterval] returns. *)
Record Logger := mkLogger {
  activeSessions : list (string * UserLocationSession);
  liveIntervals : list Z;
  nextInterval : Z;
}.

Definition newLogger : Logger := mkLogger [] [] 0.

(** [activeSessions.get(key)]. *)
Fixpoint sessionGet (key : string) (m : list (string * UserLocationSession))
    : option UserLocationSession :=
  match m with
  | [] => None
  | (k, v) :: rest => if String.eqb k key then Some v else sessionGet key rest
  end.

(** [activeSessions.set(key, session)]. *)
Fixpoint sessionSet (key : string) (s : UserLocationSession)
    (m : list (string * UserLocationSession))
    : list (string * UserLocationSession) :=
  match m with
  | [] => [(key, s)]
  | (k, v) :: rest =>
      if String.eqb k key then (k, s) :: rest
      else (k, v) :: sessionSet key s rest
  end.

(** [activeSessions.delete(key)]. *)
Definition sessionDelete (key : string)
    (m : list (string * UserLocationSession))
    : list (string * UserLocationSession) :=
  List.filter (fun e => negb (String.eqb (fst e) key)) m.

(** [clearInterval(id)]: a handle that is not live is ignored. *)
Definition clearInterval (id : Z) (live : list Z) : list Z :=
  List.filter (fun t => negb (Z.eqb t id)) live.

(** [startHourlyLogging(userId)], called when the clock reads [now]. *)
Definition startHourlyLogging (userId : string) (now : Z) (l : Logger)
    : Logger :=
  match sessionGet userId (activeSessions l) with
  | Some _ => l
  | None =>
      let intervalId := nextInterval l in
      {| activeSessions :=
           sessionSet userId (mkSession userId now intervalId)
             (activeSessions l);
         liveIntervals := liveIntervals l ++ [intervalId];
         nextInterval := intervalId + 1 |}
  end.

Definition stopHourlyLogging (userId : string) (l : Logger) : Logger :=
  match sessionGet userId (activeSessions l) with
  | Some session =>
      {| activeSessions := sessionDelete userId (activeSessions l);
         liveIntervals :=
           clearInterval (session_intervalId session) (liveIntervals l);
         nextInterval := nextInterval l |}
  | None => l
  end.

(** [cleanup()]: every session's interval is cleared, then the map. *)
Definition cleanup (l : Logger) : Logger :=
  {| activeSessions := [];
     liveIntervals :=
       fold_left (fun live e => clearInterval (session_intervalId (snd e)) live)
         (activeSessions l) (liveIntervals l);
     nextInterval := nextInterval l |}.

(** [getActiveSessions()]: user, last log time and next log time. *)
Definition getActiveSessions (l : Logger) : list (string * Z * Z) :=
  map (fun e =>
         (session_userId (snd e), session_lastLogTime (snd e),
          session_lastLogTime (snd e) + HOUR_IN_MS))
    (activeSessions l).

(** A call on the logger. *)
Inductive LoggerCall :=
  | CallStart (userId : string) (now : Z)
  | CallStop (userId : string)
  | CallCleanup.

Definition loggerCall (c : LoggerCall) (l : Logger) : Logger :=
  match c with
  | CallStart userId now => startHourlyLogging userId now l
  | CallStop userId => stopHourlyLogging userId l
  | CallCleanup => cleanup l
  end.

Definition loggerCalls (cs : list LoggerCall) (l : Logger) : Logger :=
  fold_left (fun l c => loggerCall c l) cs l.

(** The timers and the sessions agree: one live interval per session, no
    interval without a session, one session per key, each filed under
    its own user id, and handles not yet given out are not live. *)
Record loggerConsistent (l : Logger) : Prop := {
  sessions_distinct : NoDup (map fst (activeSessions l));
  sessions_own_key :
    Forall (fun e => session_userId (snd e) = fst e) (activeSessions l);
  intervals_are_sessions :
    liveIntervals l = map (fun e => session_intervalId (snd e)) (activeSessions l);
  intervals_distinct : NoDup (liveIntervals l);
  intervals_given_out : Forall (fun t => t < nextInterval l) (liveIntervals l);
}.

(** ** The WebSocket handlers (routes.ts, lines 964-1005) *)

(** The server: the process state, the logger, and the [console.error]
    lines of the socket handlers. *)
Record Server := mkServer {
  sv_world : World;
  sv_logger : Logger;
  sv_errors : list string;
}.

(** What a socket message is once [JSON.parse] has run: it does not
    parse, or it is an object with its [type] and [userId] keys. *)
Inductive Inbound :=
  | Unparsable
  | Parsed (type : option string) (userId : option Z).

(** [data.type === 'auth' && data.userId]: a missing or zero id is
    falsy. *)
Definition isAuth (type : option string) (userId : option Z) : option Z :=
  match type, userId with
  | Some t, Some id =>
      if String.eqb t "auth" && negb (Z.eqb id 0) then Some id else None
  | _, _ => None
  end.

(** The [message] handler of the socket [ws]. *)
Definition onMessage (storage : Storage) (ws : Z) (message : Inbound)
    (sv : Server) : Server :=
  match message with
  | Unparsable =>
      mkServer (sv_world sv) (sv_logger sv)
        (sv_errors sv ++ ["WebSocket message error"])
  | Parsed type userId =>
      match isAuth type userId with
      | None => sv
      | Some id =>
          let w := set_clients (mapSet (toString id) ws) (sv_world sv) in
          match getUser storage id with
          | Resolved (Some user) =>
              if historyEnabled user
              then mkServer w
                     (startHourlyLogging (toString id) (clock w)
                        (sv_logger sv))
                     (sv_errors sv)
              else mkServer w (sv_logger sv) (sv_errors sv)
          | Resolved None => mkServer w (sv_logger sv) (sv_errors sv)
          | Rejected =>
              mkServer w (sv_logger sv)
                (sv_errors sv ++ ["Error checking user settings"])
          end
      end
  end.

(** The keys of the registry entries that hold the socket [ws]. *)
Definition keysOf (ws : Z) (registry : list (string * Z)) : list string :=
  map fst (List.filter (fun e => Z.eqb (snd e) ws) registry).

(** The [close] handler of the socket [ws]: each entry that holds the
    socket is deleted and the logging of its user stopped. *)
Definition onClose (ws : Z) (sv : Server) : Server :=
  mkServer
    (set_clients (List.filter (fun e => negb (Z.eqb (snd e) ws)))
       (sv_world sv))
    (fold_left (fun l key => stopHourlyLogging key l)
       (keysOf ws (clients (sv_world sv))) (sv_logger sv))
    (sv_errors sv).

Definition newServer : Server := mkServer (freshWorld 0) newLogger [].

(** ** The rows returned by the storage (storage.ts)

    Both functions first run a query; [result] below is the answer of
    that query, rows in the order the query gives them (latest first).
    The rows are modelled without the joined [user] column. *)

(** *** [getFamilyMembersLocations] (lines 193-201)

    [latestLocations] is a [Map] from user id to row; its entries are in
    the order of insertion, which is the order of [values()]. *)
Definition mapHas (key : Z) (latestLocations : list (Z * Location)) : bool :=
  existsb (fun e => fst e =? key) latestLocations.

(** The body of the [forEach]. *)
Definition latestStep (latestLocations : list (Z * Location))
    (item : Location) : list (Z * Location) :=
  if negb (mapHas (loc_userId item) latestLocations)
  then latestLocations ++ [(loc_userId item, item)]
  else latestLocations.

Definition getFamilyMembersLocations (result : list Location)
    : list Location :=
  map snd (fold_left latestStep result []).

(** The rows whose user has not been seen before, the users in [seen]
    counting as seen. *)
Fixpoint firstPerUser (seen : list Z) (result : list Location)
    : list Location :=
  match result with
  | [] => []
  | item :: rest =>
      if existsb (fun k => k =? loc_userId item) seen
      then firstPerUser seen rest
      else item :: firstPerUser (seen ++ [loc_userId item]) rest
  end.

(** *** [getFamilyLocationHistory] (lines 236-271)

    [groupedHistory] is an object used as a map from [userId.toString()]
    to the member's entry; the entry is modelled by its [locations]. *)
Definition groupStep (groupedHistory : gmap string (list Location))
    (item : Location) : gmap string (list Location) :=
  let userIdStr := toString (loc_userId item) in
  let groupedHistory :=
    match groupedHistory !! userIdStr with
    | None => <[userIdStr := []]> groupedHistory
    | Some _ => groupedHistory
    end in
  <[userIdStr := default [] (groupedHistory !! userIdStr) ++ [item]]>
    groupedHistory.

Definition groupHistory (result : list Location)
    : gmap string (list Location) :=
  fold_left groupStep result ∅.

(** The second pass replaces the locations of every entry by the
    filtered ones. *)
Definition getFamilyLocationHistory (now : Z) (result : list Location)
    : gmap string (list Location) :=
  hourlyFilter now <$> groupHistory result.

(** Adjacent entries lie at least 45 minutes apart, unless the earlier
    of the two in the list carries the time 0. *)
Fixpoint spaced (now : Z) (locations : list Location) : bool :=
  match locations with
  | a :: (b :: _) as rest =>
      ((locationTime now a =? 0)
       || (minSpacing <=? Z.abs (locationTime now b - locationTime now a)))
      && spaced now rest
  | _ => true
  end.

(** Rows ordered by descending time, a null time counting as [now]. *)
Definition notBefore (now : Z) (a b : Location) : Prop :=
  locationTime now b <= locationTime now a.

(** ** The family tables and the join by invitation code
       (storage.ts, lines 275-350 and 426-444; routes.ts, lines 447-520)

    The tables are lists of rows. The database is taken to answer every
    call: a call that rejects would send the handler to its [catch]. *)

Module Family.

Record FamilyConnection := mkConnection {
  fc_userId : Z;
  fc_familyMemberId : Z;
  fc_status : string;
}.

Record InvitationCode := mkInvitation {
  inv_code : string;
  inv_userId : Z;
  inv_expiresAt : Z;
  inv_usedAt : option Z;
  inv_usedById : option Z;
}.

Record Db := mkDb {
  users : list User;
  familyConnections : list FamilyConnection;
  invitationCodes : list InvitationCode;
}.

(** The [where] of [getFamilyMembers]. *)
Definition isAccepted (userId : Z) (c : FamilyConnection) : bool :=
  (fc_userId c =? userId) && String.eqb (fc_status c) "accepted".

(** [getFamilyMembers]: the selected connections joined with the users
    on [familyMemberId = users.id]. *)
Definition getFamilyMembers (db : Db) (userId : Z) : list User :=
  flat_map
    (fun c =>
       List.filter (fun u => user_id u =? fc_familyMemberId c) (users db))
    (List.filter (isAccepted userId) (familyConnections db)).

Definition addFamilyMember (connection : FamilyConnection) (db : Db) : Db :=
  {| users := users db;
     familyConnections := familyConnections db ++ [connection];
     invitationCodes := invitationCodes db |}.

(** The [where] of [removeFamilyMember]. *)
Definition isBetween (userId familyMemberId : Z) (c : FamilyConnection)
    : bool :=
  ((fc_userId c =? userId) && (fc_familyMemberId c =? familyMemberId))
  || ((fc_userId c =? familyMemberId) && (fc_familyMemberId c =? userId)).

Definition removeFamilyMember (userId familyMemberId : Z) (db : Db) : Db :=
  {| users := users db;
     familyConnections :=
       List.filter (fun c => negb (isBetween userId familyMemberId c))
         (familyConnections db);
     invitationCodes := invitationCodes db |}.

(** [const [invitation] = ...]: the first row with the code, if any. *)
Definition getInvitationByCode (db : Db) (code : string)
    : option InvitationCode :=
  List.find (fun i => String.eqb (inv_code i) code) (invitationCodes db).

Definition useInvitationCode (code : string) (userId : Z) (now : Z) (db : Db)
    : Db :=
  {| users := users db;
     familyConnections := familyConnections db;
     invitationCodes :=
       map (fun i =>
              if String.eqb (inv_code i) code
              then {| inv_code := inv_code i;
                      inv_userId := inv_userId i;
                      inv_expiresAt := inv_expiresAt i;
                      inv_usedAt := Some now;
                      inv_usedById := Some userId |}
              else i)
         (invitationCodes db) |}.

(** What the handler answers: [{ success: true, ... }] or a status with
    its message. *)
Inductive JoinResponse :=
  | JoinSuccess
  | JoinStatus (status : Z) (message : string).

(** The loop over the family of the inviter. *)
Definition connectAll (userId : Z) (inviterFamilyMembers : list User)
    (db : Db) : Db :=
  fold_left
    (fun db familyMember =>
       if user_id familyMember =? userId then db
       else
         addFamilyMember
           (mkConnection userId (user_id familyMember) "accepted")
           (addFamilyMember
              (mkConnection (user_id familyMember) userId "accepted") db))
    inviterFamilyMembers db.

(** [existingMembers.some(member => member.id === id)]. *)
Definition connected (db : Db) (userId id : Z) : bool :=
  existsb (fun member => user_id member =? id) (getFamilyMembers db userId).

(** The handler of [POST /api/family/join]. [parsed] is the result of
    parsing the body for a code of six characters, [now] the reading of
    the clock, and [toUpperCase] the upper-casing of the code. *)
Definition postFamilyJoin (toUpperCase : string -> string) (userId : Z)
    (parsed : outcome string) (now : Z) (db : Db) : JoinResponse * Db :=
  match parsed with
  | Rejected => (JoinStatus 500 "Failed to join family", db)
  | Resolved code =>
      match getInvitationByCode db (toUpperCase code) with
      | None => (JoinStatus 404 "Invalid invitation code", db)
      | Some invitation =>
          if inv_expiresAt invitation <? now
          then (JoinStatus 400 "Invitation code has expired", db)
          else
            match inv_usedAt invitation with
            | Some _ =>
                (JoinStatus 400 "Invitation code has already been used", db)
            | None =>
                if inv_userId invitation =? userId
                then (JoinStatus 400 "You cannot use your own invitation code",
                      db)
                else if connected db userId (inv_userId invitation)
                then (JoinStatus 400
                        "You are already connected to this family member", db)
                else
                  let inviterFamilyMembers :=
                    getFamilyMembers db (inv_userId invitation) in
                  let db :=
                    addFamilyMember
                      (mkConnection (inv_userId invitation) userId "accepted")
                      db in
                  let db :=
                    addFamilyMember
                      (mkConnection userId (inv_userId invitation) "accepted")
                      db in
                  let db := connectAll userId inviterFamilyMembers db in
                  let db := useInvitationCode (toUpperCase code) userId now db in
                  (JoinSuccess, db)
            end
      end
  end.

(** A user row with the id exists. *)
Definition userExists (db : Db) (id : Z) : bool :=
  existsb (fun u => user_id u =? id) (users db).

(** An accepted connection row from [userId] to [id] exists. *)
Definition hasRow (connections : list FamilyConnection) (userId id : Z)
    : bool :=
  existsb (fun c => isAccepted userId c && (fc_familyMemberId c =? id))
    connections.

(** Whom a join of [userId] through [inviter] connects [userId] with:
    the inviter and the family of the inviter, [userId] apart. *)
Definition joins (db : Db) (userId inviter member : Z) : bool :=
  negb (member =? userId)
  && ((member =? inviter) || connected db inviter member).

(** Upper-casing of the letters a to z. *)
Definition upperChar (c : Ascii.ascii) : Ascii.ascii :=
  let n := Ascii.nat_of_ascii c in
  if ((97 <=? n) && (n <=? 122))%nat
  then Ascii.ascii_of_nat (n - 32)%nat
  else c.

Fixpoint upper (s : string) : string :=
  match s with
  | EmptyString => EmptyString
  | String c rest => String (upperChar c) (upper rest)
  end.

(** John and Bob are each other's family; John has given out a code. *)
Definition sampleDb : Db :=
  {| users := [jane; john; bob];
     familyConnections :=
       [mkConnection 2 3 "accepted"; mkConnection 3 2 "accepted"];
     invitationCodes := [mkInvitation "ABC123" 2 1000 None None] |}.

End Family.

(** ** The notifications of a run of checks *)

(** The geofence notifications about one mover and one place, each as
    its recipient and its action, oldest first. The mover of a row is its
    [triggeredByUserId], or its recipient when the row carries none (the
    mover's own row). *)
Definition alertsAbout (userId placeId : Z) (rows : list InsertNotification)
    : list (Z * Action) :=
  omap (fun n =>
          match n_data n with
          | GeofenceData triggeredBy pid _ action =>
              if Z.eqb (default (n_userId n) triggeredBy) userId
                 && Z.eqb pid placeId
              then Some (n_userId n, action) else None
          | LocationData _ _ => None
          end) rows.

Definition alertsOn (userId placeId : Z) (w : World) : list (Z * Action) :=
  alertsAbout userId placeId (notificationRows w).

(** The recipients of the notifications of one transition: the entries
    of the family list in their order, then the mover. *)
Definition recipientsOf (userId : Z) (familyMembers : list User)
    (action : Action) : list (Z * Action) :=
  map (fun member => (user_id member, action)) familyMembers
    ++ [(userId, action)].

(** What the dispatcher of a check creates for one transition when its
    inserts are accepted: nothing when the mover is unknown or the mover
    or the family cannot be read. *)
Definition fanoutOf (c : GeofenceCheck) (action : Action)
    : list (Z * Action) :=
  match getUser (chk_storage c) (chk_user c) with
  | Resolved (Some _) =>
      match getFamilyMembers (chk_storage c) (chk_user c) with
      | Resolved familyMembers => recipientsOf (chk_user c) familyMembers action
      | Rejected => []
      end
  | _ => []
  end.

(** The notifications about a place along a run of checks, from the side
    [was] stored at its start: at each check of the user, what the
    dispatcher of that check creates for the change of side it finds. *)
Fixpoint alertsAlong (userId placeId : Z) (was : bool)
    (checks : list GeofenceCheck) : list (Z * Action) :=
  match checks with
  | [] => []
  | c :: rest =>
      match sideAt userId placeId c with
      | Some now =>
          flat_map (fanoutOf c) (edges was [now])
            ++ alertsAlong userId placeId now rest
      | None => alertsAlong userId placeId was rest
      end
  end.

(** At a check of [userId] every insert of a notification is accepted. *)
Definition insertsAccepted (userId : Z) (c : GeofenceCheck) : Prop :=
  chk_user c = userId -> forall n, accepted (chk_storage c) n = true.

(** At a check of [userId] the dispatcher finds the mover, reads the
    family list [familyMembers] and has its rows accepted. *)
Definition dispatchesTo (userId : Z) (familyMembers : list User)
    (c : GeofenceCheck) : Prop :=
  chk_user c = userId ->
  (exists user, getUser (chk_storage c) userId = Resolved (Some user)) /\
  getFamilyMembers (chk_storage c) userId = Resolved familyMembers /\
  (forall n, accepted (chk_storage c) n = true).

(** The dispatcher of the check cannot read the mover, or finds none. *)
Definition moverUnreadable (c : GeofenceCheck) : Prop :=
  getUser (chk_storage c) (chk_user c) = Rejected \/
  getUser (chk_storage c) (chk_user c) = Resolved None.

(** A check of user 1 at the centre of [home] while the users cannot be
    read. *)
Definition atHomeUnread : GeofenceCheck :=
  mkCheck 1 (usersDown [home]) 0 0.

(** * Properties *)

(** ** Distance engine *)

Section DistanceFacts.

Local Open Scope R_scope.

Lemma atan2_0_1 : Distance.atan2 0 1 = 0.
Proof.
  unfold Distance.atan2.
  destruct (Rlt_dec 0 1) as [_ | Hn]; [| exfalso; apply Hn; lra].
  replace (0 / 1) with 0 by lra.
  exact atan_0.
Qed.

Lemma calculateDistance_same (lat lon : R) :
  Distance.calculateDistance lat lon lat lon = 0.
Proof.
  unfold Distance.calculateDistance; cbv zeta.
  replace ((lat - lat) * PI / 180 / 2) with 0 by lra.
  replace ((lon - lon) * PI / 180 / 2) with 0 by lra.
  rewrite sin_0.
  replace (0 * 0 + cos (lat * PI / 180) * cos (lat * PI / 180) * 0 * 0)
    with 0 by ring.
  rewrite sqrt_0, Rminus_0_r, sqrt_1, atan2_0_1.
  ring.
Qed.

Lemma calculateDistance_sym (lat1 lon1 lat2 lon2 : R) :
  Distance.calculateDistance lat1 lon1 lat2 lon2 =
  Distance.calculateDistance lat2 lon2 lat1 lon1.
Proof.
  unfold Distance.calculateDistance; cbv zeta.
  replace ((lat1 - lat2) * PI / 180 / 2)
    with (- ((lat2 - lat1) * PI / 180 / 2)) by lra.
  replace ((lon1 - lon2) * PI / 180 / 2)
    with (- ((lon2 - lon1) * PI / 180 / 2)) by lra.
  rewrite !sin_neg.
  set (s := sin ((lat2 - lat1) * PI / 180 / 2)).
  set (t := sin ((lon2 - lon1) * PI / 180 / 2)).
  set (c1 := cos (lat1 * PI / 180)).
  set (c2 := cos (lat2 * PI / 180)).
  replace (- s * - s + c2 * c1 * - t * - t)
    with (s * s + c1 * c2 * t * t) by ring.
  reflexivity.
Qed.

Lemma isWithinGeofence_same (lat lon : R) :
  Distance.isWithinGeofence lat lon lat lon = true.
Proof.
  unfold Distance.isWithinGeofence, Distance.isWithinGeofenceRadius; cbv zeta.
  rewrite calculateDistance_same.
  destruct (Rle_dec 0 20) as [_ | Hn]; [reflexivity | exfalso; apply Hn; lra].
Qed.

End DistanceFacts.

(** C9. The distance from a coordinate to itself is 0, the distance is
    symmetric in its two coordinates, and a place at exactly the queried
    coordinates is within the default 20 metre radius. Coordinates are
    real numbers here. *)
Theorem distance_zero_symmetric_within :
  (forall lat lon : R, Distance.calculateDistance lat lon lat lon = 0%R) /\
  (forall lat1 lon1 lat2 lon2 : R,
      Distance.calculateDistance lat1 lon1 lat2 lon2 =
      Distance.calculateDistance lat2 lon2 lat1 lon1) /\
  (forall lat lon : R, Distance.isWithinGeofence lat lon lat lon = true).
Proof.
  split; [exact calculateDistance_same |].
  split; [exact calculateDistance_sym | exact isWithinGeofence_same].
Qed.

(** ** Combinators *)

Global Instance same_preorder {B} (f : World -> B) : PreOrder (same f).
Proof.
  split.
  - intros w. reflexivity.
  - intros w1 w2 w3 H12 H23. unfold same in *. congruence.
Qed.

Section Combinators.

Context (R : relation World) `{!PreOrder R}.

Lemma keeps_ret {A} (a : A) : keeps R (ret a).
Proof. intros w. simpl. reflexivity. Qed.

Lemma keeps_throw {A} : keeps R (@throw A).
Proof. intros w. simpl. reflexivity. Qed.

Lemma keeps_await {A} (o : outcome A) : keeps R (await o).
Proof. intros w. simpl. reflexivity. Qed.

Lemma keeps_get : keeps R get.
Proof. intros w. simpl. reflexivity. Qed.

Lemma keeps_modify (f : World -> World) :
  (forall w, R w (f w)) -> keeps R (modify f).
Proof. intros Hf w. simpl. apply Hf. Qed.

Lemma keeps_bind {A B} (m : M A) (k : A -> M B) :
  keeps R m -> (forall a, keeps R (k a)) -> keeps R (bind m k).
Proof.
  intros Hm Hk w. unfold bind.
  specialize (Hm w). destruct (m w) as [[a |] w1]; simpl in *.
  - etransitivity; [exact Hm | apply Hk].
  - exact Hm.
Qed.

Lemma keeps_tryCatch {A} (body handler : M A) :
  keeps R body -> keeps R handler -> keeps R (tryCatch body handler).
Proof.
  intros Hb Hh w. unfold tryCatch.
  specialize (Hb w). destruct (body w) as [[a |] w1]; simpl in *.
  - exact Hb.
  - etransitivity; [exact Hb | apply Hh].
Qed.

Lemma keeps_forOf {A} (xs : list A) (body : A -> M unit) :
  (forall x, keeps R (body x)) -> keeps R (forOf xs body).
Proof.
  intros Hb. induction xs as [| x rest IH]; simpl.
  - apply keeps_ret.
  - apply keeps_bind; [apply Hb | intros _; exact IH].
Qed.

End Combinators.

Lemma resolves_ret {A} (a : A) : resolves (ret a).
Proof. intros w. exists a. reflexivity. Qed.

Lemma resolves_get : resolves get.
Proof. intros w. exists w. reflexivity. Qed.

Lemma resolves_modify (f : World -> World) : resolves (modify f).
Proof. intros w. exists tt. reflexivity. Qed.

Lemma resolves_bind {A B} (m : M A) (k : A -> M B) :
  resolves m -> (forall a, resolves (k a)) -> resolves (bind m k).
Proof.
  intros Hm Hk w. unfold bind.
  destruct (Hm w) as [a Ha]. destruct (m w) as [[a' |] w1]; simpl in *.
  - apply Hk.
  - discriminate.
Qed.

Lemma resolves_tryCatch {A} (body handler : M A) :
  resolves handler -> resolves (tryCatch body handler).
Proof.
  intros Hh w. unfold tryCatch.
  destruct (body w) as [[a |] w1]; simpl.
  - exists a. reflexivity.
  - apply Hh.
Qed.

Lemma resolves_forOf {A} (xs : list A) (body : A -> M unit) :
  (forall x, resolves (body x)) -> resolves (forOf xs body).
Proof.
  intros Hb. induction xs as [| x rest IH]; simpl.
  - apply resolves_ret.
  - apply resolves_bind; [apply Hb | intros _; exact IH].
Qed.

(** A computation of type [M unit] that never rejects ends in
    [Resolved tt]. *)
Lemma resolves_run (m : M unit) :
  resolves m -> forall w, m w = (Resolved tt, snd (m w)).
Proof.
  intros Hm w. destruct (Hm w) as [[] Ha].
  destruct (m w) as [o w1]; simpl in *. congruence.
Qed.

Lemma bind_run {A B} (m : M A) (k : A -> M B) (w w1 : World) (a : A) :
  m w = (Resolved a, w1) -> bind m k w = k a w1.
Proof. intros H. unfold bind. rewrite H. reflexivity. Qed.

(** Goals [keeps R m] and [resolves m] for computations built from the
    combinators. *)
Ltac step_keeps :=
  lazymatch goal with
  | |- keeps ?R _ =>
      first
        [ apply (keeps_ret R)
        | apply (keeps_get R)
        | apply (keeps_await R)
        | apply (keeps_modify R); intros ?; reflexivity
        | apply (keeps_bind R); [| intros ?]
        | apply (keeps_tryCatch R)
        | apply (keeps_forOf R); intros ?
        | match goal with
          | |- keeps _ (match ?x with _ => _ end) => destruct x
          end ]
  end.

Ltac step_resolves :=
  first
    [ apply resolves_ret
    | apply resolves_get
    | apply resolves_modify
    | apply resolves_tryCatch
    | apply resolves_bind; [| intros ?]
    | apply resolves_forOf; intros ?
    | match goal with
      | |- resolves (match ?x with _ => _ end) => destruct x
      end ].

(** ** The dispatcher and the tracker never reject *)

Section ServerFacts.

Variable storage : Storage.

Lemma broadcastNotification_resolves (n : Payload) :
  resolves (broadcastNotification n).
Proof.
  unfold broadcastNotification, send. repeat step_resolves.
Qed.

Lemma broadcastIfInstalled_resolves (n : Payload) :
  resolves (broadcastIfInstalled n).
Proof.
  unfold broadcastIfInstalled.
  apply resolves_bind; [apply resolves_get | intros w].
  destruct (broadcastInstalled w);
    [apply broadcastNotification_resolves | apply resolves_ret].
Qed.

Lemma sendGeofenceNotification_resolves userId place action :
  resolves (sendGeofenceNotification storage userId place action).
Proof.
  unfold sendGeofenceNotification, consoleLog. repeat step_resolves.
Qed.

Lemma checkGeofenceTransitions_resolves userId newLat newLon :
  resolves (checkGeofenceTransitions storage userId newLat newLon).
Proof.
  unfold checkGeofenceTransitions, consoleLog. repeat step_resolves.
Qed.

(** *** What the dispatcher leaves alone *)

Lemma createNotificationM_keeps (R : relation World) `{!PreOrder R} n :
  (forall w, R w (add_notificationRow n w)) ->
  keeps R (createNotificationM storage n).
Proof.
  intros Hadd w. unfold createNotificationM.
  destruct (createNotification storage n); simpl; [apply Hadd | reflexivity].
Qed.

Lemma broadcastIfInstalled_keeps (R : relation World) `{!PreOrder R} n :
  (forall ws fr w, R w (add_wire ws fr w)) ->
  keeps R (broadcastIfInstalled n).
Proof.
  intros Hwire. unfold broadcastIfInstalled, broadcastNotification, send.
  repeat first [ apply (keeps_modify R); apply Hwire | step_keeps ].
Qed.

Lemma sendGeofenceNotification_keeps (R : relation World) `{!PreOrder R}
    userId place action :
  (forall n w, rowOfMover userId n = true ->
               R w (add_notificationRow n w)) ->
  (forall ws fr w, R w (add_wire ws fr w)) ->
  (forall w, R w (add_console LogErrorSending w)) ->
  keeps R (sendGeofenceNotification storage userId place action).
Proof.
  intros Hrow Hwire Hlog. unfold sendGeofenceNotification, consoleLog.
  repeat first
    [ apply (createNotificationM_keeps R); intros ?; apply Hrow;
        first [reflexivity | apply Z.eqb_refl]
    | apply (broadcastIfInstalled_keeps R); apply Hwire
    | apply (keeps_modify R); apply Hlog
    | step_keeps ].
Qed.

Lemma transitionsOn_add_console l w :
  transitionsOn (add_console l w) =
  transitionsOn w ++
    match l with
    | LogTransition userId action _ placeId => [(userId, action, placeId)]
    | _ => []
    end.
Proof.
  unfold transitionsOn, transitionLines. simpl. rewrite omap_app. simpl.
  destruct l; reflexivity.
Qed.

Lemma sendGeofenceNotification_transitions userId place action w :
  transitionsOn (snd (sendGeofenceNotification storage userId place action w))
  = transitionsOn w.
Proof.
  apply (sendGeofenceNotification_keeps (same transitionsOn)).
  - intros n w0 _. reflexivity.
  - intros ws fr w0. reflexivity.
  - intros w0. unfold same. rewrite transitionsOn_add_console.
    apply app_nil_r.
Qed.

Lemma sendGeofenceNotification_states userId place action w :
  userGeofenceStates
    (snd (sendGeofenceNotification storage userId place action w))
  = userGeofenceStates w.
Proof.
  apply (sendGeofenceNotification_keeps (same userGeofenceStates));
    intros; reflexivity.
Qed.

(** *** The loop over the candidate places *)

Lemma detected_cons userId previous lat lon place rest :
  detected userId previous lat lon (place :: rest) =
  match transitionOf previous lat lon place with
  | Some action => [(userId, action, place_id place)]
  | None => []
  end ++ detected userId previous lat lon rest.
Proof.
  unfold detected. simpl.
  destruct (transitionOf previous lat lon place); reflexivity.
Qed.

Lemma currentInside_cons lat lon place rest :
  currentInside lat lon (place :: rest) =
  if inside lat lon place
  then {[place_id place]} ∪ currentInside lat lon rest
  else currentInside lat lon rest.
Proof.
  unfold currentInside. simpl.
  destruct (inside lat lon place); reflexivity.
Qed.

Lemma checkPlaces_run userId lat lon previous places :
  forall newGeofences w,
  exists w',
    checkPlaces storage userId lat lon previous places newGeofences w
      = (Resolved (currentInside lat lon places ∪ newGeofences), w') /\
    transitionsOn w' =
      transitionsOn w ++ detected userId previous lat lon places /\
    userGeofenceStates w' = userGeofenceStates w.
Proof.
  induction places as [| place rest IH]; intros newGeofences w.
  - exists w. simpl. unfold ret. split; [| split].
    + f_equal. f_equal. unfold currentInside. simpl.
      symmetry. apply (left_id_L ∅ (∪)).
    + unfold detected. simpl. symmetry. apply app_nil_r.
    + reflexivity.
  - cbn [checkPlaces]. rewrite detected_cons, currentInside_cons.
    unfold transitionOf. fold (inside lat lon place).
    set (now := inside lat lon place).
    set (was := bool_decide (place_id place ∈ previous)).
    set (acc := if now then {[place_id place]} ∪ newGeofences
                else newGeofences).
    assert (Hacc : forall rest_in : gset Z,
               (if now then {[place_id place]} ∪ rest_in else rest_in)
                 ∪ newGeofences = rest_in ∪ acc).
    { intros rest_in. unfold acc. destruct now; [| reflexivity].
      rewrite (comm_L (∪) {[place_id place]} rest_in).
      rewrite <- (assoc_L (∪)). reflexivity. }
    destruct (now && negb was) eqn:Hent;
      [| destruct (negb now && was) eqn:Hex].
    + pose (w1 := add_console
                    (LogTransition userId entered (place_name place)
                       (place_id place)) w).
      pose (w2 := snd (sendGeofenceNotification storage userId place
                         entered w1)).
      destruct (IH acc w2) as (w' & Hrun & Htr & Hst).
      exists w'. split; [| split].
      * erewrite bind_run.
        2:{ erewrite bind_run; [| reflexivity].
            apply resolves_run, sendGeofenceNotification_resolves. }
        fold w1 w2. rewrite Hrun, Hacc. reflexivity.
      * rewrite Htr. unfold w2.
        rewrite sendGeofenceNotification_transitions. unfold w1.
        rewrite transitionsOn_add_console, <- app_assoc. reflexivity.
      * rewrite Hst. unfold w2. rewrite sendGeofenceNotification_states.
        reflexivity.
    + pose (w1 := add_console
                    (LogTransition userId exited (place_name place)
                       (place_id place)) w).
      pose (w2 := snd (sendGeofenceNotification storage userId place
                         exited w1)).
      destruct (IH acc w2) as (w' & Hrun & Htr & Hst).
      exists w'. split; [| split].
      * erewrite bind_run.
        2:{ erewrite bind_run; [| reflexivity].
            apply resolves_run, sendGeofenceNotification_resolves. }
        fold w1 w2. rewrite Hrun, Hacc. reflexivity.
      * rewrite Htr. unfold w2.
        rewrite sendGeofenceNotification_transitions. unfold w1.
        rewrite transitionsOn_add_console, <- app_assoc. reflexivity.
      * rewrite Hst. unfold w2. rewrite sendGeofenceNotification_states.
        reflexivity.
    + destruct (IH acc w) as (w' & Hrun & Htr & Hst).
      exists w'. split; [| split].
      * erewrite bind_run; [| reflexivity]. rewrite Hrun, Hacc. reflexivity.
      * rewrite Htr. reflexivity.
      * exact Hst.
Qed.

(** *** One check *)

Lemma check_rejected userId lat lon w :
  getFamilyPlaces storage userId = Rejected ->
  checkGeofenceTransitions storage userId lat lon w
    = (Resolved tt, add_console LogErrorChecking w).
Proof.
  intros Hfetch. unfold checkGeofenceTransitions, tryCatch, bind, await.
  rewrite Hfetch. reflexivity.
Qed.

Lemma check_noop userId lat lon w :
  getFamilyPlaces storage userId = Resolved None \/
  getFamilyPlaces storage userId = Resolved (Some []) ->
  checkGeofenceTransitions storage userId lat lon w = (Resolved tt, w).
Proof.
  intros [Hfetch | Hfetch];
    unfold checkGeofenceTransitions, tryCatch, bind, await;
    rewrite Hfetch; reflexivity.
Qed.

Lemma check_run userId lat lon w places :
  getFamilyPlaces storage userId = Resolved (Some places) ->
  places <> [] ->
  exists w1,
    checkGeofenceTransitions storage userId lat lon w
      = (Resolved tt,
         set_userGeofenceStates
           (fun m => <[toString userId := currentInside lat lon places]> m)
           w1) /\
    transitionsOn w1 =
      transitionsOn w
        ++ detected userId (previousInside w userId) lat lon places /\
    userGeofenceStates w1 = userGeofenceStates w.
Proof.
  intros Hfetch Hne.
  destruct (checkPlaces_run userId lat lon (previousInside w userId)
              places ∅ w) as (w1 & Hrun & Htr & Hst).
  exists w1. split; [| split; assumption].
  unfold checkGeofenceTransitions, tryCatch, bind at 1, await.
  rewrite Hfetch.
  destruct places as [| place rest]; [congruence |].
  unfold bind, get. unfold previousInside in Hrun. rewrite Hrun.
  unfold modify. repeat f_equal.
  apply (right_id_L ∅ (∪)).
Qed.

End ServerFacts.

(** *** Which transitions a check detects *)

Lemma elem_of_detected userId previous lat lon places u action pid :
  (u, action, pid) ∈ detected userId previous lat lon places <->
  u = userId /\
  exists place,
    place ∈ places /\ place_id place = pid /\
    transitionOf previous lat lon place = Some action.
Proof.
  unfold detected. rewrite list_elem_of_omap. split.
  - intros (place & Hin & Heq).
    destruct (transitionOf previous lat lon place) as [a |] eqn:Ht;
      simpl in Heq; [| discriminate].
    injection Heq as <- <- <-. eauto.
  - intros (-> & place & Hin & <- & Ht).
    exists place. rewrite Ht. split; [assumption | reflexivity].
Qed.

Lemma elem_of_currentInside lat lon places pid :
  pid ∈ currentInside lat lon places <->
  exists place,
    place ∈ places /\ place_id place = pid /\ inside lat lon place = true.
Proof.
  unfold currentInside. rewrite elem_of_list_to_set, list_elem_of_fmap.
  split.
  - intros (place & -> & Hin).
    apply list_elem_of_In, filter_In in Hin as [Hin Hins].
    exists place. rewrite list_elem_of_In. auto.
  - intros (place & Hin & <- & Hins).
    exists place. split; [reflexivity |].
    apply list_elem_of_In, filter_In. rewrite <- list_elem_of_In. auto.
Qed.

Lemma transitionOf_entered previous lat lon place :
  transitionOf previous lat lon place = Some entered <->
  inside lat lon place = true /\ place_id place ∉ previous.
Proof.
  unfold transitionOf.
  destruct (inside lat lon place); case_bool_decide as Hmem; simpl;
    split; intros Hx; try discriminate; try tauto;
    destruct Hx as [Hx1 Hx2]; try discriminate; contradiction.
Qed.

Lemma transitionOf_exited previous lat lon place :
  transitionOf previous lat lon place = Some exited <->
  inside lat lon place = false /\ place_id place ∈ previous.
Proof.
  unfold transitionOf.
  destruct (inside lat lon place); case_bool_decide as Hmem; simpl;
    split; intros Hx; try discriminate; try tauto;
    destruct Hx as [Hx1 Hx2]; try discriminate; contradiction.
Qed.

(** Distinct ids: the place with a given id is unique on the list. *)
Lemma place_unique (places : list Place) (p q : Place) :
  NoDup (map place_id places) ->
  p ∈ places -> q ∈ places -> place_id p = place_id q -> p = q.
Proof.
  induction places as [| x rest IH]; intros Hnd Hp Hq Hid.
  - inversion Hp.
  - simpl in Hnd. apply NoDup_cons in Hnd as [Hx Hnd].
    apply elem_of_cons in Hp as [-> | Hp];
      apply elem_of_cons in Hq as [-> | Hq].
    + reflexivity.
    + exfalso. apply Hx. rewrite Hid. apply list_elem_of_fmap. eauto.
    + exfalso. apply Hx. rewrite <- Hid. apply list_elem_of_fmap. eauto.
    + auto.
Qed.

Lemma detected_entered_iff userId previous lat lon places pid :
  (userId, entered, pid) ∈ detected userId previous lat lon places <->
  pid ∈ currentInside lat lon places ∖ previous.
Proof.
  rewrite elem_of_detected, elem_of_difference, elem_of_currentInside.
  split.
  - intros (_ & place & Hin & Hid & Ht).
    apply transitionOf_entered in Ht as [Hins Hnot].
    split; [eauto | congruence].
  - intros ((place & Hin & Hid & Hins) & Hnot).
    split; [reflexivity |]. exists place. split; [assumption |].
    split; [assumption |].
    apply transitionOf_entered. split; [assumption | congruence].
Qed.

Lemma detected_exited_iff userId previous lat lon places pid :
  NoDup (map place_id places) ->
  (userId, exited, pid) ∈ detected userId previous lat lon places <->
  pid ∈ previous ∖ currentInside lat lon places /\
  pid ∈ map place_id places.
Proof.
  intros Hnd.
  rewrite elem_of_detected, elem_of_difference, elem_of_currentInside.
  split.
  - intros (_ & place & Hin & Hid & Ht).
    apply transitionOf_exited in Ht as [Hout Hwas].
    split; [split |].
    + congruence.
    + intros (q & Hq & Hqid & Hqin).
      assert (q = place) by (eapply place_unique; eauto; congruence).
      congruence.
    + apply list_elem_of_fmap. eauto.
  - intros ((Hwas & Hnot) & Hcand).
    apply list_elem_of_fmap in Hcand as (place & Hid & Hin).
    split; [reflexivity |]. exists place. split; [assumption |].
    split; [congruence |].
    apply transitionOf_exited. split; [| congruence].
    destruct (inside lat lon place) eqn:Hins; [| reflexivity].
    exfalso. apply Hnot. eauto.
Qed.

(** ** One geofence check (C3) *)

(** C3, as the code has it. With a non-empty candidate list of distinct
    place ids, one check records for the user:
    - [entered] exactly for the ids in [currentInside − previousInside];
    - [exited] exactly for the ids in [previousInside − currentInside]
      that are on the candidate list (an id stored earlier whose place is
      no longer a candidate is dropped without an [exited]);
    and it replaces the stored set of the user by [currentInside]. With an
    empty candidate list the check changes nothing at all. *)
Theorem check_transitions_are_set_differences :
  forall storage userId lat lon w places,
    getFamilyPlaces storage userId = Resolved (Some places) ->
    NoDup (map place_id places) ->
    let run := checkGeofenceTransitions storage userId lat lon w in
    (places <> [] ->
     fst run = Resolved tt /\
     exists new,
       transitionsOn (snd run) = transitionsOn w ++ new /\
       (forall u action pid, (u, action, pid) ∈ new -> u = userId) /\
       (forall pid,
           (userId, entered, pid) ∈ new <->
           pid ∈ currentInside lat lon places ∖ previousInside w userId) /\
       (forall pid,
           (userId, exited, pid) ∈ new <->
           pid ∈ previousInside w userId ∖ currentInside lat lon places /\
           pid ∈ map place_id places) /\
       userGeofenceStates (snd run) =
         <[toString userId := currentInside lat lon places]>
           (userGeofenceStates w)) /\
    (places = [] -> run = (Resolved tt, w)).
Proof.
  intros storage userId lat lon w places Hfetch Hnd run. split.
  - intros Hne.
    destruct (check_run storage userId lat lon w places Hfetch Hne)
      as (w1 & Hrun & Htr & Hst).
    subst run. rewrite Hrun. simpl. split; [reflexivity |].
    exists (detected userId (previousInside w userId) lat lon places).
    split; [exact Htr |]. split; [| split; [| split]].
    + intros u action pid Hin. apply elem_of_detected in Hin. tauto.
    + intros pid. apply detected_entered_iff.
    + intros pid. apply detected_exited_iff. exact Hnd.
    + rewrite Hst. reflexivity.
  - intros ->. subst run. apply check_noop. right. exact Hfetch.
Qed.

(** At a place whose centre is the queried position, the user is
    inside. *)
Lemma inside_at_centre (place : Place) :
  inside (place_latitude place) (place_longitude place) place = true.
Proof. unfold inside. apply isWithinGeofence_same. Qed.

Lemma check_transitions_are_set_differences_witness :
  userGeofenceStates
    (snd (checkGeofenceTransitions (sampleStorage [home] [] [] None) 1 0 0
            (freshWorld 0)))
  = <[toString 1 := currentInside 0 0 [home]]> ∅.
Proof.
  destruct (check_transitions_are_set_differences
              (sampleStorage [home] [] [] None) 1 0%R 0%R (freshWorld 0)
              [home] eq_refl) as [Hrun _].
  - simpl. apply NoDup_cons. split; [apply not_elem_of_nil | apply NoDup_nil_2].
  - destruct Hrun as (_ & new & _ & _ & _ & _ & Hst); [discriminate |].
    exact Hst.
Defined.

(** C3 as written fails: place 7 is in [previousInside − currentInside],
    yet the check, whose only candidate is place 8, records no [exited]
    for it. *)
Lemma exited_needs_candidate :
  let run :=
    checkGeofenceTransitions (sampleStorage [home] [] [] None) 1 0 0
      staleWorld in
  7 ∈ previousInside staleWorld 1 ∖ currentInside 0 0 [home] /\
  (1, exited, 7) ∉ transitionsOn (snd run).
Proof.
  intros run. split.
  - apply elem_of_difference. split.
    + unfold previousInside, staleWorld. simpl.
      rewrite lookup_singleton_eq. simpl. apply elem_of_singleton_2.
      reflexivity.
    + rewrite elem_of_currentInside. intros (place & Hin & Hid & _).
      apply list_elem_of_singleton in Hin. subst place. discriminate.
  - destruct (check_run (sampleStorage [home] [] [] None) 1 0 0 staleWorld
                [home] eq_refl) as (w1 & Hrun & Htr & _); [discriminate |].
    subst run. rewrite Hrun. cbn [snd].
    change (transitionsOn
              (set_userGeofenceStates
                 (fun m => <[toString 1 := currentInside 0 0 [home]]> m) w1))
      with (transitionsOn w1).
    rewrite Htr.
    change (transitionsOn staleWorld) with (@nil (Z * Action * Z)).
    rewrite app_nil_l, elem_of_detected.
    intros (_ & place & Hin & Hid & _).
    apply list_elem_of_singleton in Hin. subst place. discriminate.
Qed.

(** ** Sequences of checks (C1) *)

Lemma actionsAt_app userId placeId (l1 l2 : list (Z * Action * Z)) :
  actionsAt userId placeId (l1 ++ l2) =
  actionsAt userId placeId l1 ++ actionsAt userId placeId l2.
Proof. unfold actionsAt. apply omap_app. Qed.

Lemma actionsAt_detected_other userId placeId other previous lat lon places :
  other <> userId ->
  actionsAt userId placeId (detected other previous lat lon places) = [].
Proof.
  intros Hne. induction places as [| place rest IH].
  - reflexivity.
  - rewrite detected_cons, actionsAt_app, IH, app_nil_r.
    destruct (transitionOf previous lat lon place); [| reflexivity].
    simpl. destruct (Z.eqb_spec other userId); [contradiction | reflexivity].
Qed.

Lemma actionsAt_detected_absent userId placeId previous lat lon places :
  ~ In placeId (map place_id places) ->
  actionsAt userId placeId (detected userId previous lat lon places) = [].
Proof.
  induction places as [| place rest IH]; intros Hnot.
  - reflexivity.
  - simpl in Hnot. rewrite detected_cons, actionsAt_app, IH, app_nil_r by tauto.
    destruct (transitionOf previous lat lon place); [| reflexivity].
    simpl. destruct (Z.eqb_spec (place_id place) placeId).
    + exfalso. apply Hnot. left. assumption.
    + rewrite andb_false_r. reflexivity.
Qed.

Lemma actionsAt_detected_find userId placeId previous lat lon places :
  NoDup (map place_id places) ->
  actionsAt userId placeId (detected userId previous lat lon places) =
  match findPlace placeId places with
  | Some place =>
      match transitionOf previous lat lon place with
      | Some action => [action]
      | None => []
      end
  | None => []
  end.
Proof.
  unfold findPlace.
  induction places as [| place rest IH]; intros Hnd.
  - reflexivity.
  - simpl in Hnd. apply NoDup_cons in Hnd as [Hhead Hnd].
    rewrite detected_cons, actionsAt_app. simpl.
    destruct (Z.eqb_spec (place_id place) placeId) as [Heq | Hne].
    + rewrite actionsAt_detected_absent, app_nil_r.
      * destruct (transitionOf previous lat lon place); [| reflexivity].
        simpl. rewrite Z.eqb_refl. simpl.
        destruct (Z.eqb_spec (place_id place) placeId);
          [reflexivity | contradiction].
      * rewrite <- Heq. rewrite <- list_elem_of_In. exact Hhead.
    + rewrite IH by assumption.
      destruct (transitionOf previous lat lon place); [| reflexivity].
      simpl. destruct (Z.eqb_spec (place_id place) placeId);
        [contradiction |].
      rewrite andb_false_r. reflexivity.
Qed.

Lemma findPlace_Some placeId places place :
  findPlace placeId places = Some place ->
  place ∈ places /\ place_id place = placeId.
Proof.
  unfold findPlace. intros Hfind. apply find_some in Hfind as [Hin Heq].
  rewrite list_elem_of_In. split; [assumption |].
  apply Z.eqb_eq. assumption.
Qed.

Lemma findPlace_candidate placeId places :
  In placeId (map place_id places) ->
  exists place, findPlace placeId places = Some place.
Proof.
  intros Hin. apply in_map_iff in Hin as (place & Hid & Hin).
  destruct (findPlace placeId places) as [found |] eqn:Hfind; [eauto |].
  exfalso. unfold findPlace in Hfind.
  apply (find_none _ _ Hfind) in Hin. simpl in Hin.
  apply Z.eqb_neq in Hin. contradiction.
Qed.

Lemma currentInside_find lat lon places placeId place :
  NoDup (map place_id places) ->
  findPlace placeId places = Some place ->
  bool_decide (placeId ∈ currentInside lat lon places) = inside lat lon place.
Proof.
  intros Hnd Hfind. apply findPlace_Some in Hfind as [Hin Hid].
  destruct (inside lat lon place) eqn:Hins.
  - apply bool_decide_eq_true_2, elem_of_currentInside. eauto.
  - apply bool_decide_eq_false_2. rewrite elem_of_currentInside.
    intros (q & Hq & Hqid & Hqins).
    assert (q = place) by (eapply place_unique; eauto; congruence).
    congruence.
Qed.

Lemma edges_one was now :
  edges was [now] =
  if now && negb was then [entered]
  else if negb now && was then [exited]
  else [].
Proof. simpl. apply app_nil_r. Qed.

(** What one check of a sequence adds for a user and a place, and the
    side it leaves stored. *)
Lemma runCheck_step userId placeId c w :
  staysCandidate userId placeId c ->
  fst (runCheck c w) = Resolved tt /\
  exists new,
    transitionsOn (snd (runCheck c w)) = transitionsOn w ++ new /\
    match sideAt userId placeId c with
    | Some side =>
        actionsAt userId placeId new =
          edges (wasInside w userId placeId) [side] /\
        wasInside (snd (runCheck c w)) userId placeId = side
    | None =>
        actionsAt userId placeId new = [] /\
        wasInside (snd (runCheck c w)) userId placeId =
          wasInside w userId placeId
    end.
Proof.
  intros Hstay. destruct c as [u storage lat lon].
  unfold staysCandidate in Hstay.
  unfold runCheck, sideAt, candidatesOf in *.
  cbn [chk_user chk_storage chk_lat chk_lon] in *.
  destruct (Z.eqb_spec u userId) as [-> | Hother].
  - destruct (Hstay eq_refl) as (places & Hcand & Hnd & Hin).
    destruct (getFamilyPlaces storage userId) as [[ps |] |] eqn:Hfetch;
      try discriminate.
    injection Hcand as ->.
    assert (Hne : places <> []) by (intros ->; inversion Hin).
    destruct (check_run storage userId lat lon w places Hfetch Hne)
      as (w1 & Hrun & Htr & Hst).
    rewrite Hrun. cbn [fst snd]. split; [reflexivity |].
    exists (detected userId (previousInside w userId) lat lon places).
    split; [exact Htr |].
    destruct (findPlace_candidate placeId places Hin) as (place & Hfind).
    simpl. rewrite Hfind. simpl. split.
    + rewrite actionsAt_detected_find, Hfind, app_nil_r by assumption.
      unfold transitionOf, wasInside.
      apply findPlace_Some in Hfind as [_ ->].
      destruct (inside lat lon place), (bool_decide _); reflexivity.
    + unfold wasInside, previousInside. simpl.
      rewrite lookup_insert_eq. simpl.
      apply currentInside_find; assumption.
  - assert (Hkey : toString u <> toString userId).
    { intros Heq. apply Hother. unfold toString in Heq.
      apply (inj pretty) in Heq. exact Heq. }
    destruct (getFamilyPlaces storage u) as [[[| place rest] |] |] eqn:Hfetch.
    + rewrite check_noop by (right; assumption). cbn [fst snd].
      split; [reflexivity |]. exists []. rewrite app_nil_r. auto.
    + destruct (check_run storage u lat lon w (place :: rest) Hfetch)
        as (w1 & Hrun & Htr & Hst); [discriminate |].
      rewrite Hrun. cbn [fst snd]. split; [reflexivity |].
      eexists. split; [exact Htr |]. split.
      * apply actionsAt_detected_other. assumption.
      * unfold wasInside, previousInside. simpl.
        rewrite lookup_insert_ne, Hst by assumption. reflexivity.
    + rewrite check_noop by (left; assumption). cbn [fst snd].
      split; [reflexivity |]. exists []. rewrite app_nil_r. auto.
    + rewrite check_rejected by assumption. cbn [fst snd].
      split; [reflexivity |]. exists [].
      rewrite transitionsOn_add_console. auto.
Qed.

Lemma sides_cons userId placeId c rest :
  sides userId placeId (c :: rest) =
  match sideAt userId placeId c with
  | Some side => side :: sides userId placeId rest
  | None => sides userId placeId rest
  end.
Proof. unfold sides. simpl. destruct (sideAt userId placeId c); reflexivity. Qed.

Lemma runChecks_trace userId placeId checks :
  Forall (staysCandidate userId placeId) checks ->
  forall w,
    fst (runChecks checks w) = Resolved tt /\
    actionsAt userId placeId (transitionsOn (snd (runChecks checks w))) =
      actionsAt userId placeId (transitionsOn w)
        ++ edges (wasInside w userId placeId) (sides userId placeId checks).
Proof.
  induction 1 as [| c rest Hc _ IH]; intros w.
  - simpl. rewrite app_nil_r. auto.
  - destruct (runCheck_step userId placeId c w Hc) as (Hres & new & Htr & Hside).
    unfold runChecks. cbn [forOf]. unfold bind.
    destruct (runCheck c w) as [o w1]; cbn [fst snd] in *. subst o.
    fold (runChecks rest). destruct (IH w1) as [Hres1 Hacts].
    split; [exact Hres1 |].
    rewrite Hacts, Htr, actionsAt_app, sides_cons, <- app_assoc. f_equal.
    destruct (sideAt userId placeId c) as [side |];
      destruct Hside as [Hnew Hwas]; rewrite Hnew, Hwas.
    + rewrite edges_one. reflexivity.
    + reflexivity.
Qed.

Lemma edges_same_side side n rest :
  edges side (replicate n side ++ rest) = edges side rest.
Proof.
  induction n as [| n IH].
  - reflexivity.
  - cbn [replicate app edges]. rewrite IH. destruct side; reflexivity.
Qed.

Lemma edges_repeat was side n rest :
  edges was (replicate (S n) side ++ rest) = edges was (side :: rest).
Proof.
  cbn [replicate app edges]. rewrite edges_same_side. reflexivity.
Qed.


(** ** What the tracker leaves alone *)

Section TrackerFrame.

Variable storage : Storage.
Variable userId : Z.
Context (R : relation World) `{!PreOrder R}.
Hypothesis Hrow :
  forall n w, rowOfMover userId n = true -> R w (add_notificationRow n w).
Hypothesis Hwire : forall ws fr w, R w (add_wire ws fr w).
Hypothesis Hlog : forall l w, R w (add_console l w).
Hypothesis Hstates : forall f w, R w (set_userGeofenceStates f w).

Lemma checkPlaces_keeps lat lon previous places newGeofences :
  keeps R (checkPlaces storage userId lat lon previous places newGeofences).
Proof.
  revert newGeofences.
  induction places as [| place rest IH]; intros newGeofences.
  - apply (keeps_ret R).
  - cbn [checkPlaces]. apply (keeps_bind R); [| intros _; apply IH].
    repeat first
      [ apply (sendGeofenceNotification_keeps storage R userId);
          [exact Hrow | exact Hwire | apply Hlog]
      | apply (keeps_modify R); apply Hlog
      | step_keeps ].
Qed.

Lemma checkGeofenceTransitions_keeps lat lon :
  keeps R (checkGeofenceTransitions storage userId lat lon).
Proof.
  unfold checkGeofenceTransitions, consoleLog.
  repeat first
    [ apply checkPlaces_keeps
    | apply (keeps_modify R); first [apply Hlog | apply Hstates]
    | step_keeps ].
Qed.

End TrackerFrame.

(** ** The ingest handler *)

Section IngestFacts.

Variable storage : Storage.

Lemma notifyMoved_resolves userId userName location familyMembers :
  resolves (notifyMoved storage userId userName location familyMembers).
Proof.
  unfold notifyMoved, notifyMember, consoleLog. repeat step_resolves.
Qed.

Lemma broadcastLocationUpdate_resolves userId location :
  resolves (broadcastLocationUpdate storage userId location).
Proof.
  unfold broadcastLocationUpdate, send. repeat step_resolves.
Qed.

Lemma broadcastLocationUpdate_keeps (R : relation World) `{!PreOrder R}
    userId location :
  (forall ws fr w, R w (add_wire ws fr w)) ->
  keeps R (broadcastLocationUpdate storage userId location).
Proof.
  intros Hwire. unfold broadcastLocationUpdate, send.
  repeat first [ apply (keeps_modify R); apply Hwire | step_keeps ].
Qed.

(** The handler after its four awaited reads have resolved. *)
Lemma postLocations_run userId locationData location user familyMembers w :
  saveLocation storage locationData = Resolved location ->
  getUser storage userId = Resolved user ->
  getFamilyMembers storage userId = Resolved familyMembers ->
  let w0 := add_locationRow locationData w in
  let gate :=
    shouldCreateNotification (clock w) (lastNotificationTimeOf w userId)
    && (0 <? Z.of_nat (length familyMembers)) in
  let w1 :=
    if gate then
      snd (notifyMoved storage userId (userNameOf user) location familyMembers
             (set_lastLocationNotification
                (Some (<[toString userId := clock w]>
                         (default ∅ (lastLocationNotification w)))) w0))
    else w0 in
  let w2 :=
    snd (checkGeofenceTransitions storage userId
           (loc_latitude location) (loc_longitude location) w1) in
  let w3 := snd (broadcastLocationUpdate storage userId location w2) in
  postLocations storage userId (Resolved locationData) w
    = (Resolved (Json location), w3).
Proof.
  intros Hsave Huser Hfam w0 gate w1 w2 w3.
  unfold postLocations, tryCatch.
  unfold bind at 1, await. unfold bind at 1, saveLocationM. rewrite Hsave.
  unfold bind at 1, await. rewrite Huser.
  unfold bind at 1. rewrite Hfam.
  unfold bind at 1, get. fold w0.
  change (clock w0) with (clock w).
  change (lastNotificationTimeOf w0 userId)
    with (lastNotificationTimeOf w userId).
  change (lastLocationNotification w0) with (lastLocationNotification w).
  fold gate.
  assert (Hstep :
    (if gate
     then modify (set_lastLocationNotification
                    (Some (<[toString userId := clock w]>
                             (default ∅ (lastLocationNotification w))))) ;;
          notifyMoved storage userId (userNameOf user) location familyMembers
     else ret tt) w0 = (Resolved tt, w1)).
  { subst w1. destruct gate.
    - unfold bind, modify.
      apply resolves_run, notifyMoved_resolves.
    - reflexivity. }
  unfold bind at 1. rewrite Hstep.
  unfold bind at 1.
  rewrite (resolves_run _ (checkGeofenceTransitions_resolves storage userId
                             (loc_latitude location) (loc_longitude location))).
  fold w2. unfold bind at 1.
  rewrite (resolves_run _ (broadcastLocationUpdate_resolves userId location)).
  fold w3. reflexivity.
Qed.

(** *** The "moved" loop *)

Lemma notifyMember_resolves userId userName location familyMember :
  resolves (notifyMember storage userId userName location familyMember).
Proof. unfold notifyMember, consoleLog. repeat step_resolves. Qed.

Lemma notifyMember_keeps (R : relation World) `{!PreOrder R}
    userId userName location familyMember :
  (forall n w, isGeofenceData (n_data n) = false ->
               R w (add_notificationRow n w)) ->
  (forall ws fr w, R w (add_wire ws fr w)) ->
  (forall l w, isTransitionLine l = false -> R w (add_console l w)) ->
  keeps R (notifyMember storage userId userName location familyMember).
Proof.
  intros Hrow Hwire Hlog. unfold notifyMember, consoleLog.
  repeat first
    [ apply (createNotificationM_keeps storage R); intros ?; apply Hrow;
        reflexivity
    | apply (broadcastIfInstalled_keeps R); apply Hwire
    | apply (keeps_modify R); intros ?; apply Hlog; reflexivity
    | step_keeps ].
Qed.

Lemma notifyMoved_keeps (R : relation World) `{!PreOrder R}
    userId userName location familyMembers :
  (forall n w, isGeofenceData (n_data n) = false ->
               R w (add_notificationRow n w)) ->
  (forall ws fr w, R w (add_wire ws fr w)) ->
  (forall l w, isTransitionLine l = false -> R w (add_console l w)) ->
  keeps R (notifyMoved storage userId userName location familyMembers).
Proof.
  intros Hrow Hwire Hlog. unfold notifyMoved.
  apply (keeps_forOf R). intros familyMember.
  apply notifyMember_keeps; assumption.
Qed.

Lemma notifyMoved_cons userId userName location familyMember rest w :
  notifyMoved storage userId userName location (familyMember :: rest) w =
  notifyMoved storage userId userName location rest
    (snd (notifyMember storage userId userName location familyMember w)).
Proof.
  unfold notifyMoved. cbn [forOf]. unfold bind.
  rewrite (resolves_run _ (notifyMember_resolves userId userName location
                             familyMember) w).
  reflexivity.
Qed.

(** A recipient whose row is rejected costs that row only. *)
Lemma notifyMember_rows userId userName location familyMember w :
  notificationRows
    (snd (notifyMember storage userId userName location familyMember w))
  = notificationRows w ++
    (if accepted storage (movedRow userId userName location familyMember)
     then [movedRow userId userName location familyMember] else []).
Proof.
  unfold notifyMember, tryCatch.
  unfold bind at 1, createNotificationM, accepted.
  fold (movedRow userId userName location familyMember).
  destruct (createNotification storage
              (movedRow userId userName location familyMember)).
  - set (w1 := add_notificationRow _ w).
    set (rest := (consoleLog _ ;; _)).
    assert (Hres : resolves rest).
    { subst rest. unfold consoleLog.
      apply resolves_bind; [apply resolves_modify | intros _].
      apply resolves_bind; [apply resolves_get | intros w2].
      apply broadcastIfInstalled_resolves. }
    assert (Hkeep : keeps (same notificationRows) rest).
    { subst rest. unfold consoleLog.
      apply (keeps_bind _);
        [apply (keeps_modify _); intros ?; reflexivity | intros _].
      apply (keeps_bind _); [apply (keeps_get _) | intros w2].
      apply (broadcastIfInstalled_keeps _). intros; reflexivity. }
    rewrite (resolves_run rest Hres w1). cbn [snd].
    rewrite (Hkeep w1). reflexivity.
  - simpl. rewrite app_nil_r. reflexivity.
Qed.

Lemma notifyMoved_rows userId userName location familyMembers :
  forall w,
    notificationRows
      (snd (notifyMoved storage userId userName location familyMembers w))
    = notificationRows w ++
      List.filter (accepted storage)
        (map (movedRow userId userName location) familyMembers).
Proof.
  induction familyMembers as [| familyMember rest IH]; intros w.
  - simpl. rewrite app_nil_r. reflexivity.
  - rewrite notifyMoved_cons, IH, notifyMember_rows, <- app_assoc.
    f_equal. simpl.
    destruct (accepted storage _); reflexivity.
Qed.

Lemma filter_moved_rows userId userName location familyMembers :
  List.filter (isMovedRow userId)
    (List.filter (accepted storage)
       (map (movedRow userId userName location) familyMembers))
  = List.filter (accepted storage)
      (map (movedRow userId userName location) familyMembers).
Proof.
  apply forallb_filter_id, forallb_forall.
  intros n Hin. apply filter_In in Hin as [Hin _].
  apply in_map_iff in Hin as (familyMember & <- & _).
  unfold isMovedRow, movedRow. simpl. apply Z.eqb_refl.
Qed.

(** *** The throttle *)

Lemma movedRows_add_geofence_row userId n w :
  isGeofenceData (n_data n) = true ->
  movedRows userId (add_notificationRow n w) = movedRows userId w.
Proof.
  intros Hgeo. unfold movedRows. simpl. rewrite List.filter_app. simpl.
  unfold isMovedRow at 2. destruct (n_data n); [| discriminate].
  rewrite andb_false_r. apply app_nil_r.
Qed.

Lemma check_keeps_movedRows moverId userId lat lon w :
  movedRows moverId (snd (checkGeofenceTransitions storage userId lat lon w))
  = movedRows moverId w.
Proof.
  apply (checkGeofenceTransitions_keeps storage userId
           (same (movedRows moverId))).
  - intros n w0 Hrow. apply movedRows_add_geofence_row.
    unfold rowOfMover in Hrow. destruct (n_data n); [reflexivity | discriminate].
  - intros; reflexivity.
  - intros; reflexivity.
  - intros; reflexivity.
Qed.

Lemma check_keeps_throttle userId lat lon w :
  lastLocationNotification
    (snd (checkGeofenceTransitions storage userId lat lon w))
  = lastLocationNotification w.
Proof.
  apply (checkGeofenceTransitions_keeps storage userId
           (same lastLocationNotification)); intros; reflexivity.
Qed.

Lemma postLocations_moved userId locationData location user familyMembers w :
  saveLocation storage locationData = Resolved location ->
  getUser storage userId = Resolved user ->
  getFamilyMembers storage userId = Resolved familyMembers ->
  let w' := snd (postLocations storage userId (Resolved locationData) w) in
  movedRows userId w' =
    movedRows userId w ++
    (if throttleGate w userId familyMembers
     then List.filter (accepted storage)
            (map (movedRow userId (userNameOf user) location) familyMembers)
     else []) /\
  lastLocationNotification w' =
    (if throttleGate w userId familyMembers
     then Some (<[toString userId := clock w]>
                  (default ∅ (lastLocationNotification w)))
     else lastLocationNotification w).
Proof.
  intros Hsave Huser Hfam w'. subst w'.
  rewrite (postLocations_run userId locationData location user familyMembers
             w Hsave Huser Hfam).
  cbn [snd]. fold (throttleGate w userId familyMembers).
  rewrite (broadcastLocationUpdate_keeps (same (movedRows userId)))
    by (intros; reflexivity).
  rewrite (broadcastLocationUpdate_keeps (same lastLocationNotification))
    by (intros; reflexivity).
  rewrite check_keeps_movedRows, check_keeps_throttle.
  destruct (throttleGate w userId familyMembers).
  - split.
    + unfold movedRows. rewrite notifyMoved_rows. simpl.
      rewrite List.filter_app, filter_moved_rows. reflexivity.
    + rewrite (notifyMoved_keeps (same lastLocationNotification))
        by (intros; reflexivity).
      reflexivity.
  - split; [| reflexivity]. rewrite app_nil_r. reflexivity.
Qed.

(** A request that fails before the throttle creates no "moved" row and
    leaves the throttle alone. *)
Lemma postLocations_early_failure userId parsed w :
  parsed = Rejected \/
  (exists d, parsed = Resolved d /\
     (saveLocation storage d = Rejected \/
      getUser storage userId = Rejected \/
      getFamilyMembers storage userId = Rejected)) ->
  let w' := snd (postLocations storage userId parsed w) in
  fst (postLocations storage userId parsed w) = Resolved Status500 /\
  movedRows userId w' = movedRows userId w /\
  lastLocationNotification w' = lastLocationNotification w.
Proof.
  intros Hfail.
  assert (Hrun : exists w1,
             postLocations storage userId parsed w
               = (Resolved Status500, add_console LogErrorSavingLocation w1) /\
             movedRows userId w1 = movedRows userId w /\
             lastLocationNotification w1 = lastLocationNotification w).
  { unfold postLocations, tryCatch.
    destruct Hfail as [-> | (d & -> & Hfail)]; [exists w; auto |].
    unfold bind at 1, await. unfold bind at 1, saveLocationM.
    destruct (saveLocation storage d) as [location |] eqn:Hsave;
      [| exists w; auto].
    unfold bind at 1, await.
    destruct (getUser storage userId) as [user |] eqn:Huser;
      [| exists (add_locationRow d w); auto].
    unfold bind at 1.
    destruct (getFamilyMembers storage userId) as [familyMembers |] eqn:Hfam;
      [| exists (add_locationRow d w); auto].
    destruct Hfail as [Hfail | [Hfail | Hfail]]; discriminate. }
  destruct Hrun as (w1 & Hrun & Hrows & Hlast).
  rewrite Hrun. cbn [fst snd]. auto.
Qed.

End IngestFacts.

(** ** The movement throttle (C4) *)

Lemma throttleGate_spec w userId (familyMembers : list User) :
  throttleGate w userId familyMembers = true <->
  5 * 60 * 1000 < clock w - lastNotificationTimeOf w userId /\
  familyMembers <> [].
Proof.
  unfold throttleGate, shouldCreateNotification.
  rewrite andb_true_iff, !Z.ltb_lt.
  destruct familyMembers as [| familyMember rest]; simpl length.
  - split; intros [H1 H2]; [lia | congruence].
  - split; intros [H1 H2]; (split; [assumption |]); [discriminate | lia].
Qed.

Lemma lastNotificationTimeOf_same w w' userId :
  lastLocationNotification w' = lastLocationNotification w ->
  lastNotificationTimeOf w' userId = lastNotificationTimeOf w userId.
Proof. intros H. unfold lastNotificationTimeOf. rewrite H. reflexivity. Qed.

Lemma ingestPing_cases userId p w :
  let w' := ingestPing userId p w in
  (movedRows userId w' = movedRows userId w /\
   lastLocationNotification w' = lastLocationNotification w) \/
  (exists familyMembers userName location,
      getFamilyMembers (ping_storage p) userId = Resolved familyMembers /\
      5 * 60 * 1000 < ping_time p - lastNotificationTimeOf w userId /\
      lastNotificationTimeOf w' userId = ping_time p /\
      movedRows userId w' =
        movedRows userId w ++
        List.filter (accepted (ping_storage p))
          (map (movedRow userId userName location) familyMembers)).
Proof.
  intros w'. subst w'. unfold ingestPing.
  destruct p as [storage body t]. cbn [ping_storage ping_body ping_time].
  set (w0 := set_clock t w).
  change (movedRows userId w) with (movedRows userId w0).
  change (lastLocationNotification w) with (lastLocationNotification w0).
  change (lastNotificationTimeOf w userId)
    with (lastNotificationTimeOf w0 userId).
  destruct body as [d |].
  2:{ left. apply postLocations_early_failure. left. reflexivity. }
  destruct (saveLocation storage d) as [location |] eqn:Hsave.
  2:{ left. apply postLocations_early_failure. right. eauto. }
  destruct (getUser storage userId) as [user |] eqn:Huser.
  2:{ left. apply postLocations_early_failure. right. eauto. }
  destruct (getFamilyMembers storage userId) as [familyMembers |] eqn:Hfam.
  2:{ left. apply postLocations_early_failure. right. eauto 6. }
  destruct (postLocations_moved storage userId d location user familyMembers
              w0 Hsave Huser Hfam) as [Hrows Hlast].
  destruct (throttleGate w0 userId familyMembers) eqn:Hgate.
  - right. exists familyMembers, (userNameOf user), location.
    apply throttleGate_spec in Hgate as [Hgate _].
    split; [reflexivity |]. split; [exact Hgate |]. split; [| exact Hrows].
    unfold lastNotificationTimeOf at 1. rewrite Hlast.
    rewrite lookup_insert_eq. reflexivity.
  - left. rewrite app_nil_r in Hrows. auto.
Qed.

Lemma ingestAll_cons userId p rest w :
  ingestAll userId (p :: rest) w = ingestAll userId rest (ingestPing userId p w).
Proof. reflexivity. Qed.

(** While every ping comes at most five minutes after the last
    announcement, nothing is announced. *)
Lemma quiet_run userId pings :
  forall w,
    (forall p, In p pings ->
               ping_time p - lastNotificationTimeOf w userId <= 5 * 60 * 1000) ->
    movedRows userId (ingestAll userId pings w) = movedRows userId w.
Proof.
  induction pings as [| p rest IH]; intros w Hquiet.
  - reflexivity.
  - rewrite ingestAll_cons.
    destruct (ingestPing_cases userId p w)
      as [[Hrows Hlast] | (fm & name & loc & _ & Hgate & _)].
    + rewrite IH, Hrows; [reflexivity |].
      intros q Hq. rewrite (lastNotificationTimeOf_same _ _ _ Hlast).
      apply Hquiet. right. exact Hq.
    + specialize (Hquiet p (or_introl eq_refl)). lia.
Qed.

Lemma batch_without_recipient storage userId userName location recipient
    (familyMembers : list User) :
  ~ In recipient (map user_id familyMembers) ->
  List.filter (fun n => Z.eqb (n_userId n) recipient)
    (List.filter (accepted storage)
       (map (movedRow userId userName location) familyMembers)) = [].
Proof.
  induction familyMembers as [| familyMember rest IH]; intros Hnot.
  - reflexivity.
  - simpl in *. destruct (accepted storage _); [| apply IH; tauto].
    simpl. destruct (Z.eqb_spec (user_id familyMember) recipient).
    + exfalso. apply Hnot. left. assumption.
    + apply IH. tauto.
Qed.

Lemma batch_at_most_one storage userId userName location recipient
    (familyMembers : list User) :
  NoDup (map user_id familyMembers) ->
  (length
     (List.filter (fun n => Z.eqb (n_userId n) recipient)
        (List.filter (accepted storage)
           (map (movedRow userId userName location) familyMembers)))
   <= 1)%nat.
Proof.
  induction familyMembers as [| familyMember rest IH]; intros Hnd.
  - simpl. lia.
  - simpl in Hnd. apply NoDup_cons in Hnd as [Hhead Hnd]. simpl.
    destruct (accepted storage _); [| apply IH; exact Hnd].
    simpl. destruct (Z.eqb_spec (user_id familyMember) recipient) as [Heq | Hne].
    + rewrite batch_without_recipient; [simpl; lia |].
      rewrite <- Heq, <- list_elem_of_In. exact Hhead.
    + apply IH. exact Hnd.
Qed.

Lemma window_run userId recipient lo pings :
  (forall p, In p pings -> lo <= ping_time p <= lo + 5 * 60 * 1000) ->
  (forall p familyMembers,
      In p pings ->
      getFamilyMembers (ping_storage p) userId = Resolved familyMembers ->
      NoDup (map user_id familyMembers)) ->
  forall w,
    (length (movedRowsFor userId recipient (ingestAll userId pings w))
     <= length (movedRowsFor userId recipient w) + 1)%nat.
Proof.
  induction pings as [| p rest IH]; intros Hwindow Hnd w.
  - simpl. lia.
  - rewrite ingestAll_cons.
    destruct (ingestPing_cases userId p w)
      as [[Hrows Hlast] | (fm & name & loc & Hfam & Hgate & Hnow & Hrows)].
    + etransitivity.
      * apply IH; [intros q Hq; apply Hwindow; right; exact Hq |].
        intros q fm Hq. apply Hnd. right. exact Hq.
      * unfold movedRowsFor. rewrite Hrows. lia.
    + unfold movedRowsFor. rewrite quiet_run.
      * rewrite Hrows, List.filter_app, length_app.
        apply Nat.add_le_mono_l. apply batch_at_most_one.
        apply (Hnd p fm (or_introl eq_refl) Hfam).
      * intros q Hq. rewrite Hnow.
        pose proof (Hwindow p (or_introl eq_refl)).
        pose proof (Hwindow q (or_intror Hq)). lia.
Qed.

(** A batch holds, for a recipient, at most as many rows as the family
    list has entries of that recipient. *)
Lemma batch_at_most_entries storage userId userName location recipient
    (familyMembers : list User) :
  (length
     (List.filter (fun n => Z.eqb (n_userId n) recipient)
        (List.filter (accepted storage)
           (map (movedRow userId userName location) familyMembers)))
   <= length
        (List.filter (fun member => Z.eqb (user_id member) recipient)
           familyMembers))%nat.
Proof.
  induction familyMembers as [| familyMember rest IH]; [simpl; lia |].
  cbn [map List.filter].
  destruct (accepted storage _); cbn [List.filter n_userId movedRow];
    destruct (user_id familyMember =? recipient); simpl; lia.
Qed.

(** Of the pings of a span of five minutes at most one announces. *)
Lemma window_batch userId lo pings :
  (forall p, In p pings -> lo <= ping_time p <= lo + 5 * 60 * 1000) ->
  forall w,
    movedRows userId (ingestAll userId pings w) = movedRows userId w \/
    exists p familyMembers userName location,
      In p pings /\
      getFamilyMembers (ping_storage p) userId = Resolved familyMembers /\
      movedRows userId (ingestAll userId pings w) =
        movedRows userId w ++
        List.filter (accepted (ping_storage p))
          (map (movedRow userId userName location) familyMembers).
Proof.
  induction pings as [| p rest IH]; intros Hwindow w; [left; reflexivity |].
  rewrite ingestAll_cons.
  destruct (ingestPing_cases userId p w)
    as [[Hrows Hlast] | (fm & name & loc & Hfam & Hgate & Hnow & Hrows)].
  - destruct (IH (fun q Hq => Hwindow q (or_intror Hq)) (ingestPing userId p w))
      as [Hquiet | (q & fm & name & loc & Hq & Hfam & Hbatch)].
    + left. rewrite Hquiet. exact Hrows.
    + right. exists q, fm, name, loc. split; [right; exact Hq |].
      split; [exact Hfam |]. rewrite Hbatch, Hrows. reflexivity.
  - right. exists p, fm, name, loc. split; [left; reflexivity |].
    split; [exact Hfam |]. rewrite quiet_run; [exact Hrows |].
    intros q Hq. rewrite Hnow.
    pose proof (Hwindow p (or_introl eq_refl)).
    pose proof (Hwindow q (or_intror Hq)). lia.
Qed.

Lemma window_entries userId recipient lo pings (k : nat) :
  (forall p, In p pings -> lo <= ping_time p <= lo + 5 * 60 * 1000) ->
  (forall p familyMembers,
      In p pings ->
      getFamilyMembers (ping_storage p) userId = Resolved familyMembers ->
      (length (List.filter (fun member => Z.eqb (user_id member) recipient)
                 familyMembers) <= k)%nat) ->
  forall w,
    (length (movedRowsFor userId recipient (ingestAll userId pings w))
     <= length (movedRowsFor userId recipient w) + k)%nat.
Proof.
  intros Hwindow Hentries w. unfold movedRowsFor.
  destruct (window_batch userId lo pings Hwindow w)
    as [-> | (p & fm & name & loc & Hp & Hfam & ->)]; [lia |].
  rewrite List.filter_app, length_app.
  pose proof (batch_at_most_entries (ping_storage p) userId name loc recipient
                fm).
  pose proof (Hentries p fm Hp Hfam). lia.
Qed.

Lemma lastNotificationTimeOf_absent w userId :
  lastLocationNotification w = None \/
  (exists tracking,
      lastLocationNotification w = Some tracking /\
      tracking !! toString userId = None) ->
  lastNotificationTimeOf w userId = 0.
Proof.
  unfold lastNotificationTimeOf.
  intros [-> | (tracking & -> & ->)]; reflexivity.
Qed.

(** C4, as the code has it. For a ping whose row is saved and whose mover
    and family are read, "moved" notifications are created for the family
    members exactly when strictly more than five minutes have passed
    since the last announcement of the mover (a missing record reads as
    time 0) and the family is not empty; a row is created for each member
    whose row the storage accepts. Exactly then the record of the mover
    is set to the current time. Consequently, of the pings of one mover
    handled one after the other within a span of five minutes, at most
    one creates "moved" notifications, one for each entry of its family
    list that the storage accepts: a recipient gets at most as many as
    the recipient has entries in the family list, so at most one when
    the family members have distinct ids. *)
Theorem moved_notifications_throttled :
  (forall w userId (familyMembers : list User),
      throttleGate w userId familyMembers = true <->
      5 * 60 * 1000 < clock w - lastNotificationTimeOf w userId /\
      familyMembers <> []) /\
  (forall w userId,
      lastLocationNotification w = None \/
      (exists tracking,
          lastLocationNotification w = Some tracking /\
          tracking !! toString userId = None) ->
      lastNotificationTimeOf w userId = 0) /\
  (forall storage userId locationData location user familyMembers w,
      saveLocation storage locationData = Resolved location ->
      getUser storage userId = Resolved user ->
      getFamilyMembers storage userId = Resolved familyMembers ->
      let w' := snd (postLocations storage userId (Resolved locationData) w) in
      if throttleGate w userId familyMembers then
        movedRows userId w' =
          movedRows userId w ++
          List.filter (accepted storage)
            (map (movedRow userId (userNameOf user) location) familyMembers) /\
        lastNotificationTimeOf w' userId = clock w
      else
        movedRows userId w' = movedRows userId w /\
        lastLocationNotification w' = lastLocationNotification w) /\
  (forall userId recipient lo pings w,
      (forall p, In p pings -> lo <= ping_time p <= lo + 5 * 60 * 1000) ->
      (forall p familyMembers,
          In p pings ->
          getFamilyMembers (ping_storage p) userId = Resolved familyMembers ->
          NoDup (map user_id familyMembers)) ->
      (length (movedRowsFor userId recipient (ingestAll userId pings w))
       <= length (movedRowsFor userId recipient w) + 1)%nat) /\
  (forall userId lo pings w,
      (forall p, In p pings -> lo <= ping_time p <= lo + 5 * 60 * 1000) ->
      movedRows userId (ingestAll userId pings w) = movedRows userId w \/
      exists p familyMembers userName location,
        In p pings /\
        getFamilyMembers (ping_storage p) userId = Resolved familyMembers /\
        movedRows userId (ingestAll userId pings w) =
          movedRows userId w ++
          List.filter (accepted (ping_storage p))
            (map (movedRow userId userName location) familyMembers)) /\
  (forall userId recipient lo pings (k : nat) w,
      (forall p, In p pings -> lo <= ping_time p <= lo + 5 * 60 * 1000) ->
      (forall p familyMembers,
          In p pings ->
          getFamilyMembers (ping_storage p) userId = Resolved familyMembers ->
          (length (List.filter (fun member => Z.eqb (user_id member) recipient)
                     familyMembers) <= k)%nat) ->
      (length (movedRowsFor userId recipient (ingestAll userId pings w))
       <= length (movedRowsFor userId recipient w) + k)%nat).
Proof.
  split; [exact throttleGate_spec |].
  split; [exact lastNotificationTimeOf_absent |].
  split.
  - intros storage userId locationData location user familyMembers w
      Hsave Huser Hfam w'.
    destruct (postLocations_moved storage userId locationData location user
                familyMembers w Hsave Huser Hfam) as [Hrows Hlast].
    fold w' in Hrows, Hlast.
    destruct (throttleGate w userId familyMembers).
    + split; [exact Hrows |].
      unfold lastNotificationTimeOf. rewrite Hlast, lookup_insert_eq.
      reflexivity.
    + rewrite app_nil_r in Hrows. auto.
  - split; [| split].
    + intros userId recipient lo pings w Hwindow Hnd.
      apply (window_run userId recipient lo pings Hwindow Hnd).
    + intros userId lo pings w Hwindow.
      apply (window_batch userId lo pings Hwindow).
    + intros userId recipient lo pings k w Hwindow Hentries.
      apply (window_entries userId recipient lo pings k Hwindow Hentries).
Qed.

Lemma moved_notifications_throttled_witness :
  movedRows 1
    (snd (postLocations (sampleStorage [] [john] [] None) 1
            (Resolved samplePing) (freshWorld 1000000)))
  = [movedRow 1 "Jane"
       (mkLocation 100 1 0 0 None None "manual" (Some 0)) john].
Proof.
  destruct moved_notifications_throttled as (_ & _ & Hping & _).
  specialize (Hping (sampleStorage [] [john] [] None) 1 samplePing
                (mkLocation 100 1 0 0 None None "manual" (Some 0))
                (Some jane) [john] (freshWorld 1000000)
                eq_refl eq_refl eq_refl).
  exact (proj1 Hping).
Defined.

(** C4 as written fails at the boundary: exactly five minutes after the
    last announcement, with a family member to notify, no "moved"
    notification is created and the record is not set to the current
    time. *)
Lemma exactly_five_minutes_is_throttled :
  let w := announcedAt 1000000 1300000 in
  let w' := snd (postLocations (sampleStorage [] [john] [] None) 1
                   (Resolved samplePing) w) in
  clock w - lastNotificationTimeOf w 1 >= 5 * 60 * 1000 /\
  [john] <> [] /\
  movedRows 1 w' = [] /\
  lastNotificationTimeOf w' 1 = 1000000 /\
  lastNotificationTimeOf w' 1 <> clock w.
Proof.
  intros w w'.
  assert (Hlast : lastNotificationTimeOf w 1 = 1000000).
  { unfold lastNotificationTimeOf, w, announcedAt. simpl.
    rewrite lookup_singleton_eq. reflexivity. }
  assert (Hgate : throttleGate w 1 [john] = false).
  { unfold throttleGate, shouldCreateNotification. rewrite Hlast.
    reflexivity. }
  destruct (postLocations_moved (sampleStorage [] [john] [] None) 1
              samplePing (mkLocation 100 1 0 0 None None "manual" (Some 0))
              (Some jane) [john] w eq_refl eq_refl eq_refl) as [Hrows Hkept].
  fold w' in Hrows, Hkept. rewrite Hgate in Hrows, Hkept.
  rewrite (lastNotificationTimeOf_same _ _ _ Hkept), Hlast.
  split; [subst w; simpl; lia |].
  split; [discriminate |].
  split; [exact Hrows |].
  split; [reflexivity |]. subst w. simpl. lia.
Qed.

(** A family member listed twice (two connection rows to the same
    user) gets two "moved" rows from one ping. *)
Lemma member_listed_twice_gets_two_rows :
  let w' := snd (postLocations (sampleStorage [] [bob; john; bob] [] None) 1
                   (Resolved samplePing) (freshWorld 1000000)) in
  length (movedRowsFor 1 3 w') = 2%nat /\
  length (movedRowsFor 1 2 w') = 1%nat.
Proof.
  intros w'.
  destruct (postLocations_moved (sampleStorage [] [bob; john; bob] [] None) 1
              samplePing (mkLocation 100 1 0 0 None None "manual" (Some 0))
              (Some jane) [bob; john; bob] (freshWorld 1000000)
              eq_refl eq_refl eq_refl) as [Hrows _].
  fold w' in Hrows. unfold movedRowsFor. rewrite Hrows.
  split; reflexivity.
Qed.

(** ** The broadcast (C8) *)

Lemma forOf_cons_run {A} (x : A) (rest : list A) (body : A -> M unit) w :
  resolves (body x) ->
  forOf (x :: rest) body w = forOf rest body (snd (body x w)).
Proof.
  intros Hres. cbn [forOf]. unfold bind.
  rewrite (resolves_run _ Hres w). reflexivity.
Qed.

Lemma broadcast_loop (n : Payload) (w : World) (registry : list (string * Z)) :
  forall w1,
  exists w',
    forOf registry
      (fun entry =>
         if isOpen (readyState w (snd entry))
         then send (snd entry) (broadcastFrame n)
         else ret tt) w1 = (Resolved tt, w') /\
    wire w' =
      wire w1 ++
      map (fun entry => (snd entry, broadcastFrame n))
        (List.filter (fun entry => isOpen (readyState w (snd entry)))
           registry) /\
    notificationRows w' = notificationRows w1 /\
    console w' = console w1 /\
    userGeofenceStates w' = userGeofenceStates w1.
Proof.
  induction registry as [| [key client] rest IH]; intros w1.
  - exists w1. simpl. rewrite app_nil_r. auto.
  - rewrite forOf_cons_run.
    2:{ cbn [snd]. destruct (isOpen (readyState w client));
          [apply resolves_modify | apply resolves_ret]. }
    cbn [snd List.filter map].
    destruct (isOpen (readyState w client)).
    + destruct (IH (add_wire client (broadcastFrame n) w1))
        as (w' & Hrun & Hwire & Hrows & Hcon & Hst).
      exists w'. split; [exact Hrun |].
      rewrite Hwire, Hrows, Hcon, Hst. simpl. rewrite <- app_assoc. auto.
    + destruct (IH w1) as (w' & Hrun & Hrest). exists w'. auto.
Qed.

Lemma broadcastNotification_run (n : Payload) (w : World) :
  exists w',
    broadcastNotification n w = (Resolved tt, w') /\
    wire w' = wire w ++ broadcastFrames n w /\
    notificationRows w' = notificationRows w /\
    console w' = console w /\
    userGeofenceStates w' = userGeofenceStates w.
Proof.
  unfold broadcastNotification, broadcastFrames, bind, get.
  apply broadcast_loop.
Qed.


(** ** The geofence fan-out (C5, C2) *)

Section FanOutFacts.

Variable storage : Storage.

Lemma notificationRows_add_rows rows :
  forall w,
    notificationRows (add_notificationRows rows w) = notificationRows w ++ rows.
Proof.
  induction rows as [| n rest IH]; intros w.
  - simpl. rewrite app_nil_r. reflexivity.
  - simpl. rewrite IH. simpl. rewrite <- app_assoc. reflexivity.
Qed.

Lemma create_all (A : Type) (row : A -> InsertNotification) (xs : list A) :
  Forall (fun x => accepted storage (row x) = true) xs ->
  forall w,
    forOf xs (fun x => createNotificationM storage (row x)) w
      = (Resolved tt, add_notificationRows (map row xs) w).
Proof.
  induction 1 as [| x rest Hx _ IH]; intros w.
  - reflexivity.
  - cbn [forOf]. unfold bind, createNotificationM at 1.
    unfold accepted in Hx.
    destruct (createNotification storage (row x)); [| discriminate].
    rewrite IH. reflexivity.
Qed.

(** When the mover is found, the family is read and every row is
    accepted, the fan-out creates one row per family member, then the row
    of the mover, then broadcasts. *)
Lemma sendGeofenceNotification_success userId user familyMembers place action w :
  getUser storage userId = Resolved (Some user) ->
  getFamilyMembers storage userId = Resolved familyMembers ->
  Forall (fun familyMember =>
            accepted storage (familyRow userId user place action familyMember)
              = true) familyMembers ->
  accepted storage (selfRow userId place action) = true ->
  sendGeofenceNotification storage userId place action w =
    broadcastIfInstalled (alertPayload userId user place action (clock w))
      (add_notificationRows
         (map (familyRow userId user place action) familyMembers
            ++ [selfRow userId place action]) w).
Proof.
  intros Huser Hfam Hall Hself.
  unfold sendGeofenceNotification, tryCatch.
  unfold bind at 1, await. rewrite Huser. cbv zeta.
  unfold bind at 1. rewrite Hfam.
  unfold bind at 1.
  pose proof (create_all User (familyRow userId user place action)
                familyMembers Hall w) as Hcreated.
  unfold familyRow at 1 in Hcreated. rewrite Hcreated. clear Hcreated.
  unfold bind at 1, createNotificationM.
  assert (Hact : (match action with
                  | entered => "entered"
                  | exited => "exited"
                  end) = actionString action) by (destruct action; reflexivity).
  rewrite Hact. fold (selfRow userId place action).
  unfold accepted in Hself.
  destruct (createNotification storage (selfRow userId place action));
    [| discriminate].
  unfold bind, get.
  set (w2 := add_notificationRow _ _).
  assert (Hw2 : w2 = add_notificationRows
                       (map (familyRow userId user place action) familyMembers
                          ++ [selfRow userId place action]) w).
  { subst w2. unfold add_notificationRows. rewrite fold_left_app.
    reflexivity. }
  assert (Hclock : clock w2 = clock w).
  { rewrite Hw2. clear.
    generalize (map (familyRow userId user place action) familyMembers
                  ++ [selfRow userId place action]) as rows.
    intros rows. revert w.
    induction rows as [| n rest IH]; intros w; [reflexivity |].
    simpl. rewrite IH. reflexivity. }
  rewrite Hclock, <- Hw2.
  fold (alertPayload userId user place action (clock w)).
  rewrite (resolves_run _ (broadcastIfInstalled_resolves _) w2).
  reflexivity.
Qed.

Lemma broadcastIfInstalled_rows n w :
  notificationRows (snd (broadcastIfInstalled n w)) = notificationRows w.
Proof.
  apply (broadcastIfInstalled_keeps (same notificationRows)).
  intros; reflexivity.
Qed.

Lemma forOf_app {A} (xs ys : list A) (body : A -> M unit) w :
  forOf (xs ++ ys) body w = (forOf xs body ;; forOf ys body) w.
Proof.
  revert w. induction xs as [| x rest IH]; intros w.
  - reflexivity.
  - cbn [app forOf]. unfold bind.
    destruct (body x w) as [[[] |] w1]; [| reflexivity].
    rewrite IH. reflexivity.
Qed.

(** The first rejected row ends the fan-out: the members after it, the
    mover and the connections get nothing. *)
Lemma fanout_stops_at_rejected_row userId user before familyMember after
    place action w :
  getUser storage userId = Resolved (Some user) ->
  getFamilyMembers storage userId = Resolved (before ++ familyMember :: after) ->
  Forall (fun member =>
            accepted storage (familyRow userId user place action member)
              = true) before ->
  accepted storage (familyRow userId user place action familyMember) = false ->
  sendGeofenceNotification storage userId place action w =
    (Resolved tt,
     add_console LogErrorSending
       (add_notificationRows
          (map (familyRow userId user place action) before) w)).
Proof.
  intros Huser Hfam Hbefore Hrejected.
  unfold sendGeofenceNotification, tryCatch.
  unfold bind at 1, await. rewrite Huser. cbv zeta.
  unfold bind at 1. rewrite Hfam.
  unfold bind at 1. rewrite forOf_app. unfold bind at 1.
  pose proof (create_all User (familyRow userId user place action)
                before Hbefore w) as Hcreated.
  unfold familyRow at 1 in Hcreated. rewrite Hcreated. clear Hcreated.
  cbn [forOf]. unfold bind at 1, createNotificationM at 1.
  unfold accepted, familyRow in Hrejected.
  destruct (createNotification storage _); [discriminate |].
  reflexivity.
Qed.

End FanOutFacts.

Lemma displayName_firstName user name :
  user_firstName user = Some name -> name <> EmptyString -> displayName user = name.
Proof.
  intros Hfirst Hne. unfold displayName. rewrite Hfirst.
  destruct (String.eqb_spec name EmptyString); [contradiction | reflexivity].
Qed.

Lemma displayName_email user :
  user_firstName user = None -> displayName user = user_email user.
Proof. intros Hfirst. unfold displayName. rewrite Hfirst. reflexivity. Qed.

(** C5. When a mover with exactly one family member enters a place named
    "Home" (the mover is found and both rows are accepted), exactly two
    notification rows are created, in this order: one for the family
    member, of type [geofence_entered], titled "Location Alert", saying
    "<name> has entered Home", and one for the mover saying
    "You entered Home". The name is the first name of the mover when
    there is one, the email otherwise. *)
Theorem entering_home_creates_two_rows :
  forall storage userId user familyMember place w,
    place_name place = "Home" ->
    getUser storage userId = Resolved (Some user) ->
    getFamilyMembers storage userId = Resolved [familyMember] ->
    (forall n, createNotification storage n = Resolved tt) ->
    notificationRows
      (snd (sendGeofenceNotification storage userId place entered w))
    = notificationRows w ++
      [ {| n_userId := user_id familyMember;
           n_type := "geofence_entered";
           n_title := "Location Alert";
           n_message := displayName user +:+ " has entered Home";
           n_data := GeofenceData (Some userId) (place_id place) "Home" entered;
           n_isRead := false |};
        {| n_userId := userId;
           n_type := "geofence_entered";
           n_title := "Location Alert";
           n_message := "You entered Home";
           n_data := GeofenceData None (place_id place) "Home" entered;
           n_isRead := false |} ] /\
    (forall name, user_firstName user = Some name -> name <> EmptyString ->
                  displayName user = name) /\
    (user_firstName user = None -> displayName user = user_email user).
Proof.
  intros storage userId user familyMember place w Hname Huser Hfam Hcreate.
  split; [| split;
            [intros name; apply displayName_firstName
            | apply displayName_email]].
  rewrite (sendGeofenceNotification_success storage userId user
             [familyMember] place entered w Huser Hfam).
  - rewrite broadcastIfInstalled_rows, notificationRows_add_rows.
    unfold familyRow, selfRow. simpl. rewrite Hname. reflexivity.
  - constructor; [| constructor]. unfold accepted. rewrite Hcreate.
    reflexivity.
  - unfold accepted. rewrite Hcreate. reflexivity.
Qed.

Lemma entering_home_creates_two_rows_witness :
  map n_message
    (notificationRows
       (snd (sendGeofenceNotification (sampleStorage [home] [john] [] None)
               1 home entered (freshWorld 0))))
  = ["Jane has entered Home"; "You entered Home"].
Proof.
  rewrite (proj1 (entering_home_creates_two_rows
                    (sampleStorage [home] [john] [] None) 1 jane john home
                    (freshWorld 0) eq_refl eq_refl eq_refl
                    (fun n => eq_refl))).
  reflexivity.
Defined.

(** C2, as the code runs. Mover 1 has the family members 2 and 3 and
    enters [home]; the storage rejects the row of member 2. The failure
    is caught and logged, but it ends the fan-out: no row is created for
    member 3, none for the mover, and nothing is broadcast to the open
    connection. With no rejection the same call creates three rows and
    broadcasts one frame. The loop of the "moved" notifications, run in
    the same situation, does isolate the failure: member 3 gets a row
    and the broadcast happens. *)
Theorem geofence_fanout_aborts_on_first_failure :
  let failing := sampleStorage [home] [john; bob] [2] None in
  let working := sampleStorage [home] [john; bob] [] None in
  let location := mkLocation 100 1 0 0 None None "manual" (Some 0) in
  let geofence := sendGeofenceNotification failing 1 home entered connectedWorld in
  let reference := sendGeofenceNotification working 1 home entered connectedWorld in
  let moved := notifyMoved failing 1 "Jane" location [john; bob] connectedWorld in
  (fst geofence = Resolved tt /\
   notificationRows (snd geofence) = [] /\
   wire (snd geofence) = [] /\
   console (snd geofence) = [LogErrorSending]) /\
  (map n_userId (notificationRows (snd reference)) = [2; 3; 1] /\
   map fst (wire (snd reference)) = [30]) /\
  (map n_userId (notificationRows (snd moved)) = [3] /\
   map fst (wire (snd moved)) = [30] /\
   console (snd moved) =
     [LogFailedLocationNotification 2; LogCreatedLocationNotification 3]).
Proof.
  cbv zeta. repeat split; reflexivity.
Qed.

(** ** A failing check (C7) *)

Lemma check_effect storage userId lat lon w :
  let run := checkGeofenceTransitions storage userId lat lon w in
  fst run = Resolved tt /\
  transitionsOn (snd run) =
    transitionsOn w
      ++ fst (checkEffect storage userId lat lon (userGeofenceStates w)) /\
  userGeofenceStates (snd run) =
    snd (checkEffect storage userId lat lon (userGeofenceStates w)).
Proof.
  intros run. subst run. unfold checkEffect.
  destruct (getFamilyPlaces storage userId) as [[[| place rest] |] |] eqn:Hfetch.
  - rewrite check_noop by (right; assumption). cbn [fst snd].
    rewrite app_nil_r. auto.
  - destruct (check_run storage userId lat lon w (place :: rest) Hfetch)
      as (w1 & Hrun & Htr & Hst); [discriminate |].
    rewrite Hrun. cbn [fst snd]. split; [reflexivity |]. split.
    + exact Htr.
    + simpl. rewrite Hst. reflexivity.
  - rewrite check_noop by (left; assumption). cbn [fst snd].
    rewrite app_nil_r. auto.
  - rewrite check_rejected by assumption. cbn [fst snd].
    rewrite transitionsOn_add_console, app_nil_r. auto.
Qed.

Lemma notifyMoved_keeps_states storage userId userName location familyMembers w :
  userGeofenceStates
    (snd (notifyMoved storage userId userName location familyMembers w))
  = userGeofenceStates w.
Proof.
  apply (notifyMoved_keeps storage (same userGeofenceStates));
    intros; reflexivity.
Qed.

Lemma notifyMoved_keeps_transitions storage userId userName location
    familyMembers w :
  transitionsOn
    (snd (notifyMoved storage userId userName location familyMembers w))
  = transitionsOn w.
Proof.
  apply (notifyMoved_keeps storage (same transitionsOn)).
  - intros; reflexivity.
  - intros; reflexivity.
  - intros l w0 Hl. unfold same. rewrite transitionsOn_add_console.
    destruct l; try discriminate; apply app_nil_r.
Qed.

(** A ping whose place query fails is answered like any other, and the
    tracker is as it was. *)
Lemma postLocations_places_down storage userId locationData location user
    familyMembers w :
  getFamilyPlaces storage userId = Rejected ->
  saveLocation storage locationData = Resolved location ->
  getUser storage userId = Resolved user ->
  getFamilyMembers storage userId = Resolved familyMembers ->
  let run := postLocations storage userId (Resolved locationData) w in
  fst run = Resolved (Json location) /\
  userGeofenceStates (snd run) = userGeofenceStates w /\
  transitionsOn (snd run) = transitionsOn w.
Proof.
  intros Hplaces Hsave Huser Hfam run. subst run.
  rewrite (postLocations_run storage userId locationData location user
             familyMembers w Hsave Huser Hfam).
  cbn [fst snd]. split; [reflexivity |].
  rewrite (broadcastLocationUpdate_keeps storage (same userGeofenceStates))
    by (intros; reflexivity).
  rewrite (broadcastLocationUpdate_keeps storage (same transitionsOn))
    by (intros; reflexivity).
  rewrite check_rejected by assumption.
  cbn [snd]. rewrite transitionsOn_add_console, app_nil_r.
  change (userGeofenceStates (add_console LogErrorChecking ?x))
    with (userGeofenceStates x).
  destruct (_ && _).
  - rewrite notifyMoved_keeps_states, notifyMoved_keeps_transitions.
    auto.
  - auto.
Qed.

(** ** History compaction (C6) *)

Lemma minSpacing_value : minSpacing = 45 * 60 * 1000.
Proof. reflexivity. Qed.

Lemma hourlyFilterFrom_keepSpaced now locations :
  Forall (fun l => locationTime now l <> 0) locations ->
  forall lastIncludedTime,
    lastIncludedTime <> 0 ->
    hourlyFilterFrom now lastIncludedTime locations =
    keepSpaced now lastIncludedTime locations.
Proof.
  induction 1 as [| location rest Hloc _ IH]; intros lastIncludedTime Hlast.
  - reflexivity.
  - cbn [hourlyFilterFrom keepSpaced]. rewrite minSpacing_value.
    destruct (Z.eqb_spec lastIncludedTime 0) as [| _]; [contradiction |].
    cbn [orb].
    destruct (45 * 60 * 1000 <=? Z.abs (locationTime now location - lastIncludedTime)).
    + rewrite IH by assumption. reflexivity.
    + apply IH. assumption.
Qed.

Lemma hourlyFilter_compactSpec now locations :
  Forall (fun l => locationTime now l <> 0) locations ->
  hourlyFilter now locations = compactSpec now locations.
Proof.
  intros Hall. unfold hourlyFilter, compactSpec.
  destruct Hall as [| first rest Hfirst Hrest]; [reflexivity |].
  cbn [hourlyFilterFrom]. cbn [Z.eqb orb].
  rewrite hourlyFilterFrom_keepSpaced by assumption. reflexivity.
Qed.

Lemma hourlyFilterFrom_sublist now locations :
  forall lastIncludedTime,
    sublist (hourlyFilterFrom now lastIncludedTime locations) locations.
Proof.
  induction locations as [| location rest IH]; intros lastIncludedTime.
  - constructor.
  - cbn [hourlyFilterFrom].
    destruct (_ || _); [apply sublist_skip | apply sublist_cons]; apply IH.
Qed.

(** C6. On a member's list whose timestamps are all different from the
    epoch instant 0 (the rows of the query lie in the last 24 hours), the
    hourly filter keeps the first entry and then each entry exactly when
    it lies at least 45 minutes from the last kept one, which it then
    replaces; this holds for the list of every member of the query
    result, and the kept entries keep their order. The timestamps
    100, 50, 40, 10, 0 (minutes), fed in this order, give 100, 50, 0,
    also when read as minutes before the current time. *)
Theorem hourly_filter_keeps_spaced_entries :
  (forall now locations,
      Forall (fun l => locationTime now l <> 0) locations ->
      hourlyFilter now locations = compactSpec now locations) /\
  (forall now result member,
      Forall (fun l => locationTime now l <> 0) result ->
      familyLocationHistory now result member =
      compactSpec now (locationsOf member result)) /\
  (forall now locations, sublist (hourlyFilter now locations) locations) /\
  (forall now,
      hourlyFilter now (map pingAt (map minutes [100; 50; 40; 10; 0]))
      = map pingAt (map minutes [100; 50; 0])) /\
  (forall now,
      minutes 100 < now ->
      hourlyFilter now
        (map (fun ago => pingAt (now - minutes ago)) [100; 50; 40; 10; 0])
      = map (fun ago => pingAt (now - minutes ago)) [100; 50; 0]).
Proof.
  split; [exact hourlyFilter_compactSpec |].
  split.
  { intros now result member Hall. unfold familyLocationHistory.
    apply hourlyFilter_compactSpec. unfold locationsOf.
    rewrite List.Forall_forall in *. intros l Hin.
    apply filter_In in Hin as [Hin _]. apply Hall. exact Hin. }
  split; [intros now locations; apply hourlyFilterFrom_sublist |].
  split; [intros now; reflexivity |].
  intros now Hnow. unfold minutes in *.
  rewrite hourlyFilter_compactSpec.
  - cbn [map compactSpec keepSpaced pingAt locationTime loc_timestamp].
    repeat match goal with
           | |- context [?a <=? ?b] =>
               destruct (Z.leb_spec a b); try lia
           end.
    reflexivity.
  - repeat constructor; cbn [pingAt locationTime loc_timestamp]; lia.
Qed.

Lemma hourly_filter_keeps_spaced_entries_witness :
  hourlyFilter 0 (map pingAt (map minutes [200; 190; 100]))
  = compactSpec 0 (map pingAt (map minutes [200; 190; 100])).
Proof.
  apply (proj1 hourly_filter_keeps_spaced_entries).
  repeat constructor; discriminate.
Defined.

(** ** Periodic re-logging (C10) *)

Lemma logUserLocation_resolves storage userId :
  resolves (logUserLocation storage userId).
Proof. unfold logUserLocation, consoleLog. repeat step_resolves. Qed.

Lemma tooOld_false now latestLocation :
  tooOld now latestLocation = false <->
  now - 2 * (60 * 60 * 1000) <= default 0 (loc_timestamp latestLocation).
Proof.
  unfold tooOld, HOUR_IN_MS. rewrite Z.ltb_ge. reflexivity.
Qed.

Lemma logUserLocation_rows storage userId w :
  locationRows (snd (logUserLocation storage userId w)) =
  locationRows w ++
  match getUser storage userId with
  | Resolved (Some user) =>
      if historyEnabled user then
        match getUserLatestLocation storage userId with
        | Resolved (Some latestLocation) =>
            if tooOld (clock w) latestLocation then []
            else
              match saveLocation storage (relogged userId latestLocation) with
              | Resolved _ => [relogged userId latestLocation]
              | Rejected => []
              end
        | _ => []
        end
      else []
  | _ => []
  end.
Proof.
  unfold logUserLocation, tryCatch, bind at 1, await.
  destruct (getUser storage userId) as [[user |] |];
    try (simpl; rewrite app_nil_r; reflexivity).
  destruct (historyEnabled user); cbn [negb];
    [| simpl; rewrite app_nil_r; reflexivity].
  unfold bind at 1.
  destruct (getUserLatestLocation storage userId)
    as [[latestLocation |] |];
    try (simpl; rewrite app_nil_r; reflexivity).
  unfold bind at 1, get.
  destruct (tooOld (clock w) latestLocation);
    [simpl; rewrite app_nil_r; reflexivity |].
  unfold bind, saveLocationM. fold (relogged userId latestLocation).
  destruct (saveLocation storage (relogged userId latestLocation));
    simpl; [reflexivity | rewrite app_nil_r; reflexivity].
Qed.

(** C10. One run of the periodic re-logging never rejects. It inserts a
    ping exactly when the user exists with location history enabled, a
    latest ping exists, and the timestamp of that ping is not older than
    two hours; the inserted ping has the type [automatic_hourly] and the
    latitude, longitude, accuracy and address of the latest ping. In
    every other case nothing is inserted. (The insertion itself is taken
    not to fail.) *)
Theorem relogging_copies_recent_ping :
  forall storage userId w,
    let w' := snd (logUserLocation storage userId w) in
    fst (logUserLocation storage userId w) = Resolved tt /\
    (forall latestLocation,
        relogCondition storage userId (clock w) latestLocation ->
        saveLocation storage (relogged userId latestLocation) <> Rejected ->
        locationRows w' =
          locationRows w ++
          [ {| il_userId := userId;
               il_latitude := loc_latitude latestLocation;
               il_longitude := loc_longitude latestLocation;
               il_accuracy := loc_accuracy latestLocation;
               il_address := loc_address latestLocation;
               il_type := "automatic_hourly" |} ]) /\
    ((forall latestLocation,
         ~ relogCondition storage userId (clock w) latestLocation) ->
     locationRows w' = locationRows w).
Proof.
  intros storage userId w w'. subst w'. split; [| split].
  - pose proof (resolves_run _ (logUserLocation_resolves storage userId) w)
      as Hrun.
    rewrite Hrun. reflexivity.
  - intros latestLocation (user & Huser & Henabled & Hlatest & Hrecent) Hsave.
    rewrite logUserLocation_rows, Huser.
    unfold historyEnabled. rewrite Henabled, Hlatest.
    apply tooOld_false in Hrecent. rewrite Hrecent.
    destruct (saveLocation storage (relogged userId latestLocation));
      [reflexivity | contradiction].
  - intros Hnone. rewrite logUserLocation_rows.
    destruct (getUser storage userId) as [[user |] |] eqn:Huser;
      try apply app_nil_r.
    unfold historyEnabled.
    destruct (user_locationHistoryEnabled user) as [[|] |] eqn:Henabled;
      try apply app_nil_r.
    destruct (getUserLatestLocation storage userId)
      as [[latestLocation |] |] eqn:Hlatest; try apply app_nil_r.
    destruct (tooOld (clock w) latestLocation) eqn:Hold;
      [apply app_nil_r |].
    exfalso. apply (Hnone latestLocation). exists user.
    apply tooOld_false in Hold. auto.
Qed.

Lemma relogging_copies_recent_ping_witness :
  locationRows
    (snd (logUserLocation (sampleStorage [] [] [] (Some (latestAt 5000000)))
            1 (freshWorld 9000000)))
  = [relogged 1 (latestAt 5000000)].
Proof.
  apply (proj1 (proj2 (relogging_copies_recent_ping
                         (sampleStorage [] [] [] (Some (latestAt 5000000)))
                         1 (freshWorld 9000000))) (latestAt 5000000)).
  - exists jane. repeat split; simpl; lia.
  - discriminate.
Defined.

(** ** The mover's own notifications along a sequence of checks (C1) *)

Lemma selfActions_app userId placeId (rows1 rows2 : list InsertNotification) :
  selfActions userId placeId (rows1 ++ rows2) =
  selfActions userId placeId rows1 ++ selfActions userId placeId rows2.
Proof. unfold selfActions. apply omap_app. Qed.

Lemma selfActions_familyRows userId placeId mover user place action
    (familyMembers : list User) :
  selfActions userId placeId
    (map (familyRow mover user place action) familyMembers) = [].
Proof.
  induction familyMembers as [| familyMember rest IH]; [reflexivity |].
  exact IH.
Qed.

(** The checks of another mover create no row of this kind. *)
Lemma other_mover_keeps_selfActions storage userId placeId mover lat lon w :
  mover <> userId ->
  selfActionsOn userId placeId
    (snd (checkGeofenceTransitions storage mover lat lon w))
  = selfActionsOn userId placeId w.
Proof.
  intros Hother.
  apply (checkGeofenceTransitions_keeps storage mover
           (same (selfActionsOn userId placeId))); try (intros; reflexivity).
  intros n w0 Hrow. unfold same, selfActionsOn. simpl.
  rewrite selfActions_app. unfold selfActions at 2. simpl.
  unfold rowOfMover in Hrow.
  destruct (n_data n) as [[triggeredBy |] pid name action |];
    try apply app_nil_r.
  apply Z.eqb_eq in Hrow. rewrite Hrow.
  destruct (Z.eqb_spec mover userId); [contradiction |]. apply app_nil_r.
Qed.

Section OwnRows.

Variable storage : Storage.
Variables userId placeId : Z.
Hypothesis Huser : exists user, getUser storage userId = Resolved (Some user).
Hypothesis Hfamily :
  exists familyMembers, getFamilyMembers storage userId = Resolved familyMembers.
Hypothesis Haccepted : forall n, accepted storage n = true.

Lemma dispatch_self_row place action w :
  selfActionsOn userId placeId
    (snd (sendGeofenceNotification storage userId place action w))
  = selfActionsOn userId placeId w ++
    (if Z.eqb (place_id place) placeId then [action] else []).
Proof.
  destruct Huser as [user Hu]. destruct Hfamily as [familyMembers Hf].
  rewrite (sendGeofenceNotification_success storage userId user familyMembers
             place action w Hu Hf).
  - unfold selfActionsOn.
    rewrite broadcastIfInstalled_rows, notificationRows_add_rows.
    rewrite !selfActions_app, selfActions_familyRows. simpl.
    unfold selfActions. simpl. rewrite Z.eqb_refl. simpl.
    destruct (place_id place =? placeId); reflexivity.
  - apply Forall_forall. intros familyMember _. apply Haccepted.
  - apply Haccepted.
Qed.

Lemma checkPlaces_self_rows lat lon previous places :
  forall newGeofences w,
    selfActionsOn userId placeId
      (snd (checkPlaces storage userId lat lon previous places newGeofences w))
    = selfActionsOn userId placeId w ++
      actionsAt userId placeId (detected userId previous lat lon places).
Proof.
  induction places as [| place rest IH]; intros newGeofences w.
  - simpl. rewrite app_nil_r. reflexivity.
  - cbn [checkPlaces]. rewrite detected_cons, actionsAt_app.
    unfold transitionOf. fold (inside lat lon place).
    set (now := inside lat lon place).
    set (was := bool_decide (place_id place ∈ previous)).
    set (acc := if now then {[place_id place]} ∪ newGeofences
                else newGeofences).
    assert (Hdispatch : forall action,
      let w1 := add_console
                  (LogTransition userId action (place_name place)
                     (place_id place)) w in
      (consoleLog (LogTransition userId action (place_name place)
                     (place_id place)) ;;
       sendGeofenceNotification storage userId place action) w
      = (Resolved tt,
         snd (sendGeofenceNotification storage userId place action w1))).
    { intros action w1. erewrite bind_run; [| reflexivity].
      apply resolves_run, sendGeofenceNotification_resolves. }
    assert (Hat : forall action,
               actionsAt userId placeId [(userId, action, place_id place)]
               = if Z.eqb (place_id place) placeId then [action] else []).
    { intros action. unfold actionsAt. simpl. rewrite Z.eqb_refl. simpl.
      destruct (place_id place =? placeId); reflexivity. }
    destruct (now && negb was) eqn:Hent;
      [| destruct (negb now && was) eqn:Hex].
    + erewrite bind_run by apply Hdispatch.
      rewrite IH, dispatch_self_row, Hat, <- app_assoc. reflexivity.
    + erewrite bind_run by apply Hdispatch.
      rewrite IH, dispatch_self_row, Hat, <- app_assoc. reflexivity.
    + erewrite bind_run by reflexivity. rewrite IH. reflexivity.
Qed.

Lemma check_self_rows lat lon w :
  selfActionsOn userId placeId
    (snd (checkGeofenceTransitions storage userId lat lon w))
  = selfActionsOn userId placeId w ++
    actionsAt userId placeId
      (fst (checkEffect storage userId lat lon (userGeofenceStates w))).
Proof.
  unfold checkEffect.
  destruct (getFamilyPlaces storage userId) as [[[| place rest] |] |] eqn:Hfetch.
  - rewrite check_noop by (right; assumption). simpl.
    rewrite app_nil_r. reflexivity.
  - unfold checkGeofenceTransitions, tryCatch, bind at 1, await.
    rewrite Hfetch. unfold bind at 1, get.
    destruct (checkPlaces_run storage userId lat lon
                (default ∅ (userGeofenceStates w !! toString userId))
                (place :: rest) ∅ w) as (w1 & Hrun & _).
    pose proof (checkPlaces_self_rows lat lon
                  (default ∅ (userGeofenceStates w !! toString userId))
                  (place :: rest) ∅ w) as Hrows.
    rewrite Hrun in Hrows. cbn [snd] in Hrows.
    unfold bind. rewrite Hrun. cbn [fst snd modify].
    exact Hrows.
  - rewrite check_noop by (left; assumption). simpl.
    rewrite app_nil_r. reflexivity.
  - rewrite check_rejected by assumption. simpl.
    rewrite app_nil_r. reflexivity.
Qed.

End OwnRows.

Lemma runChecks_self_rows userId placeId checks :
  Forall (dispatchSucceeds userId) checks ->
  forall w,
  exists added,
    transitionsOn (snd (runChecks checks w)) = transitionsOn w ++ added /\
    selfActionsOn userId placeId (snd (runChecks checks w)) =
      selfActionsOn userId placeId w ++ actionsAt userId placeId added.
Proof.
  induction 1 as [| c rest Hc _ IH]; intros w.
  - exists []. simpl. rewrite !app_nil_r. auto.
  - unfold runChecks. cbn [forOf]. unfold bind.
    pose proof (check_effect (chk_storage c) (chk_user c) (chk_lat c)
                  (chk_lon c) w) as (Hres & Htr & _).
    fold (runCheck c) in Hres, Htr.
    assert (Hrows :
      selfActionsOn userId placeId (snd (runCheck c w)) =
      selfActionsOn userId placeId w ++
      actionsAt userId placeId
        (fst (checkEffect (chk_storage c) (chk_user c) (chk_lat c)
                (chk_lon c) (userGeofenceStates w)))).
    { unfold runCheck. destruct (Z.eq_dec (chk_user c) userId) as [Heq | Hne].
      - destruct (Hc Heq) as (Hu & Hf & Ha). rewrite Heq.
        apply check_self_rows; assumption.
      - rewrite other_mover_keeps_selfActions by assumption.
        unfold checkEffect.
        destruct (getFamilyPlaces (chk_storage c) (chk_user c))
          as [[[| place others] |] |]; cbn [fst];
          try (rewrite app_nil_r; reflexivity).
        rewrite actionsAt_detected_other by assumption.
        rewrite app_nil_r. reflexivity. }
    destruct (runCheck c w) as [o w1]; cbn [fst snd] in *. subst o.
    fold (runChecks rest). destruct (IH w1) as (added & Htr1 & Hrows1).
    eexists. split.
    + rewrite Htr1, Htr, <- app_assoc. reflexivity.
    + rewrite Hrows1, Hrows, actionsAt_app, <- app_assoc. reflexivity.
Qed.

Lemma atHome_stays : staysCandidate 1 8 atHome.
Proof.
  intros _. exists [home]. split; [reflexivity |]. split.
  - simpl. apply NoDup_cons. split; [apply not_elem_of_nil | apply NoDup_nil_2].
  - simpl. left. reflexivity.
Defined.

Lemma atHome_dispatches : dispatchSucceeds 1 atHome.
Proof.
  intros _. split; [exists jane; reflexivity |].
  split; [exists []; reflexivity |]. intros n. reflexivity.
Defined.

Lemma sides_atHome : sides 1 8 [atHome; atHome] = [true; true].
Proof.
  change (sides 1 8 [atHome; atHome])
    with [inside (place_latitude home) (place_longitude home) home;
          inside (place_latitude home) (place_longitude home) home].
  rewrite inside_at_centre. reflexivity.
Qed.

(** ** The geofence alert on the wire (C8) *)

Lemma add_notificationRows_world rows :
  forall w,
    add_notificationRows rows w =
    mkWorld (userGeofenceStates w) (lastLocationNotification w)
      (broadcastInstalled w) (clients w) (readyState w) (wire w)
      (notificationRows w ++ rows) (locationRows w) (console w) (clock w).
Proof.
  induction rows as [| n rest IH]; intros w.
  - destruct w. simpl. rewrite app_nil_r. reflexivity.
  - simpl. rewrite IH. simpl. rewrite <- app_assoc. reflexivity.
Qed.

(** With the broadcast function installed, a dispatched transition puts
    the alert on the wire of every open connection. *)
Lemma geofence_alert_frames storage userId user familyMembers place action w :
  getUser storage userId = Resolved (Some user) ->
  getFamilyMembers storage userId = Resolved familyMembers ->
  (forall n, accepted storage n = true) ->
  broadcastInstalled w = true ->
  wire (snd (sendGeofenceNotification storage userId place action w)) =
    wire w ++
    broadcastFrames (alertPayload userId user place action (clock w)) w.
Proof.
  intros Huser Hfam Hacc Hinstalled.
  rewrite (sendGeofenceNotification_success storage userId user familyMembers
             place action w Huser Hfam).
  - rewrite add_notificationRows_world.
    unfold broadcastIfInstalled, bind, get. cbn [broadcastInstalled].
    rewrite Hinstalled.
    match goal with
    | |- wire (snd (broadcastNotification ?n ?w0)) = _ =>
        destruct (broadcastNotification_run n w0) as (w' & Hrun & Hwire & _);
        rewrite Hrun; cbn [snd]; rewrite Hwire
    end.
    reflexivity.
  - apply Forall_forall. intros familyMember _. apply Hacc.
  - apply Hacc.
Qed.

(** C8. The broadcast function writes the alert to every registry entry
    whose socket is open, whoever registered it: the frames written are
    exactly one per such entry, in the order of the registry, and the
    family of the mover plays no part. A dispatched geofence transition
    reaches the wire in this way. *)
Theorem broadcast_reaches_every_open_connection :
  forall (notification : Payload) (w : World),
    fst (broadcastNotification notification w) = Resolved tt /\
    wire (snd (broadcastNotification notification w)) =
      wire w ++ broadcastFrames notification w /\
    (forall userKey client,
        In (userKey, client) (clients w) ->
        readyState w client = OPEN ->
        In (client, broadcastFrame notification)
           (wire (snd (broadcastNotification notification w)))) /\
    (forall storage userId user familyMembers place action userKey client,
        getUser storage userId = Resolved (Some user) ->
        getFamilyMembers storage userId = Resolved familyMembers ->
        (forall n, accepted storage n = true) ->
        broadcastInstalled w = true ->
        In (userKey, client) (clients w) ->
        readyState w client = OPEN ->
        In (client,
            BroadcastFrame "geofence"
              (GeofenceBody userId (displayName user) (place_name place)
                 action
                 (displayName user +:+ " has " +:+ actionString action
                    +:+ " " +:+ place_name place)
                 (clock w)))
           (wire (snd (sendGeofenceNotification storage userId place action
                         w)))).
Proof.
  intros notification w.
  assert (Hreach : forall n userKey client,
             In (userKey, client) (clients w) ->
             readyState w client = OPEN ->
             In (client, broadcastFrame n) (broadcastFrames n w)).
  { intros n userKey client Hin Hopen. unfold broadcastFrames.
    apply (in_map (fun entry => (snd entry, broadcastFrame n))
             _ (userKey, client)).
    apply filter_In. split; [exact Hin |]. cbn [snd]. rewrite Hopen.
    reflexivity. }
  destruct (broadcastNotification_run notification w)
    as (w' & Hrun & Hwire & _).
  rewrite Hrun. cbn [fst snd]. split; [reflexivity |].
  split; [exact Hwire |]. split.
  - intros userKey client Hin Hopen. rewrite Hwire. apply in_or_app. right.
    apply (Hreach notification userKey client Hin Hopen).
  - intros storage userId user familyMembers place action userKey client
      Huser Hfam Hacc Hinstalled Hin Hopen.
    rewrite (geofence_alert_frames storage userId user familyMembers place
               action w Huser Hfam Hacc Hinstalled).
    apply in_or_app. right.
    apply (Hreach (alertPayload userId user place action (clock w))
             userKey client Hin Hopen).
Qed.

Lemma broadcast_reaches_every_open_connection_witness :
  In (30, broadcastFrame (alertPayload 1 jane home entered 0))
     (wire (snd (broadcastNotification (alertPayload 1 jane home entered 0)
                   connectedWorld))) /\
  In (30, BroadcastFrame "geofence"
            (GeofenceBody 1 "Jane" "Home" entered "Jane has entered Home" 0))
     (wire (snd (sendGeofenceNotification
                   (sampleStorage [home] [john] [] None) 1 home entered
                   connectedWorld))).
Proof.
  destruct (broadcast_reaches_every_open_connection
              (alertPayload 1 jane home entered 0) connectedWorld)
    as (_ & _ & Hdirect & Halert).
  split.
  - apply (Hdirect (toString 3) 30).
    + simpl. left. reflexivity.
    + reflexivity.
  - apply (Halert (sampleStorage [home] [john] [] None) 1 jane [john] home
             entered (toString 3) 30).
    + reflexivity.
    + reflexivity.
    + intros n. reflexivity.
    + reflexivity.
    + simpl. left. reflexivity.
    + reflexivity.
Defined.

(** * Further properties *)

(** ** Distance engine: the radius test *)

Section DistanceRange.

Local Open Scope R_scope.

Lemma atan2_nonneg (y x : R) : 0 <= y -> 0 <= x -> 0 <= Distance.atan2 y x.
Proof.
  intros Hy Hx. unfold Distance.atan2.
  pose proof PI2_RGT_0 as Hpi.
  destruct (Rlt_dec 0 x) as [Hpos | Hnpos].
  - destruct (Req_dec y 0) as [-> | Hne].
    + replace (0 / x) with 0 by (field; lra). rewrite atan_0. lra.
    + assert (0 < y / x) by (apply Rdiv_lt_0_compat; lra).
      pose proof (atan_increasing 0 (y / x) H) as Hinc.
      rewrite atan_0 in Hinc. lra.
  - destruct (Rlt_dec x 0) as [Hneg | _]; [lra |].
    destruct (Rlt_dec 0 y) as [_ | _]; [lra |].
    destruct (Rlt_dec y 0) as [Hneg | _]; lra.
Qed.

Lemma calculateDistance_nonneg (lat1 lon1 lat2 lon2 : R) :
  0 <= Distance.calculateDistance lat1 lon1 lat2 lon2.
Proof.
  unfold Distance.calculateDistance; cbv zeta.
  match goal with
  | |- context [Distance.atan2 (sqrt ?a) (sqrt ?b)] =>
      pose proof (atan2_nonneg (sqrt a) (sqrt b)
                    (sqrt_pos a) (sqrt_pos b)) as Hlo;
      set (c := Distance.atan2 (sqrt a) (sqrt b)) in *
  end.
  nra.
Qed.

Lemma within_radius_monotone (lat1 lon1 lat2 lon2 r1 r2 : R) :
  r1 <= r2 ->
  Distance.isWithinGeofenceRadius lat1 lon1 lat2 lon2 r1 = true ->
  Distance.isWithinGeofenceRadius lat1 lon1 lat2 lon2 r2 = true.
Proof.
  unfold Distance.isWithinGeofenceRadius; cbv zeta. intros Hr.
  destruct (Rle_dec _ r1) as [H1 |]; [| discriminate]. intros _.
  destruct (Rle_dec _ r2) as [| Hn]; [reflexivity | exfalso; lra].
Qed.

Lemma within_negative_radius (lat1 lon1 lat2 lon2 r : R) :
  r < 0 -> Distance.isWithinGeofenceRadius lat1 lon1 lat2 lon2 r = false.
Proof.
  unfold Distance.isWithinGeofenceRadius; cbv zeta. intros Hr.
  pose proof (calculateDistance_nonneg lat1 lon1 lat2 lon2) as Hlo.
  destruct (Rle_dec _ r) as [Hle |]; [exfalso; lra | reflexivity].
Qed.

Lemma within_radius_sym (lat1 lon1 lat2 lon2 r : R) :
  Distance.isWithinGeofenceRadius lat1 lon1 lat2 lon2 r =
  Distance.isWithinGeofenceRadius lat2 lon2 lat1 lon1 r.
Proof.
  unfold Distance.isWithinGeofenceRadius; cbv zeta.
  rewrite calculateDistance_sym. reflexivity.
Qed.

End DistanceRange.

(** X3. The radius test is monotone in the radius, is the same from
    either of the two points, and fails for every negative radius. *)
Theorem radius_test_monotone_symmetric :
  (forall lat1 lon1 lat2 lon2 r1 r2 : R,
      (r1 <= r2)%R ->
      Distance.isWithinGeofenceRadius lat1 lon1 lat2 lon2 r1 = true ->
      Distance.isWithinGeofenceRadius lat1 lon1 lat2 lon2 r2 = true) /\
  (forall lat1 lon1 lat2 lon2 r : R,
      Distance.isWithinGeofenceRadius lat1 lon1 lat2 lon2 r =
      Distance.isWithinGeofenceRadius lat2 lon2 lat1 lon1 r) /\
  (forall lat1 lon1 lat2 lon2 r : R,
      (r < 0)%R ->
      Distance.isWithinGeofenceRadius lat1 lon1 lat2 lon2 r = false).
Proof.
  split; [exact within_radius_monotone |].
  split; [exact within_radius_sym | exact within_negative_radius].
Qed.

Lemma radius_test_monotone_symmetric_witness :
  Distance.isWithinGeofenceRadius 1 2 1 2 500 = true /\
  Distance.isWithinGeofenceRadius 1 2 3 4 (-1) = false.
Proof.
  destruct radius_test_monotone_symmetric as (Hmono & _ & Hneg).
  split.
  - apply (Hmono 1 2 1 2 20 500)%R; [lra |].
    exact (isWithinGeofence_same 1 2).
  - apply Hneg. lra.
Defined.

(** ** The dispatcher and the tracker: edges *)

Section DispatchEdges.

Variable storage : Storage.

Lemma dispatch_unknown_mover userId place action w :
  getUser storage userId = Resolved None ->
  sendGeofenceNotification storage userId place action w = (Resolved tt, w).
Proof.
  intros Huser. unfold sendGeofenceNotification, tryCatch, bind, await.
  rewrite Huser. reflexivity.
Qed.

Lemma dispatch_unreadable userId place action w :
  getUser storage userId = Rejected \/
  (exists user, getUser storage userId = Resolved (Some user) /\
                getFamilyMembers storage userId = Rejected) ->
  sendGeofenceNotification storage userId place action w
    = (Resolved tt, add_console LogErrorSending w).
Proof.
  intros [Huser | (user & Huser & Hfam)];
    unfold sendGeofenceNotification, tryCatch, bind, await;
    rewrite Huser; [reflexivity |].
  cbv zeta. rewrite Hfam. reflexivity.
Qed.

(** The tracker keeps whatever every dispatch, every log line and the
    final write of the stored set keep. *)
Lemma check_keeps_when_dispatch_keeps (R : relation World) `{!PreOrder R}
    userId lat lon :
  (forall place action,
      keeps R (sendGeofenceNotification storage userId place action)) ->
  (forall l w, R w (add_console l w)) ->
  (forall f w, R w (set_userGeofenceStates f w)) ->
  keeps R (checkGeofenceTransitions storage userId lat lon).
Proof.
  intros Hsend Hlog Hstates.
  assert (Hloop : forall previous places newGeofences,
             keeps R (checkPlaces storage userId lat lon previous places
                        newGeofences)).
  { intros previous places.
    induction places as [| place rest IH]; intros newGeofences.
    - apply (keeps_ret R).
    - cbn [checkPlaces]. apply (keeps_bind R); [| intros _; apply IH].
      repeat first
        [ apply Hsend
        | apply (keeps_modify R); apply Hlog
        | step_keeps ]. }
  unfold checkGeofenceTransitions, consoleLog.
  repeat first
    [ apply Hloop
    | apply (keeps_modify R); first [apply Hlog | apply Hstates]
    | step_keeps ].
Qed.

(** With the mover unreadable or unknown no dispatch creates a row or
    writes a frame. *)
Lemma silent_dispatch_keeps {B} (f : World -> B) userId place action :
  (forall l w, f (add_console l w) = f w) ->
  getUser storage userId = Rejected \/ getUser storage userId = Resolved None ->
  keeps (same f) (sendGeofenceNotification storage userId place action).
Proof.
  intros Hlog [Huser | Huser] w; unfold same.
  - rewrite dispatch_unreadable by (left; exact Huser). apply Hlog.
  - rewrite dispatch_unknown_mover by exact Huser. reflexivity.
Qed.

(** The check, once the candidate places are read. *)
Lemma check_unfold userId lat lon w places :
  getFamilyPlaces storage userId = Resolved (Some places) ->
  places <> [] ->
  checkGeofenceTransitions storage userId lat lon w =
    (Resolved tt,
     set_userGeofenceStates
       (fun m => <[toString userId := currentInside lat lon places]> m)
       (snd (checkPlaces storage userId lat lon (previousInside w userId)
               places ∅ w))).
Proof.
  intros Hfetch Hne.
  destruct (checkPlaces_run storage userId lat lon (previousInside w userId)
              places ∅ w) as (w1 & Hrun & _).
  unfold checkGeofenceTransitions, tryCatch, bind at 1, await.
  rewrite Hfetch.
  destruct places as [| place rest]; [congruence |].
  unfold bind, get. unfold previousInside in *. rewrite Hrun.
  unfold modify. cbn [snd]. repeat f_equal.
  apply (right_id_L ∅ (∪)).
Qed.

(** A loop that detects no transition leaves the world as it is. *)
Lemma checkPlaces_quiet userId lat lon previous places :
  detected userId previous lat lon places = [] ->
  forall newGeofences w,
    checkPlaces storage userId lat lon previous places newGeofences w
      = (Resolved (currentInside lat lon places ∪ newGeofences), w).
Proof.
  induction places as [| place rest IH]; intros Hquiet newGeofences w.
  - simpl. unfold ret. f_equal. f_equal. unfold currentInside. simpl.
    symmetry. apply (left_id_L ∅ (∪)).
  - rewrite detected_cons in Hquiet.
    destruct (transitionOf previous lat lon place) as [action |] eqn:Ht;
      [discriminate |].
    simpl in Hquiet. cbn [checkPlaces]. rewrite currentInside_cons.
    unfold transitionOf in Ht. fold (inside lat lon place) in *.
    set (now := inside lat lon place) in *.
    set (was := bool_decide (place_id place ∈ previous)) in *.
    destruct (now && negb was); [discriminate |].
    destruct (negb now && was); [discriminate |].
    erewrite bind_run by reflexivity. rewrite (IH Hquiet).
    f_equal. f_equal. destruct now; [| reflexivity].
    rewrite (comm_L (∪) {[place_id place]} (currentInside lat lon rest)).
    rewrite <- (assoc_L (∪)). reflexivity.
Qed.

End DispatchEdges.

(** Against the set it has just computed, a candidate list of distinct
    ids shows no transition. *)
Lemma detected_when_settled userId lat lon places :
  NoDup (map place_id places) ->
  detected userId (currentInside lat lon places) lat lon places = [].
Proof.
  intros Hnd.
  destruct (detected userId (currentInside lat lon places) lat lon places)
    as [| [[u action] pid] rest] eqn:Hdet; [reflexivity |].
  exfalso.
  assert (Hin : (u, action, pid)
                  ∈ detected userId (currentInside lat lon places) lat lon
                      places).
  { rewrite Hdet. apply list_elem_of_here. }
  apply elem_of_detected in Hin as (-> & place & Hplace & <- & Ht).
  destruct action.
  - apply transitionOf_entered in Ht as [Hins Hnot].
    apply Hnot, elem_of_currentInside. eauto.
  - apply transitionOf_exited in Ht as [Hout Hwas].
    apply elem_of_currentInside in Hwas as (q & Hq & Hqid & Hqins).
    assert (q = place) by (eapply place_unique; eauto).
    congruence.
Qed.

Lemma settled_check_is_noop storage userId lat lon w places :
  getFamilyPlaces storage userId = Resolved (Some places) ->
  NoDup (map place_id places) ->
  userGeofenceStates w !! toString userId
    = Some (currentInside lat lon places) ->
  checkGeofenceTransitions storage userId lat lon w = (Resolved tt, w).
Proof.
  intros Hfetch Hnd Hstored.
  destruct places as [| place rest].
  { apply check_noop. right. exact Hfetch. }
  rewrite (check_unfold storage userId lat lon w (place :: rest) Hfetch)
    by discriminate.
  unfold previousInside. rewrite Hstored. cbn [default].
  rewrite checkPlaces_quiet by (apply detected_when_settled; exact Hnd).
  cbn [snd]. f_equal. destruct w as [states ? ? ? ? ? ? ? ? ?].
  unfold set_userGeofenceStates. simpl in *. f_equal.
  apply insert_id. exact Hstored.
Qed.

Lemma broadcastIfInstalled_run n w :
  exists w',
    broadcastIfInstalled n w = (Resolved tt, w') /\
    wire w' = wire w ++ (if broadcastInstalled w then broadcastFrames n w else []) /\
    notificationRows w' = notificationRows w /\
    console w' = console w.
Proof.
  unfold broadcastIfInstalled, bind, get.
  destruct (broadcastInstalled w).
  - destruct (broadcastNotification_run n w)
      as (w' & Hrun & Hwire & Hrows & Hcon & _).
    exists w'. auto.
  - exists w. simpl. rewrite app_nil_r. auto.
Qed.

Lemma fanout_success_world storage userId user familyMembers place action w :
  getUser storage userId = Resolved (Some user) ->
  getFamilyMembers storage userId = Resolved familyMembers ->
  (forall n, accepted storage n = true) ->
  let run := sendGeofenceNotification storage userId place action w in
  fst run = Resolved tt /\
  notificationRows (snd run) =
    notificationRows w
      ++ map (familyRow userId user place action) familyMembers
      ++ [selfRow userId place action] /\
  wire (snd run) =
    wire w ++
    (if broadcastInstalled w
     then broadcastFrames (alertPayload userId user place action (clock w)) w
     else []) /\
  console (snd run) = console w.
Proof.
  intros Huser Hfam Hacc run. subst run.
  rewrite (sendGeofenceNotification_success storage userId user familyMembers
             place action w Huser Hfam);
    [| apply Forall_forall; intros familyMember _; apply Hacc | apply Hacc].
  rewrite add_notificationRows_world.
  match goal with
  | |- context [broadcastIfInstalled ?n ?w0] =>
      destruct (broadcastIfInstalled_run n w0)
        as (w' & Hrun & Hwire & Hrows & Hcon)
  end.
  rewrite Hrun. cbn [fst snd]. rewrite Hwire, Hrows, Hcon.
  auto.
Qed.

(** X4. When the mover is found, the family is read and the rows are
    accepted, a dispatched transition (entered or exited) creates one row
    per family member, in the order of the family, and then the row of
    the mover: as many rows as family members plus one. It writes the
    alert to the open connections when the broadcast function is
    installed and nothing otherwise, and it logs no error. *)
Theorem fanout_creates_family_rows_then_own_row :
  forall storage userId user familyMembers place action w,
    getUser storage userId = Resolved (Some user) ->
    getFamilyMembers storage userId = Resolved familyMembers ->
    (forall n, accepted storage n = true) ->
    let run := sendGeofenceNotification storage userId place action w in
    fst run = Resolved tt /\
    notificationRows (snd run) =
      notificationRows w
        ++ map (familyRow userId user place action) familyMembers
        ++ [selfRow userId place action] /\
    length (notificationRows (snd run)) =
      (length (notificationRows w) + length familyMembers + 1)%nat /\
    wire (snd run) =
      wire w ++
      (if broadcastInstalled w
       then broadcastFrames (alertPayload userId user place action (clock w)) w
       else []) /\
    console (snd run) = console w.
Proof.
  intros storage userId user familyMembers place action w Huser Hfam Hacc run.
  destruct (fanout_success_world storage userId user familyMembers place
              action w Huser Hfam Hacc) as (Hres & Hrows & Hwire & Hcon).
  fold run in Hres, Hrows, Hwire, Hcon.
  split; [exact Hres |]. split; [exact Hrows |].
  split; [| split; assumption].
  rewrite Hrows, !length_app, length_map. simpl. lia.
Qed.

Lemma fanout_creates_family_rows_then_own_row_witness :
  map n_message
    (notificationRows
       (snd (sendGeofenceNotification (sampleStorage [home] [john; bob] [] None)
               1 home exited (freshWorld 0))))
  = ["Jane has exited Home"; "Jane has exited Home"; "You exited Home"].
Proof.
  destruct (fanout_creates_family_rows_then_own_row
              (sampleStorage [home] [john; bob] [] None) 1 jane [john; bob]
              home exited (freshWorld 0) eq_refl eq_refl (fun n => eq_refl))
    as (_ & Hrows & _).
  rewrite Hrows. reflexivity.
Defined.

Lemma check_unreadable_mover storage userId lat lon w places :
  getFamilyPlaces storage userId = Resolved (Some places) ->
  places <> [] ->
  getUser storage userId = Rejected \/ getUser storage userId = Resolved None ->
  let w' := snd (checkGeofenceTransitions storage userId lat lon w) in
  notificationRows w' = notificationRows w /\
  wire w' = wire w /\
  transitionsOn w' =
    transitionsOn w ++ detected userId (previousInside w userId) lat lon places /\
  userGeofenceStates w' !! toString userId
    = Some (currentInside lat lon places).
Proof.
  intros Hfetch Hne Huser w'. subst w'. split; [| split].
  - apply (check_keeps_when_dispatch_keeps storage (same notificationRows));
      try (intros; reflexivity).
    intros place action. apply silent_dispatch_keeps; [reflexivity | exact Huser].
  - apply (check_keeps_when_dispatch_keeps storage (same wire));
      try (intros; reflexivity).
    intros place action. apply silent_dispatch_keeps; [reflexivity | exact Huser].
  - destruct (check_run storage userId lat lon w places Hfetch Hne)
      as (w1 & Hrun & Htr & Hst).
    rewrite Hrun. cbn [snd]. split; [exact Htr |].
    simpl. apply lookup_insert_eq.
Qed.

(** X5. When the mover cannot be read, or is unknown, a check still
    detects the transitions and replaces the stored set, but no
    notification row is created and nothing is written to any
    connection. As the stored set is replaced all the same, the missed
    notification is not made up for by a later check. *)
Theorem unreadable_mover_loses_the_notification :
  forall storage userId lat lon w places,
    getFamilyPlaces storage userId = Resolved (Some places) ->
    places <> [] ->
    getUser storage userId = Rejected \/
    getUser storage userId = Resolved None ->
    let w' := snd (checkGeofenceTransitions storage userId lat lon w) in
    notificationRows w' = notificationRows w /\
    wire w' = wire w /\
    transitionsOn w' =
      transitionsOn w
        ++ detected userId (previousInside w userId) lat lon places /\
    userGeofenceStates w' !! toString userId
      = Some (currentInside lat lon places).
Proof. exact check_unreadable_mover. Qed.

Lemma unreadable_mover_loses_the_notification_witness :
  let w' := snd (checkGeofenceTransitions (usersDown [home]) 1 0 0
                   (freshWorld 0)) in
  notificationRows w' = [] /\
  transitionsOn w' = [(1, entered, 8)].
Proof.
  destruct (unreadable_mover_loses_the_notification (usersDown [home]) 1
              0%R 0%R (freshWorld 0) [home] eq_refl)
    as (Hrows & _ & Htr & _).
  - discriminate.
  - left. reflexivity.
  - split; [exact Hrows |]. rewrite Htr.
    change (transitionsOn (freshWorld 0)) with (@nil (Z * Action * Z)).
    rewrite app_nil_l, detected_cons. unfold transitionOf.
    change (inside 0 0 home)
      with (inside (place_latitude home) (place_longitude home) home).
    rewrite inside_at_centre. reflexivity.
Defined.

Lemma recheck_is_noop first second userId lat lon w places :
  getFamilyPlaces first userId = Resolved (Some places) ->
  getFamilyPlaces second userId = Resolved (Some places) ->
  NoDup (map place_id places) ->
  let w1 := snd (checkGeofenceTransitions first userId lat lon w) in
  checkGeofenceTransitions second userId lat lon w1 = (Resolved tt, w1).
Proof.
  intros Hfirst Hsecond Hnd w1. subst w1.
  destruct places as [| place rest].
  - rewrite (check_noop first) by (right; exact Hfirst). cbn [snd].
    apply check_noop. right. exact Hsecond.
  - destruct (check_run first userId lat lon w (place :: rest) Hfirst)
      as (w0 & Hrun & _); [discriminate |].
    rewrite Hrun. cbn [snd].
    apply (settled_check_is_noop second userId lat lon _ (place :: rest)
             Hsecond Hnd).
    simpl. apply lookup_insert_eq.
Qed.

(** X6. A check that follows a check of the same user at the same
    position, with the same candidate places (of distinct ids), changes
    nothing at all: no row, no frame, no log line of a transition, the
    same stored sets. This holds whatever the rest of the storage answers
    at either check. *)
Theorem repeated_check_changes_nothing :
  forall first second userId lat lon w places,
    getFamilyPlaces first userId = Resolved (Some places) ->
    getFamilyPlaces second userId = Resolved (Some places) ->
    NoDup (map place_id places) ->
    let w1 := snd (checkGeofenceTransitions first userId lat lon w) in
    checkGeofenceTransitions second userId lat lon w1 = (Resolved tt, w1).
Proof. exact recheck_is_noop. Qed.

Lemma repeated_check_changes_nothing_witness :
  let w1 := snd (checkGeofenceTransitions (usersDown [home]) 1 0 0
                   (freshWorld 0)) in
  checkGeofenceTransitions (sampleStorage [home] [john] [] None) 1 0 0 w1
  = (Resolved tt, w1).
Proof.
  apply (repeated_check_changes_nothing (usersDown [home])
           (sampleStorage [home] [john] [] None) 1 0%R 0%R (freshWorld 0)
           [home] eq_refl eq_refl).
  simpl. apply NoDup_cons. split; [apply not_elem_of_nil | apply NoDup_nil_2].
Defined.

Lemma toString_inj (a b : Z) : toString a = toString b -> a = b.
Proof. unfold toString. intros H. apply (inj pretty) in H. exact H. Qed.

Lemma check_states_cases storage userId lat lon w :
  userGeofenceStates (snd (checkGeofenceTransitions storage userId lat lon w))
    = userGeofenceStates w \/
  exists places,
    getFamilyPlaces storage userId = Resolved (Some places) /\
    places <> [] /\
    userGeofenceStates
      (snd (checkGeofenceTransitions storage userId lat lon w))
    = <[toString userId := currentInside lat lon places]>
        (userGeofenceStates w).
Proof.
  destruct (check_effect storage userId lat lon w) as (_ & _ & Hst).
  rewrite Hst. unfold checkEffect.
  destruct (getFamilyPlaces storage userId) as [[[| place rest] |] |];
    try (left; reflexivity).
  right. exists (place :: rest). split; [reflexivity |].
  split; [discriminate | reflexivity].
Qed.

(** X7. A check writes only the stored set of its own user: the stored
    set of every other user, the throttle records, the registry and the
    location rows are as before. After a check with a non-empty candidate
    list, the stored set of the user holds only ids of candidate places
    that are within the radius; ids stored earlier for places that are no
    longer candidates are gone. When the storage answers null instead of
    a list, nothing changes. *)
Theorem check_writes_only_own_stored_set :
  forall storage userId lat lon w,
    let w' := snd (checkGeofenceTransitions storage userId lat lon w) in
    (forall other, other <> userId ->
        userGeofenceStates w' !! toString other
          = userGeofenceStates w !! toString other) /\
    lastLocationNotification w' = lastLocationNotification w /\
    clients w' = clients w /\
    locationRows w' = locationRows w /\
    (forall places,
        getFamilyPlaces storage userId = Resolved (Some places) ->
        places <> [] ->
        forall pid,
          pid ∈ previousInside w' userId <->
          exists place,
            place ∈ places /\ place_id place = pid /\
            inside lat lon place = true) /\
    (getFamilyPlaces storage userId = Resolved None -> w' = w).
Proof.
  intros storage userId lat lon w w'. subst w'.
  split; [| split; [| split; [| split; [| split]]]].
  - intros other Hother.
    destruct (check_states_cases storage userId lat lon w)
      as [-> | (places & _ & _ & ->)]; [reflexivity |].
    apply lookup_insert_ne. intros Heq. apply Hother. symmetry.
    apply toString_inj. exact Heq.
  - apply (checkGeofenceTransitions_keeps storage userId
             (same lastLocationNotification)); intros; reflexivity.
  - apply (checkGeofenceTransitions_keeps storage userId (same clients));
      intros; reflexivity.
  - apply (checkGeofenceTransitions_keeps storage userId (same locationRows));
      intros; reflexivity.
  - intros places Hfetch Hne pid.
    destruct (check_run storage userId lat lon w places Hfetch Hne)
      as (w1 & Hrun & _).
    rewrite Hrun. cbn [snd]. unfold previousInside. simpl.
    rewrite lookup_insert_eq. simpl. apply elem_of_currentInside.
  - intros Hnull. rewrite check_noop by (left; exact Hnull). reflexivity.
Qed.

Lemma check_writes_only_own_stored_set_witness :
  previousInside
    (snd (checkGeofenceTransitions (sampleStorage [home] [] [] None) 1 0 0
            staleWorld)) 1
  = currentInside 0 0 [home].
Proof.
  destruct (check_writes_only_own_stored_set
              (sampleStorage [home] [] [] None) 1 0%R 0%R staleWorld)
    as (_ & _ & _ & _ & Hstored & _).
  apply set_eq. intros pid.
  rewrite (Hstored [home] eq_refl ltac:(discriminate) pid).
  symmetry. apply elem_of_currentInside.
Defined.

(** ** Reset of a user's geofence state *)

Lemma clear_previousInside userId w :
  previousInside (snd (clearUserGeofenceState userId w)) userId = ∅.
Proof.
  unfold previousInside, clearUserGeofenceState. simpl.
  rewrite lookup_delete_eq. reflexivity.
Qed.

Lemma detected_from_nothing userId lat lon places u action pid :
  (u, action, pid) ∈ detected userId ∅ lat lon places <->
  u = userId /\ action = entered /\ pid ∈ currentInside lat lon places.
Proof.
  split.
  - intros Hin. pose proof Hin as Hin'.
    apply elem_of_detected in Hin' as (-> & place & Hplace & <- & Ht).
    destruct action.
    + split; [reflexivity |]. split; [reflexivity |].
      apply transitionOf_entered in Ht as [Hins _].
      apply elem_of_currentInside. eauto.
    + apply transitionOf_exited in Ht as [_ Hwas].
      exfalso. exact (not_elem_of_empty _ Hwas).
  - intros (-> & -> & Hcur). apply detected_entered_iff.
    apply elem_of_difference. split; [exact Hcur | apply not_elem_of_empty].
Qed.

(** X8. The reset removes the stored set of one user and of no other,
    and doing it twice is doing it once. The check that follows a reset
    reads the user as outside every place: it records [entered] for
    every candidate place the user is inside, also for those the user had
    already entered, and no [exited]. *)
Theorem reset_forgets_one_user :
  forall userId w,
    (snd (clearUserGeofenceState userId
            (snd (clearUserGeofenceState userId w)))
     = snd (clearUserGeofenceState userId w)) /\
    (forall other, other <> userId ->
        userGeofenceStates (snd (clearUserGeofenceState userId w))
          !! toString other
        = userGeofenceStates w !! toString other) /\
    (forall storage lat lon places,
        getFamilyPlaces storage userId = Resolved (Some places) ->
        places <> [] ->
        let w' :=
          snd ((clearUserGeofenceState userId ;;
                checkGeofenceTransitions storage userId lat lon) w) in
        exists new,
          transitionsOn w' = transitionsOn w ++ new /\
          forall u action pid,
            (u, action, pid) ∈ new <->
            u = userId /\ action = entered /\
            pid ∈ currentInside lat lon places).
Proof.
  intros userId w. split; [| split].
  - unfold clearUserGeofenceState, modify, set_userGeofenceStates. simpl.
    f_equal. apply delete_delete_eq.
  - intros other Hother. unfold clearUserGeofenceState. simpl.
    apply lookup_delete_ne. intros Heq. apply Hother. symmetry.
    apply toString_inj. exact Heq.
  - intros storage lat lon places Hfetch Hne w'. subst w'.
    erewrite bind_run by reflexivity.
    set (w0 := set_userGeofenceStates _ w).
    destruct (check_run storage userId lat lon w0 places Hfetch Hne)
      as (w1 & Hrun & Htr & _).
    rewrite Hrun. cbn [snd].
    exists (detected userId ∅ lat lon places). split.
    + change (transitionsOn (set_userGeofenceStates _ w1))
        with (transitionsOn w1).
      rewrite Htr.
      replace (previousInside w0 userId) with (∅ : gset Z); [reflexivity |].
      symmetry. apply (clear_previousInside userId w).
    + intros u action pid. apply detected_from_nothing.
Qed.

Lemma reset_forgets_one_user_witness :
  exists new,
    transitionsOn
      (snd ((clearUserGeofenceState 1 ;;
             checkGeofenceTransitions (sampleStorage [home] [] [] None) 1 0 0)
              (snd (runChecks [atHome] (freshWorld 0)))))
    = transitionsOn (snd (runChecks [atHome] (freshWorld 0))) ++ new /\
    (1, entered, 8) ∈ new.
Proof.
  destruct (reset_forgets_one_user 1 (snd (runChecks [atHome] (freshWorld 0))))
    as (_ & _ & Hcheck).
  destruct (Hcheck (sampleStorage [home] [] [] None) 0%R 0%R [home] eq_refl)
    as (new & Htr & Hnew); [discriminate |].
  exists new. split; [exact Htr |].
  apply Hnew. split; [reflexivity |]. split; [reflexivity |].
  apply elem_of_currentInside. exists home.
  split; [apply list_elem_of_here |]. split; [reflexivity |].
  exact (inside_at_centre home).
Defined.

(** ** The push of raw locations (routes.ts, broadcastLocationUpdate) *)

Lemma locationUpdate_loop userId location (w : World) familyMembers :
  forall w1,
    clients w1 = clients w ->
    readyState w1 = readyState w ->
    exists w',
      forOf familyMembers
        (fun member =>
           let* w0 := get in
           match mapGet (toString (user_id member)) (clients w0) with
           | Some client =>
               if isOpen (readyState w0 client)
               then send client (LocationUpdateFrame (toString userId) location)
               else ret tt
           | None => ret tt
           end) w1 = (Resolved tt, w') /\
      wire w' = wire w1 ++ locationUpdateFrames userId location familyMembers w /\
      notificationRows w' = notificationRows w1 /\
      userGeofenceStates w' = userGeofenceStates w1 /\
      console w' = console w1.
Proof.
  induction familyMembers as [| member rest IH]; intros w1 Hclients Hready.
  - exists w1. simpl. rewrite app_nil_r. auto.
  - cbn [forOf]. unfold bind at 1. unfold bind at 1, get.
    unfold locationUpdateFrames. cbn [omap list_omap]. rewrite Hclients, Hready.
    fold (locationUpdateFrames userId location rest w).
    destruct (mapGet (toString (user_id member)) (clients w)) as [client |].
    + destruct (isOpen (readyState w client)).
      * destruct (IH (add_wire client
                        (LocationUpdateFrame (toString userId) location) w1))
          as (w' & Hrun & Hwire & Hrows & Hst & Hcon); [assumption .. |].
        exists w'. unfold send, modify. split; [exact Hrun |].
        rewrite Hwire, Hrows, Hst, Hcon. simpl. rewrite <- app_assoc. auto.
      * destruct (IH w1 Hclients Hready) as (w' & Hrun & Hrest).
        exists w'. auto.
    + destruct (IH w1 Hclients Hready) as (w' & Hrun & Hrest).
      exists w'. auto.
Qed.

Lemma mapGet_In key client (registry : list (string * Z)) :
  mapGet key registry = Some client -> In (key, client) registry.
Proof.
  induction registry as [| [k v] rest IH]; [discriminate |].
  simpl. destruct (String.eqb_spec k key) as [-> | _].
  - intros [= ->]. left. reflexivity.
  - intros H. right. apply IH. exact H.
Qed.

(** X9. The push of a raw location never rejects. When the family is
    read, it writes one frame per family member whose registry entry
    holds an open socket, in the order of the family, and nothing else:
    a socket gets a frame only if it is registered under the id of a
    family member and open, so connections outside the family get none.
    When the family cannot be read nothing is written. Rows, stored sets
    and console are untouched. *)
Theorem location_push_reaches_family_connections :
  forall storage userId location w,
    let run := broadcastLocationUpdate storage userId location w in
    fst run = Resolved tt /\
    notificationRows (snd run) = notificationRows w /\
    userGeofenceStates (snd run) = userGeofenceStates w /\
    (forall familyMembers,
        getFamilyMembers storage userId = Resolved familyMembers ->
        wire (snd run) =
          wire w ++ locationUpdateFrames userId location familyMembers w /\
        forall client frame,
          In (client, frame)
             (locationUpdateFrames userId location familyMembers w) ->
          frame = LocationUpdateFrame (toString userId) location /\
          readyState w client = OPEN /\
          exists member,
            In member familyMembers /\
            In (toString (user_id member), client) (clients w)) /\
    (getFamilyMembers storage userId = Rejected -> snd run = w).
Proof.
  intros storage userId location w run. subst run.
  unfold broadcastLocationUpdate.
  destruct (getFamilyMembers storage userId) as [familyMembers |] eqn:Hfam.
  - destruct (locationUpdate_loop userId location w familyMembers w
                eq_refl eq_refl) as (w' & Hrun & Hwire & Hrows & Hst & _).
    rewrite Hrun. cbn [fst snd].
    split; [reflexivity |]. split; [exact Hrows |]. split; [exact Hst |].
    split; [| discriminate].
    intros fm [= <-]. split; [exact Hwire |].
    intros client frame Hin. unfold locationUpdateFrames in Hin.
    apply list_elem_of_In, list_elem_of_omap in Hin as (member & Hmember & Hsent).
    destruct (mapGet (toString (user_id member)) (clients w))
      as [found |] eqn:Hget; [| discriminate].
    destruct (readyState w found) eqn:Hstate; simpl in Hsent;
      try discriminate.
    injection Hsent as <- <-.
    split; [reflexivity |]. split; [exact Hstate |].
    exists member. split; [apply list_elem_of_In; exact Hmember |].
    apply mapGet_In. exact Hget.
  - simpl. split; [reflexivity |]. split; [reflexivity |].
    split; [reflexivity |]. split; [discriminate | reflexivity].
Qed.

Lemma location_push_reaches_family_connections_witness :
  wire (snd (broadcastLocationUpdate (sampleStorage [] [john; bob] [] None) 1
               (latestAt 5) twoClients))
  = [(20, LocationUpdateFrame (toString 1) (latestAt 5))].
Proof.
  destruct (location_push_reaches_family_connections
              (sampleStorage [] [john; bob] [] None) 1 (latestAt 5) twoClients)
    as (_ & _ & _ & Hfam & _).
  destruct (Hfam [john; bob] eq_refl) as [Hwire _].
  rewrite Hwire. vm_compute. reflexivity.
Defined.

(** ** Hourly logging sessions *)

Lemma sessionGet_None_notin key m :
  sessionGet key m = None <-> ~ In key (map fst m).
Proof.
  induction m as [| [k v] rest IH]; simpl.
  - tauto.
  - destruct (String.eqb_spec k key) as [-> | Hne].
    + split; [discriminate | intros H; exfalso; apply H; left; reflexivity].
    + rewrite IH. tauto.
Qed.

Lemma sessionGet_Some_In key s m :
  sessionGet key m = Some s -> In (key, s) m.
Proof.
  induction m as [| [k v] rest IH]; simpl; [discriminate |].
  destruct (String.eqb_spec k key) as [-> | _].
  - intros [= ->]. left. reflexivity.
  - intros H. right. apply IH. exact H.
Qed.

Lemma sessionSet_fresh key s m :
  sessionGet key m = None -> sessionSet key s m = m ++ [(key, s)].
Proof.
  induction m as [| [k v] rest IH]; simpl; [reflexivity |].
  destruct (String.eqb_spec k key); [discriminate |].
  intros H. rewrite IH by exact H. reflexivity.
Qed.

Lemma sessionGet_delete_same key m : sessionGet key (sessionDelete key m) = None.
Proof.
  apply sessionGet_None_notin. unfold sessionDelete.
  intros Hin. apply in_map_iff in Hin as ([k v] & Hk & Hin).
  apply filter_In in Hin as [_ Hne]. simpl in *. subst k.
  rewrite String.eqb_refl in Hne. discriminate.
Qed.

Lemma sessionGet_delete_other key other m :
  other <> key ->
  sessionGet other (sessionDelete key m) = sessionGet other m.
Proof.
  intros Hne. unfold sessionDelete.
  induction m as [| [k v] rest IH]; simpl; [reflexivity |].
  destruct (String.eqb_spec k key) as [-> | Hk]; simpl.
  - destruct (String.eqb_spec key other); [congruence | exact IH].
  - destruct (String.eqb_spec k other); [reflexivity | exact IH].
Qed.

Lemma sessionGet_append key other s m :
  sessionGet other (m ++ [(key, s)]) =
  match sessionGet other m with
  | Some found => Some found
  | None => if String.eqb key other then Some s else None
  end.
Proof.
  induction m as [| [k v] rest IH]; simpl; [reflexivity |].
  destruct (String.eqb k other); [reflexivity | exact IH].
Qed.

(** Clearing the interval of the session filed under [key]. *)
Lemma clear_deleted_session key session (m : list (string * UserLocationSession)) :
  NoDup (map fst m) ->
  NoDup (map (fun e => session_intervalId (snd e)) m) ->
  sessionGet key m = Some session ->
  clearInterval (session_intervalId session)
    (map (fun e => session_intervalId (snd e)) m)
  = map (fun e => session_intervalId (snd e)) (sessionDelete key m).
Proof.
  unfold clearInterval, sessionDelete.
  induction m as [| [k v] rest IH]; intros Hkeys Hids Hget;
    [discriminate |].
  simpl in *. apply NoDup_cons in Hkeys as [Hk Hkeys].
  apply NoDup_cons in Hids as [Hid Hids].
  destruct (String.eqb_spec k key) as [-> | Hne]; simpl.
  - injection Hget as ->. rewrite Z.eqb_refl. simpl.
    assert (Hrest : forall l : list (string * UserLocationSession),
               ~ In key (map fst l) ->
               ~ In (session_intervalId session)
                   (map (fun e => session_intervalId (snd e)) l) ->
               List.filter (fun t => negb (t =? session_intervalId session))
                 (map (fun e => session_intervalId (snd e)) l)
               = map (fun e => session_intervalId (snd e))
                   (List.filter (fun e => negb (String.eqb (fst e) key)) l)).
    { induction l as [| [k' v'] l' IHl]; intros Hnk Hni; [reflexivity |].
      simpl in *.
      destruct (Z.eqb_spec (session_intervalId v') (session_intervalId session));
        [exfalso; apply Hni; left; assumption |].
      destruct (String.eqb_spec k' key);
        [exfalso; apply Hnk; left; assumption |].
      simpl. f_equal. apply IHl; tauto. }
    apply Hrest; rewrite <- list_elem_of_In; assumption.
  - assert (Hv : session_intervalId v <> session_intervalId session).
    { intros Heq. apply Hid. rewrite Heq. apply list_elem_of_In.
      apply sessionGet_Some_In in Hget.
      apply (in_map (fun e => session_intervalId (snd e)) _ _ Hget). }
    destruct (Z.eqb_spec (session_intervalId v) (session_intervalId session));
      [contradiction |].
    simpl. f_equal. apply IH; assumption.
Qed.

Lemma clearInterval_incl id live : incl (clearInterval id live) live.
Proof. intros t Hin. apply filter_In in Hin. tauto. Qed.

Lemma clear_all_sessions (m : list (string * UserLocationSession)) :
  forall live,
    fold_left (fun live e => clearInterval (session_intervalId (snd e)) live)
      m live
    = List.filter
        (fun t => negb (existsb (Z.eqb t)
                          (map (fun e => session_intervalId (snd e)) m)))
        live.
Proof.
  induction m as [| [k v] rest IH]; intros live; simpl.
  - symmetry. apply forallb_filter_id. apply forallb_forall. reflexivity.
  - rewrite IH. unfold clearInterval.
    induction live as [| t live' IHl]; [reflexivity |].
    simpl. destruct (Z.eqb_spec t (session_intervalId v)); simpl.
    + exact IHl.
    + destruct (existsb _ _); simpl; [exact IHl | f_equal; exact IHl].
Qed.

Lemma start_consistent userId now l :
  loggerConsistent l -> loggerConsistent (startHourlyLogging userId now l).
Proof.
  intros [Hkeys Hown Hlive Hnd Hlt]. unfold startHourlyLogging.
  destruct (sessionGet userId (activeSessions l)) eqn:Hget;
    [split; assumption |].
  rewrite sessionSet_fresh by exact Hget.
  split; simpl.
  - rewrite map_app. simpl. apply NoDup_app. split; [exact Hkeys |].
    split; [| apply NoDup_singleton].
    intros k Hk Hin. apply list_elem_of_singleton in Hin. subst k.
    apply sessionGet_None_notin in Hget. apply Hget.
    apply list_elem_of_In. exact Hk.
  - apply Forall_app. split; [exact Hown |]. repeat constructor.
  - rewrite map_app, Hlive. reflexivity.
  - apply NoDup_app. split; [exact Hnd |]. split; [| apply NoDup_singleton].
    intros t Ht Hin. apply list_elem_of_singleton in Hin. subst t.
    rewrite Forall_forall in Hlt. specialize (Hlt _ Ht). lia.
  - apply Forall_app. split.
    + eapply Forall_impl; [exact Hlt |]. simpl. intros; lia.
    + repeat constructor. lia.
Qed.

Lemma stop_consistent userId l :
  loggerConsistent l -> loggerConsistent (stopHourlyLogging userId l).
Proof.
  intros [Hkeys Hown Hlive Hnd Hlt]. unfold stopHourlyLogging.
  destruct (sessionGet userId (activeSessions l)) as [session |] eqn:Hget;
    [| split; assumption].
  assert (Hclear :
    clearInterval (session_intervalId session) (liveIntervals l)
    = map (fun e => session_intervalId (snd e))
        (sessionDelete userId (activeSessions l))).
  { rewrite Hlive. apply clear_deleted_session; [exact Hkeys | | exact Hget].
    rewrite <- Hlive. exact Hnd. }
  split; simpl.
  - unfold sessionDelete. clear -Hkeys.
    induction (activeSessions l) as [| [k v] rest IH]; [constructor |].
    simpl in *. apply NoDup_cons in Hkeys as [Hk Hkeys].
    destruct (negb (String.eqb k userId)); simpl; [| apply IH; exact Hkeys].
    apply NoDup_cons. split; [| apply IH; exact Hkeys].
    intros Hin. apply Hk. apply list_elem_of_In in Hin.
    apply in_map_iff in Hin as (e & He & Hin). apply filter_In in Hin as [Hin _].
    apply list_elem_of_In. apply in_map_iff. eauto.
  - unfold sessionDelete. rewrite List.Forall_forall in *.
    intros e Hin. apply filter_In in Hin as [Hin _]. apply Hown. exact Hin.
  - exact Hclear.
  - unfold clearInterval. apply NoDup_ListNoDup.
    apply List.NoDup_filter. apply NoDup_ListNoDup. exact Hnd.
  - rewrite List.Forall_forall in *. intros t Hin.
    apply Hlt. apply (clearInterval_incl _ _ _ Hin).
Qed.

Lemma cleanup_consistent l :
  loggerConsistent l -> loggerConsistent (cleanup l).
Proof.
  intros [Hkeys Hown Hlive Hnd Hlt]. unfold cleanup.
  assert (Hnone :
    fold_left (fun live e => clearInterval (session_intervalId (snd e)) live)
      (activeSessions l) (liveIntervals l) = []).
  { rewrite clear_all_sessions, Hlive.
    generalize (map (fun e => session_intervalId (snd e)) (activeSessions l))
      as ids. intros ids.
    assert (H : forall sub, incl sub ids ->
                List.filter (fun t => negb (existsb (Z.eqb t) ids)) sub = []).
    { induction sub as [| t sub IH]; intros Hincl; [reflexivity |].
      simpl.
      assert (Hex : existsb (Z.eqb t) ids = true).
      { apply existsb_exists. exists t. split; [| apply Z.eqb_refl].
        apply Hincl. left. reflexivity. }
      rewrite Hex. simpl. apply IH.
      intros x Hx. apply Hincl. right. exact Hx. }
    apply H. apply incl_refl. }
  split; simpl; rewrite ?Hnone; constructor.
Qed.

Lemma newLogger_consistent : loggerConsistent newLogger.
Proof. split; simpl; constructor. Qed.

Lemma loggerCalls_consistent cs :
  forall l, loggerConsistent l -> loggerConsistent (loggerCalls cs l).
Proof.
  induction cs as [| c rest IH]; intros l Hl; [exact Hl |].
  simpl. apply IH. destruct c; simpl.
  - apply start_consistent. exact Hl.
  - apply stop_consistent. exact Hl.
  - apply cleanup_consistent. exact Hl.
Qed.

Lemma start_then_running userId now l :
  sessionGet userId (activeSessions (startHourlyLogging userId now l)) <> None.
Proof.
  unfold startHourlyLogging.
  destruct (sessionGet userId (activeSessions l)) eqn:Hget.
  - rewrite Hget. discriminate.
  - simpl. rewrite sessionSet_fresh, sessionGet_append, Hget by exact Hget.
    rewrite String.eqb_refl. discriminate.
Qed.

Lemma start_idempotent userId now later l :
  startHourlyLogging userId later (startHourlyLogging userId now l)
  = startHourlyLogging userId now l.
Proof.
  unfold startHourlyLogging at 1.
  destruct (sessionGet userId
              (activeSessions (startHourlyLogging userId now l))) eqn:Hget;
    [reflexivity |].
  exfalso. exact (start_then_running userId now l Hget).
Qed.

(** X10. Whatever calls are made on a new logger (start, stop,
    cleanup, in any order and for any users), the live interval timers
    are exactly the timers of the active sessions, one each and in the
    same order: no timer outlives its session and no session is without
    its timer; there is at most one session per user. Starting a user
    who is already logged changes nothing, stopping leaves the user
    without a session, and cleanup leaves no session and no timer. *)
Theorem logging_sessions_and_timers_agree :
  (forall cs, loggerConsistent (loggerCalls cs newLogger)) /\
  (forall cs,
      length (liveIntervals (loggerCalls cs newLogger)) =
      length (activeSessions (loggerCalls cs newLogger))) /\
  (forall userId now later l,
      startHourlyLogging userId later (startHourlyLogging userId now l)
      = startHourlyLogging userId now l) /\
  (forall userId now l,
      sessionGet userId (activeSessions (startHourlyLogging userId now l))
      <> None) /\
  (forall userId l,
      sessionGet userId (activeSessions (stopHourlyLogging userId l)) = None) /\
  (forall userId l,
      sessionGet userId (activeSessions l) = None ->
      stopHourlyLogging userId l = l) /\
  (forall l,
      loggerConsistent l ->
      activeSessions (cleanup l) = [] /\ liveIntervals (cleanup l) = []).
Proof.
  split; [intros cs; apply loggerCalls_consistent, newLogger_consistent |].
  split.
  { intros cs.
    destruct (loggerCalls_consistent cs newLogger newLogger_consistent)
      as [_ _ Hlive _ _].
    rewrite Hlive. apply length_map. }
  split; [exact start_idempotent |].
  split; [exact start_then_running |].
  split.
  { intros userId l. unfold stopHourlyLogging.
    destruct (sessionGet userId (activeSessions l)) eqn:Hget;
      [apply sessionGet_delete_same | exact Hget]. }
  split.
  { intros userId l Hget. unfold stopHourlyLogging. rewrite Hget.
    reflexivity. }
  intros l Hl. split; [reflexivity |].
  destruct (cleanup_consistent l Hl) as [_ _ Hlive _ _]. exact Hlive.
Qed.

Lemma logging_sessions_and_timers_agree_witness :
  stopHourlyLogging "7" newLogger = newLogger /\
  liveIntervals
    (cleanup (loggerCalls [CallStart "7" 10; CallStart "8" 20] newLogger))
  = [].
Proof.
  destruct logging_sessions_and_timers_agree
    as (Hcons & _ & _ & _ & _ & Hstop & Hclean).
  split.
  - apply Hstop. reflexivity.
  - apply Hclean. apply Hcons.
Defined.

(** ** The socket handlers *)

Lemma mapGet_mapSet_same key ws registry :
  mapGet key (mapSet key ws registry) = Some ws.
Proof.
  induction registry as [| [k v] rest IH]; simpl.
  - rewrite String.eqb_refl. reflexivity.
  - destruct (String.eqb_spec k key) as [-> | Hne]; simpl.
    + rewrite String.eqb_refl. reflexivity.
    + destruct (String.eqb_spec k key); [contradiction | exact IH].
Qed.

Lemma mapGet_mapSet_other key other ws registry :
  other <> key ->
  mapGet other (mapSet key ws registry) = mapGet other registry.
Proof.
  intros Hne. induction registry as [| [k v] rest IH]; simpl.
  - destruct (String.eqb_spec key other); [congruence | reflexivity].
  - destruct (String.eqb_spec k key) as [-> | Hk]; simpl.
    + destruct (String.eqb_spec key other); [congruence | reflexivity].
    + destruct (String.eqb_spec k other); [reflexivity | exact IH].
Qed.

Lemma mapSet_keys key ws registry :
  map fst (mapSet key ws registry) =
  if existsb (String.eqb key) (map fst registry)
  then map fst registry
  else map fst registry ++ [key].
Proof.
  induction registry as [| [k v] rest IH]; simpl; [reflexivity |].
  rewrite (String.eqb_sym key k).
  destruct (String.eqb_spec k key) as [-> | Hk]; simpl; [reflexivity |].
  rewrite IH. destruct (existsb _ _); reflexivity.
Qed.

Lemma mapSet_NoDup key ws registry :
  NoDup (map fst registry) -> NoDup (map fst (mapSet key ws registry)).
Proof.
  intros Hnd. rewrite mapSet_keys.
  destruct (existsb (String.eqb key) (map fst registry)) eqn:Hex;
    [exact Hnd |].
  apply NoDup_app. split; [exact Hnd |]. split; [| apply NoDup_singleton].
  intros k Hk Hin. apply list_elem_of_singleton in Hin. subst k.
  assert (Htrue : existsb (String.eqb key) (map fst registry) = true).
  { apply existsb_exists. exists key. split;
      [apply list_elem_of_In; exact Hk | apply String.eqb_refl]. }
  congruence.
Qed.

(** The entries of a registry of distinct keys after [set]: the new one,
    and the old ones under other keys. *)
Lemma mapSet_In key ws registry k client :
  NoDup (map fst registry) ->
  In (k, client) (mapSet key ws registry) <->
  (k = key /\ client = ws) \/ (k <> key /\ In (k, client) registry).
Proof.
  induction registry as [| [k0 v0] rest IH]; simpl; intros Hnd.
  - split.
    + intros [[= <- <-] | []]. left. auto.
    + intros [[-> ->] | [_ []]]. left. reflexivity.
  - apply NoDup_cons in Hnd as [Hk0 Hnd].
    destruct (String.eqb_spec k0 key) as [-> | Hk]; simpl.
    + assert (Hother : forall c, In (k, c) rest -> k <> key).
      { intros c Hin ->. apply Hk0. apply list_elem_of_In.
        apply (in_map fst _ _ Hin). }
      split.
      * intros [[= <- <-] | Hin]; [left; auto |].
        right. split; [exact (Hother _ Hin) | right; exact Hin].
      * intros [[-> ->] | [Hne [[= <- <-] | Hin]]];
          [left; reflexivity | contradiction | right; exact Hin].
    + rewrite (IH Hnd). split.
      * intros [[= <- <-] | [Hl | [Hne Hr]]].
        -- right. split; [exact Hk | left; reflexivity].
        -- left. exact Hl.
        -- right. split; [exact Hne | right; exact Hr].
      * intros [Hl | [Hne [Heq | Hr]]].
        -- right. left. exact Hl.
        -- left. exact Heq.
        -- right. right. split; assumption.
Qed.

Lemma onMessage_logger_consistent storage ws message sv :
  loggerConsistent (sv_logger sv) ->
  loggerConsistent (sv_logger (onMessage storage ws message sv)).
Proof.
  intros Hl. unfold onMessage.
  destruct message as [| type userId]; [exact Hl |].
  destruct (isAuth type userId) as [id |]; [| exact Hl].
  destruct (getUser storage id) as [[user |] |]; try exact Hl.
  destruct (historyEnabled user); [| exact Hl].
  simpl. apply start_consistent. exact Hl.
Qed.

Lemma onMessage_auth_world storage ws type userId id sv :
  isAuth type userId = Some id ->
  sv_world (onMessage storage ws (Parsed type userId) sv)
  = set_clients (mapSet (toString id) ws) (sv_world sv).
Proof.
  intros Hauth. unfold onMessage. rewrite Hauth. cbv zeta.
  destruct (getUser storage id) as [[user |] |]; try reflexivity.
  destruct (historyEnabled user); reflexivity.
Qed.

Lemma onMessage_auth_logger storage ws type userId id sv :
  isAuth type userId = Some id ->
  sv_logger (onMessage storage ws (Parsed type userId) sv)
  = match getUser storage id with
    | Resolved (Some user) =>
        if historyEnabled user
        then startHourlyLogging (toString id) (clock (sv_world sv))
               (sv_logger sv)
        else sv_logger sv
    | _ => sv_logger sv
    end.
Proof.
  intros Hauth. unfold onMessage. rewrite Hauth. cbv zeta.
  destruct (getUser storage id) as [[user |] |]; try reflexivity.
  destruct (historyEnabled user); reflexivity.
Qed.

(** X11. An [auth] message with a non-zero user id files the socket
    under that user in the registry, replacing whatever socket was filed
    there and leaving the entries of all other users as they were; the
    keys of the registry stay distinct. If the user is found with
    location history enabled, hourly logging is running for the user
    afterwards; if the user is unknown, has history disabled or cannot
    be read, the logger is left alone. Any other message, and a message
    that does not parse, leaves the registry and the logger unchanged.
    The timers and the sessions of the logger keep agreeing. *)
Theorem auth_message_registers_the_socket :
  forall storage ws message sv,
    let sv' := onMessage storage ws message sv in
    (forall type userId id,
        message = Parsed type userId ->
        isAuth type userId = Some id ->
        mapGet (toString id) (clients (sv_world sv')) = Some ws /\
        (forall key, key <> toString id ->
            mapGet key (clients (sv_world sv'))
            = mapGet key (clients (sv_world sv))) /\
        (forall user,
            getUser storage id = Resolved (Some user) ->
            historyEnabled user = true ->
            sessionGet (toString id) (activeSessions (sv_logger sv'))
            <> None) /\
        ((getUser storage id = Rejected \/
          getUser storage id = Resolved None \/
          exists user, getUser storage id = Resolved (Some user) /\
                       historyEnabled user = false) ->
         sv_logger sv' = sv_logger sv)) /\
    (forall type userId,
        message = Parsed type userId -> isAuth type userId = None ->
        sv' = sv) /\
    (message = Unparsable ->
     sv_world sv' = sv_world sv /\ sv_logger sv' = sv_logger sv) /\
    (NoDup (map fst (clients (sv_world sv))) ->
     NoDup (map fst (clients (sv_world sv')))) /\
    (loggerConsistent (sv_logger sv) -> loggerConsistent (sv_logger sv')).
Proof.
  intros storage ws message sv sv'. subst sv'.
  split; [| split; [| split; [| split]]].
  - intros type userId id -> Hauth.
    rewrite (onMessage_auth_world storage ws type userId id sv Hauth).
    rewrite (onMessage_auth_logger storage ws type userId id sv Hauth).
    split; [| split; [| split]].
    + simpl. apply mapGet_mapSet_same.
    + intros key Hne. simpl. apply mapGet_mapSet_other. exact Hne.
    + intros user Huser Henabled. rewrite Huser, Henabled.
      apply start_then_running.
    + intros [Hu | [Hu | (user & Hu & Hoff)]]; rewrite Hu;
        try reflexivity.
      rewrite Hoff. reflexivity.
  - intros type userId -> Hauth. unfold onMessage. rewrite Hauth. reflexivity.
  - intros ->. split; reflexivity.
  - intros Hnd.
    destruct message as [| type userId]; [exact Hnd |].
    destruct (isAuth type userId) as [id |] eqn:Hauth.
    + rewrite (onMessage_auth_world storage ws type userId id sv Hauth).
      simpl. apply mapSet_NoDup. exact Hnd.
    + unfold onMessage. rewrite Hauth. exact Hnd.
  - apply onMessage_logger_consistent.
Qed.

Lemma auth_message_registers_the_socket_witness :
  mapGet (toString 1)
    (clients (sv_world (onMessage (sampleStorage [] [] [] None) 11
                          (Parsed (Some "auth") (Some 1)) newServer)))
  = Some 11 /\
  sessionGet (toString 1)
    (activeSessions
       (sv_logger (onMessage (sampleStorage [] [] [] None) 11
                     (Parsed (Some "auth") (Some 1)) newServer)))
  <> None.
Proof.
  destruct (auth_message_registers_the_socket (sampleStorage [] [] [] None) 11
              (Parsed (Some "auth") (Some 1)) newServer) as (Hauth & _).
  destruct (Hauth (Some "auth") (Some 1) 1 eq_refl eq_refl)
    as (Hget & _ & Hlog & _).
  split; [exact Hget |].
  apply (Hlog jane); reflexivity.
Defined.

(** *** Closing a socket *)

Lemma stop_get_other key other l :
  other <> key ->
  sessionGet other (activeSessions (stopHourlyLogging key l))
  = sessionGet other (activeSessions l).
Proof.
  intros Hne. unfold stopHourlyLogging.
  destruct (sessionGet key (activeSessions l)); [| reflexivity].
  simpl. apply sessionGet_delete_other. exact Hne.
Qed.

Lemma stop_get_same key l :
  sessionGet key (activeSessions (stopHourlyLogging key l)) = None.
Proof.
  unfold stopHourlyLogging.
  destruct (sessionGet key (activeSessions l)) eqn:Hget;
    [apply sessionGet_delete_same | exact Hget].
Qed.

Lemma stops_get keys :
  forall key l,
    sessionGet key
      (activeSessions (fold_left (fun l k => stopHourlyLogging k l) keys l))
    = if existsb (String.eqb key) keys then None
      else sessionGet key (activeSessions l).
Proof.
  induction keys as [| k rest IH]; intros key l; [reflexivity |].
  simpl. rewrite IH.
  destruct (String.eqb_spec key k) as [-> | Hne]; simpl.
  - rewrite stop_get_same. destruct (existsb _ _); reflexivity.
  - rewrite stop_get_other by exact Hne. reflexivity.
Qed.

Lemma stops_consistent keys :
  forall l,
    loggerConsistent l ->
    loggerConsistent (fold_left (fun l k => stopHourlyLogging k l) keys l).
Proof.
  induction keys as [| k rest IH]; intros l Hl; [exact Hl |].
  simpl. apply IH. apply stop_consistent. exact Hl.
Qed.

(** X12. When a socket closes, every registry entry that holds it is
    removed and no other entry is touched; hourly logging is stopped for
    exactly the users of the removed entries and keeps running for every
    other user; afterwards no broadcast writes to the closed socket. The
    timers and the sessions of the logger keep agreeing. *)
Theorem close_unregisters_and_stops_logging :
  forall ws sv,
    let sv' := onClose ws sv in
    (forall key client,
        In (key, client) (clients (sv_world sv')) <->
        In (key, client) (clients (sv_world sv)) /\ client <> ws) /\
    (forall key,
        In key (keysOf ws (clients (sv_world sv))) ->
        sessionGet key (activeSessions (sv_logger sv')) = None) /\
    (forall key,
        ~ In key (keysOf ws (clients (sv_world sv))) ->
        sessionGet key (activeSessions (sv_logger sv'))
        = sessionGet key (activeSessions (sv_logger sv))) /\
    (forall notification frame,
        ~ In (ws, frame) (broadcastFrames notification (sv_world sv'))) /\
    (loggerConsistent (sv_logger sv) -> loggerConsistent (sv_logger sv')).
Proof.
  intros ws sv sv'. subst sv'. unfold onClose. cbn [sv_world sv_logger].
  assert (Hentries : forall key client,
             In (key, client)
                (List.filter (fun e => negb (snd e =? ws))
                   (clients (sv_world sv))) <->
             In (key, client) (clients (sv_world sv)) /\ client <> ws).
  { intros key client. rewrite filter_In. cbn [snd].
    rewrite negb_true_iff, Z.eqb_neq. reflexivity. }
  split; [exact Hentries |]. split; [| split; [| split]].
  - intros key Hin. rewrite stops_get.
    assert (Hex : existsb (String.eqb key)
                    (keysOf ws (clients (sv_world sv))) = true).
    { apply existsb_exists. exists key. split;
        [exact Hin | apply String.eqb_refl]. }
    rewrite Hex. reflexivity.
  - intros key Hnot. rewrite stops_get.
    destruct (existsb (String.eqb key) (keysOf ws (clients (sv_world sv))))
      eqn:Hex; [| reflexivity].
    exfalso. apply Hnot. apply existsb_exists in Hex as (k & Hk & Heq).
    apply String.eqb_eq in Heq. subst k. exact Hk.
  - intros notification frame Hin. unfold broadcastFrames in Hin.
    apply in_map_iff in Hin as ([key client] & Heq & Hin).
    apply filter_In in Hin as [Hin _]. cbn [snd] in Heq.
    injection Heq as -> _.
    apply (Hentries key ws) in Hin as [_ Hne]. contradiction.
  - apply stops_consistent.
Qed.

Lemma close_unregisters_and_stops_logging_witness :
  sessionGet (toString 1)
    (activeSessions
       (sv_logger
          (onClose 11
             (onMessage (sampleStorage [] [] [] None) 11
                (Parsed (Some "auth") (Some 1)) newServer))))
  = None.
Proof.
  destruct (close_unregisters_and_stops_logging 11
              (onMessage (sampleStorage [] [] [] None) 11
                 (Parsed (Some "auth") (Some 1)) newServer))
    as (_ & Hstop & _).
  apply Hstop. vm_compute. left. reflexivity.
Defined.

(** *** A user who reconnects *)

Lemma mapGet_after_close key client ws registry :
  mapGet key registry = Some client ->
  client <> ws ->
  mapGet key (List.filter (fun e => negb (snd e =? ws)) registry)
  = Some client.
Proof.
  intros Hget Hne. induction registry as [| [k v] rest IH]; [discriminate |].
  simpl in *. destruct (String.eqb_spec k key) as [-> | Hk].
  - injection Hget as ->.
    destruct (Z.eqb_spec client ws); [contradiction |]. simpl.
    rewrite String.eqb_refl. reflexivity.
  - destruct (negb (v =? ws)); simpl.
    + destruct (String.eqb_spec k key); [contradiction | apply IH; exact Hget].
    + apply IH. exact Hget.
Qed.

Lemma keysOf_In key ws registry :
  In key (keysOf ws registry) <-> In (key, ws) registry.
Proof.
  unfold keysOf. rewrite in_map_iff. split.
  - intros ([k c] & <- & Hin). apply filter_In in Hin as [Hin Heq].
    cbn [snd fst] in *. apply Z.eqb_eq in Heq. subst c. exact Hin.
  - intros Hin. exists (key, ws). split; [reflexivity |].
    apply filter_In. split; [exact Hin | apply Z.eqb_refl].
Qed.

(** X13. A user registers on one socket, registers again on another
    socket without the first one having closed, and then the first
    socket closes (the registry keys being distinct). The user stays
    registered on the second socket and the logging session of the user
    is not stopped by the close. From the second registration on, the
    first socket, if no other user is registered on it, receives no
    broadcast although it is still open. *)
Theorem reconnecting_user_survives_old_close :
  forall storage sv id old new type1 userId1 type2 userId2,
    NoDup (map fst (clients (sv_world sv))) ->
    isAuth type1 userId1 = Some id ->
    isAuth type2 userId2 = Some id ->
    old <> new ->
    let sv2 :=
      onMessage storage new (Parsed type2 userId2)
        (onMessage storage old (Parsed type1 userId1) sv) in
    let sv3 := onClose old sv2 in
    mapGet (toString id) (clients (sv_world sv3)) = Some new /\
    sessionGet (toString id) (activeSessions (sv_logger sv3))
    = sessionGet (toString id) (activeSessions (sv_logger sv2)) /\
    ((forall key, In (key, old) (clients (sv_world sv)) -> key = toString id) ->
     forall notification frame,
       ~ In (old, frame) (broadcastFrames notification (sv_world sv2))).
Proof.
  intros storage sv id old new type1 userId1 type2 userId2
    Hnd Hauth1 Hauth2 Hne sv2 sv3.
  set (sv1 := onMessage storage old (Parsed type1 userId1) sv) in *.
  assert (Hw1 : clients (sv_world sv1)
                = mapSet (toString id) old (clients (sv_world sv))).
  { unfold sv1. rewrite (onMessage_auth_world _ _ _ _ id sv Hauth1).
    reflexivity. }
  assert (Hnd1 : NoDup (map fst (clients (sv_world sv1)))).
  { rewrite Hw1. apply mapSet_NoDup. exact Hnd. }
  assert (Hw2 : clients (sv_world sv2)
                = mapSet (toString id) new (clients (sv_world sv1))).
  { unfold sv2. rewrite (onMessage_auth_world _ _ _ _ id sv1 Hauth2).
    reflexivity. }
  assert (Hheld : forall key, In (key, old) (clients (sv_world sv2)) ->
                  key <> toString id /\ In (key, old) (clients (sv_world sv))).
  { intros key Hin. rewrite Hw2 in Hin.
    apply (mapSet_In _ _ _ _ _ Hnd1) in Hin as [[_ Heq] | [Hk Hin]];
      [congruence |].
    rewrite Hw1 in Hin.
    apply (mapSet_In _ _ _ _ _ Hnd) in Hin as [[Heq _] | [_ Hin]];
      [contradiction |].
    split; assumption. }
  split; [| split].
  - unfold sv3, onClose. cbn [sv_world]. simpl.
    apply mapGet_after_close; [| congruence].
    rewrite Hw2. apply mapGet_mapSet_same.
  - unfold sv3, onClose. cbn [sv_logger]. rewrite stops_get.
    destruct (existsb (String.eqb (toString id))
                (keysOf old (clients (sv_world sv2)))) eqn:Hex;
      [| reflexivity].
    exfalso. apply existsb_exists in Hex as (k & Hk & Heq).
    apply String.eqb_eq in Heq. subst k.
    apply keysOf_In, Hheld in Hk as [Hk _]. apply Hk. reflexivity.
  - intros Honly notification frame Hin. unfold broadcastFrames in Hin.
    apply in_map_iff in Hin as ([key client] & Heq & Hin).
    apply filter_In in Hin as [Hin _]. cbn [snd] in Heq.
    injection Heq as -> _.
    apply Hheld in Hin as [Hk Hin]. apply Hk, Honly. exact Hin.
Qed.

Lemma reconnecting_user_survives_old_close_witness :
  mapGet (toString 1)
    (clients
       (sv_world
          (onClose 11
             (onMessage (sampleStorage [] [] [] None) 12
                (Parsed (Some "auth") (Some 1))
                (onMessage (sampleStorage [] [] [] None) 11
                   (Parsed (Some "auth") (Some 1)) newServer)))))
  = Some 12.
Proof.
  apply (reconnecting_user_survives_old_close (sampleStorage [] [] [] None)
           newServer 1 11 12 (Some "auth") (Some 1) (Some "auth") (Some 1)).
  - simpl. apply NoDup_nil_2.
  - reflexivity.
  - reflexivity.
  - lia.
Defined.

(** ** The answer of the ingest handler *)

Lemma postLocations_locationRows storage userId locationData location user
    familyMembers w :
  saveLocation storage locationData = Resolved location ->
  getUser storage userId = Resolved user ->
  getFamilyMembers storage userId = Resolved familyMembers ->
  locationRows (snd (postLocations storage userId (Resolved locationData) w))
  = locationRows w ++ [locationData].
Proof.
  intros Hsave Huser Hfam.
  rewrite (postLocations_run storage userId locationData location user
             familyMembers w Hsave Huser Hfam).
  cbn [snd].
  rewrite (broadcastLocationUpdate_keeps storage (same locationRows))
    by (intros; reflexivity).
  rewrite (checkGeofenceTransitions_keeps storage userId (same locationRows))
    by (intros; reflexivity).
  destruct (_ && _); [| reflexivity].
  rewrite (notifyMoved_keeps storage (same locationRows))
    by (intros; reflexivity).
  reflexivity.
Qed.

(** X14. The handler of a ping never rejects. It answers with the saved
    location exactly when the body parses, the row is saved, and the
    mover and the family are read; otherwise it answers with status 500.
    The location row is stored as soon as the body parses and the save
    succeeds: when reading the mover or the family fails after that, the
    answer is 500 although the ping has been stored, and neither the
    geofence check nor the push to the family takes place. A failure of
    the geofence check or of the push never changes the answer. *)
Theorem ingest_answer_and_stored_row :
  forall storage userId parsed w,
    let run := postLocations storage userId parsed w in
    (forall location,
        fst run = Resolved (Json location) <->
        exists locationData user familyMembers,
          parsed = Resolved locationData /\
          saveLocation storage locationData = Resolved location /\
          getUser storage userId = Resolved user /\
          getFamilyMembers storage userId = Resolved familyMembers) /\
    ((forall location, fst run <> Resolved (Json location)) ->
     fst run = Resolved Status500 /\
     userGeofenceStates (snd run) = userGeofenceStates w /\
     wire (snd run) = wire w) /\
    (forall locationData location,
        parsed = Resolved locationData ->
        saveLocation storage locationData = Resolved location ->
        locationRows (snd run) = locationRows w ++ [locationData]) /\
    ((parsed = Rejected \/
      exists locationData,
        parsed = Resolved locationData /\
        saveLocation storage locationData = Rejected) ->
     locationRows (snd run) = locationRows w).
Proof.
  intros storage userId parsed w run. subst run.
  destruct parsed as [locationData |].
  2:{ split; [| split; [| split]].
      - intros location. split; [discriminate |].
        intros (d & _ & _ & Hd & _). discriminate.
      - intros _. simpl. auto.
      - intros d location Hd. discriminate.
      - intros _. reflexivity. }
  destruct (saveLocation storage locationData) as [location |] eqn:Hsave.
  2:{ assert (Hrun : postLocations storage userId (Resolved locationData) w
                     = (Resolved Status500,
                        add_console LogErrorSavingLocation w)).
      { unfold postLocations, tryCatch. unfold bind at 1, await.
        unfold bind at 1, saveLocationM. rewrite Hsave. reflexivity. }
      rewrite Hrun. cbn [fst snd]. split; [| split; [| split]].
      - intros loc. split; [discriminate |].
        intros (d & u & f & [= <-] & Hs & _). congruence.
      - auto.
      - intros d loc [= <-] Hs. congruence.
      - reflexivity. }
  destruct (getUser storage userId) as [user |] eqn:Huser.
  2:{ assert (Hrun : postLocations storage userId (Resolved locationData) w
                     = (Resolved Status500,
                        add_console LogErrorSavingLocation
                          (add_locationRow locationData w))).
      { unfold postLocations, tryCatch. unfold bind at 1, await.
        unfold bind at 1, saveLocationM. rewrite Hsave.
        unfold bind at 1, await. rewrite Huser. reflexivity. }
      rewrite Hrun. cbn [fst snd]. split; [| split; [| split]].
      - intros loc. split; [discriminate |].
        intros (d & u & f & _ & _ & Hu & _). discriminate.
      - auto.
      - intros d loc [= <-] _. reflexivity.
      - intros [H | (d & [= <-] & H)]; congruence. }
  destruct (getFamilyMembers storage userId) as [familyMembers |] eqn:Hfam.
  2:{ assert (Hrun : postLocations storage userId (Resolved locationData) w
                     = (Resolved Status500,
                        add_console LogErrorSavingLocation
                          (add_locationRow locationData w))).
      { unfold postLocations, tryCatch. unfold bind at 1, await.
        unfold bind at 1, saveLocationM. rewrite Hsave.
        unfold bind at 1, await. rewrite Huser.
        unfold bind at 1. rewrite Hfam. reflexivity. }
      rewrite Hrun. cbn [fst snd]. split; [| split; [| split]].
      - intros loc. split; [discriminate |].
        intros (d & u & f & _ & _ & _ & Hf). discriminate.
      - auto.
      - intros d loc [= <-] _. reflexivity.
      - intros [H | (d & [= <-] & H)]; congruence. }
  pose proof (postLocations_run storage userId locationData location user
                familyMembers w Hsave Huser Hfam) as Hrun.
  cbv zeta in Hrun.
  pose proof (postLocations_locationRows storage userId locationData location
                user familyMembers w Hsave Huser Hfam) as Hrows.
  rewrite Hrun in *. cbn [fst snd] in *.
  split; [| split; [| split]].
  - intros loc. split.
    + intros [= <-]. exists locationData, user, familyMembers. auto.
    + intros (d & u & f & [= <-] & Hs & _).
      rewrite Hsave in Hs. injection Hs as ->. reflexivity.
  - intros Hnever. exfalso. apply (Hnever location). reflexivity.
  - intros d loc [= <-] _. exact Hrows.
  - intros [H | (d & [= <-] & H)]; congruence.
Qed.

Lemma ingest_answer_and_stored_row_witness :
  let run := postLocations (usersDown []) 1 (Resolved samplePing)
               (freshWorld 0) in
  fst run = Resolved Status500 /\ locationRows (snd run) = [samplePing].
Proof.
  destruct (ingest_answer_and_stored_row (usersDown []) 1
              (Resolved samplePing) (freshWorld 0))
    as (Hjson & H500 & Hrow & _).
  split.
  - apply H500. intros location Heq.
    apply Hjson in Heq as (d & u & f & _ & _ & Hu & _). discriminate.
  - apply (Hrow samplePing
             (mkLocation 100 1 0 0 None None "manual" (Some 0))
             eq_refl eq_refl).
Defined.

(** ** Pings of different users *)

Lemma lastNotificationTimeOf_other w userId other t :
  userId <> other ->
  lastNotificationTimeOf
    (set_lastLocationNotification
       (Some (<[toString userId := t]>
                (default ∅ (lastLocationNotification w)))) w) other
  = lastNotificationTimeOf w other.
Proof.
  intros Hne. unfold lastNotificationTimeOf. simpl.
  rewrite lookup_insert_ne by (intros Heq; apply Hne, toString_inj, Heq).
  destruct (lastLocationNotification w); [reflexivity |].
  simpl. rewrite lookup_empty. reflexivity.
Qed.

Lemma notifyMoved_other_rows storage userId other userName location
    familyMembers w :
  userId <> other ->
  movedRows other
    (snd (notifyMoved storage userId userName location familyMembers w))
  = movedRows other w.
Proof.
  intros Hne. unfold movedRows. rewrite notifyMoved_rows, List.filter_app.
  rewrite <- (app_nil_r (List.filter (isMovedRow other) (notificationRows w)))
    at 2.
  f_equal.
  induction familyMembers as [| familyMember rest IH]; [reflexivity |].
  cbn [map List.filter].
  destruct (accepted storage _); [| exact IH].
  cbn [List.filter]. unfold isMovedRow at 1, movedRow at 1. simpl.
  destruct (Z.eqb_spec userId other); [contradiction | exact IH].
Qed.

Lemma postLocations_other_user storage userId other parsed w :
  userId <> other ->
  let w' := snd (postLocations storage userId parsed w) in
  lastNotificationTimeOf w' other = lastNotificationTimeOf w other /\
  movedRows other w' = movedRows other w /\
  userGeofenceStates w' !! toString other
  = userGeofenceStates w !! toString other.
Proof.
  intros Hne w'. subst w'.
  assert (Hearly : forall w1,
    lastNotificationTimeOf w1 other = lastNotificationTimeOf w other ->
    movedRows other w1 = movedRows other w ->
    userGeofenceStates w1 = userGeofenceStates w ->
    let w' := add_console LogErrorSavingLocation w1 in
    lastNotificationTimeOf w' other = lastNotificationTimeOf w other /\
    movedRows other w' = movedRows other w /\
    userGeofenceStates w' !! toString other
    = userGeofenceStates w !! toString other).
  { intros w1 H1 H2 H3. cbv zeta. split; [exact H1 |].
    split; [exact H2 |]. simpl. rewrite H3. reflexivity. }
  destruct parsed as [locationData |];
    [| apply (Hearly w); reflexivity].
  destruct (saveLocation storage locationData) as [location |] eqn:Hsave.
  2:{ replace (postLocations storage userId (Resolved locationData) w)
        with (Resolved Status500, add_console LogErrorSavingLocation w).
      - apply (Hearly w); reflexivity.
      - unfold postLocations, tryCatch. unfold bind at 1, await.
        unfold bind at 1, saveLocationM. rewrite Hsave. reflexivity. }
  destruct (getUser storage userId) as [user |] eqn:Huser.
  2:{ replace (postLocations storage userId (Resolved locationData) w)
        with (Resolved Status500,
              add_console LogErrorSavingLocation
                (add_locationRow locationData w)).
      - apply (Hearly (add_locationRow locationData w)); reflexivity.
      - unfold postLocations, tryCatch. unfold bind at 1, await.
        unfold bind at 1, saveLocationM. rewrite Hsave.
        unfold bind at 1, await. rewrite Huser. reflexivity. }
  destruct (getFamilyMembers storage userId) as [familyMembers |] eqn:Hfam.
  2:{ replace (postLocations storage userId (Resolved locationData) w)
        with (Resolved Status500,
              add_console LogErrorSavingLocation
                (add_locationRow locationData w)).
      - apply (Hearly (add_locationRow locationData w)); reflexivity.
      - unfold postLocations, tryCatch. unfold bind at 1, await.
        unfold bind at 1, saveLocationM. rewrite Hsave.
        unfold bind at 1, await. rewrite Huser.
        unfold bind at 1. rewrite Hfam. reflexivity. }
  rewrite (postLocations_run storage userId locationData location user
             familyMembers w Hsave Huser Hfam).
  cbn [snd].
  set (w0 := add_locationRow locationData w).
  set (w1 := if _ && _ then _ else w0).
  assert (H1 : lastNotificationTimeOf w1 other = lastNotificationTimeOf w other
               /\ movedRows other w1 = movedRows other w
               /\ userGeofenceStates w1 = userGeofenceStates w).
  { subst w1. destruct (_ && _); [| auto].
    split; [| split].
    - unfold lastNotificationTimeOf at 1.
      rewrite (notifyMoved_keeps storage (same lastLocationNotification))
        by (intros; reflexivity).
      apply (lastNotificationTimeOf_other w userId other (clock w) Hne).
    - rewrite notifyMoved_other_rows by exact Hne. reflexivity.
    - rewrite notifyMoved_keeps_states. reflexivity. }
  destruct H1 as (Hlast1 & Hrows1 & Hstates1).
  set (w2 := snd (checkGeofenceTransitions storage userId _ _ w1)).
  assert (H2 : lastNotificationTimeOf w2 other = lastNotificationTimeOf w other
               /\ movedRows other w2 = movedRows other w
               /\ userGeofenceStates w2 !! toString other
                  = userGeofenceStates w !! toString other).
  { subst w2. split; [| split].
    - unfold lastNotificationTimeOf at 1. rewrite check_keeps_throttle.
      exact Hlast1.
    - rewrite check_keeps_movedRows. exact Hrows1.
    - destruct (check_states_cases storage userId (loc_latitude location)
                  (loc_longitude location) w1) as [-> | (ps & _ & _ & ->)].
      + rewrite Hstates1. reflexivity.
      + rewrite lookup_insert_ne
          by (intros Heq; apply Hne, toString_inj, Heq).
        rewrite Hstates1. reflexivity. }
  destruct H2 as (Hlast2 & Hrows2 & Hstates2).
  split; [| split].
  - unfold lastNotificationTimeOf at 1.
    rewrite (broadcastLocationUpdate_keeps storage
               (same lastLocationNotification)) by (intros; reflexivity).
    exact Hlast2.
  - unfold movedRows at 1.
    rewrite (broadcastLocationUpdate_keeps storage (same notificationRows))
      by (intros; reflexivity).
    exact Hrows2.
  - rewrite (broadcastLocationUpdate_keeps storage (same userGeofenceStates))
      by (intros; reflexivity).
    exact Hstates2.
Qed.

(** X15. The pings of one user, however many, whatever the storage
    answers and whenever they arrive, leave what the server remembers
    about any other user as it was: the time of that user's last "moved"
    announcement, the "moved" rows about that user, and the stored set of
    places of that user. *)
Theorem pings_leave_other_users_alone :
  forall userId other pings w,
    userId <> other ->
    let w' := ingestAll userId pings w in
    lastNotificationTimeOf w' other = lastNotificationTimeOf w other /\
    movedRows other w' = movedRows other w /\
    userGeofenceStates w' !! toString other
    = userGeofenceStates w !! toString other.
Proof.
  intros userId other pings w Hne. cbv zeta. revert w.
  induction pings as [| p rest IH]; intros w; [auto |].
  unfold ingestAll in *. cbn [fold_left].
  destruct (IH (ingestPing userId p w)) as (Hlast & Hrows & Hstates).
  destruct (postLocations_other_user (ping_storage p) userId other
              (ping_body p) (set_clock (ping_time p) w) Hne)
    as (Hlast1 & Hrows1 & Hstates1).
  fold (ingestPing userId p w) in Hlast1, Hrows1, Hstates1.
  split; [| split].
  - rewrite Hlast. exact Hlast1.
  - rewrite Hrows. exact Hrows1.
  - rewrite Hstates. exact Hstates1.
Qed.

Lemma pings_leave_other_users_alone_witness :
  let w' :=
    ingestAll 2
      [mkPing (sampleStorage [home] [jane] [] None) (Resolved samplePing)
         400000]
      (announcedAt 7 0) in
  lastNotificationTimeOf w' 1 = 7 /\
  movedRows 1 w' = [] /\
  userGeofenceStates w' !! toString 1 = None.
Proof.
  apply (pings_leave_other_users_alone 2 1
           [mkPing (sampleStorage [home] [jane] [] None) (Resolved samplePing)
              400000]
           (announcedAt 7 0)).
  lia.
Defined.

(** ** The rows returned by the storage *)

(** *** One row per family member *)

Lemma mapHas_keys key latestLocations :
  mapHas key latestLocations
  = existsb (fun k => k =? key) (map fst latestLocations).
Proof.
  unfold mapHas. induction latestLocations as [| e rest IH]; [reflexivity |].
  simpl. rewrite IH. reflexivity.
Qed.

Lemma latest_fold result :
  forall latestLocations,
    map snd (fold_left latestStep result latestLocations)
    = map snd latestLocations
      ++ firstPerUser (map fst latestLocations) result.
Proof.
  induction result as [| item rest IH]; intros latestLocations.
  - simpl. rewrite app_nil_r. reflexivity.
  - cbn [fold_left firstPerUser]. rewrite IH. unfold latestStep.
    rewrite mapHas_keys.
    destruct (existsb _ (map fst latestLocations)); cbn [negb].
    + reflexivity.
    + rewrite !map_app, <- app_assoc. reflexivity.
Qed.

Lemma getFamilyMembersLocations_first result :
  getFamilyMembersLocations result = firstPerUser [] result.
Proof. unfold getFamilyMembersLocations. rewrite latest_fold. reflexivity. Qed.

Lemma seen_spec (seen : list Z) key :
  existsb (fun k => k =? key) seen = true <-> In key seen.
Proof.
  rewrite existsb_exists. split.
  - intros (k & Hin & Heq). apply Z.eqb_eq in Heq. subst k. exact Hin.
  - intros Hin. exists key. split; [exact Hin | apply Z.eqb_refl].
Qed.

Lemma firstPerUser_unseen result :
  forall seen row,
    In row (firstPerUser seen result) -> ~ In (loc_userId row) seen.
Proof.
  induction result as [| item rest IH]; intros seen row Hin; [destruct Hin |].
  cbn [firstPerUser] in Hin.
  destruct (existsb _ seen) eqn:Hseen.
  - apply IH. exact Hin.
  - destruct Hin as [<- | Hin].
    + intros Hin. apply seen_spec in Hin. congruence.
    + apply IH in Hin. intros Hs. apply Hin, in_or_app. left. exact Hs.
Qed.

Lemma firstPerUser_sublist result :
  forall seen, sublist (firstPerUser seen result) result.
Proof.
  induction result as [| item rest IH]; intros seen; [constructor |].
  cbn [firstPerUser]. destruct (existsb _ seen).
  - apply sublist_cons, IH.
  - apply sublist_skip, IH.
Qed.

Lemma firstPerUser_NoDup result :
  forall seen, List.NoDup (map loc_userId (firstPerUser seen result)).
Proof.
  induction result as [| item rest IH]; intros seen; [constructor |].
  cbn [firstPerUser]. destruct (existsb _ seen); [apply IH |].
  cbn [map]. constructor; [| apply IH].
  intros Hin. apply in_map_iff in Hin as (row & Heq & Hin).
  apply firstPerUser_unseen in Hin. apply Hin, in_or_app. right.
  rewrite Heq. left. reflexivity.
Qed.

Lemma firstPerUser_find member result :
  forall seen,
    List.find (fun row => loc_userId row =? member) (firstPerUser seen result)
    = if existsb (fun k => k =? member) seen then None
      else List.find (fun row => loc_userId row =? member) result.
Proof.
  induction result as [| item rest IH]; intros seen.
  - simpl. destruct (existsb _ seen); reflexivity.
  - cbn [firstPerUser]. destruct (existsb _ seen) eqn:Hseen.
    + rewrite IH. cbn [List.find].
      destruct (existsb (fun k => k =? member) seen) eqn:Hm; [reflexivity |].
      destruct (Z.eqb_spec (loc_userId item) member) as [Heq | _];
        [| reflexivity].
      rewrite Heq in Hseen. congruence.
    + cbn [List.find]. rewrite IH.
      destruct (Z.eqb_spec (loc_userId item) member) as [Heq | Hne].
      * destruct (existsb (fun k => k =? member) seen) eqn:Hm; [| reflexivity].
        rewrite Heq in Hseen. congruence.
      * rewrite existsb_app. cbn [existsb].
        destruct (Z.eqb_spec (loc_userId item) member); [contradiction |].
        rewrite !orb_false_r. reflexivity.
Qed.

Lemma firstPerUser_sorted (later : relation Location) result :
  forall seen row other,
    StronglySorted later result ->
    In row (firstPerUser seen result) ->
    In other result ->
    loc_userId other = loc_userId row ->
    other = row \/ later row other.
Proof.
  induction result as [| item rest IH];
    intros seen row other Hsorted Hrow Hother Hsame; [destruct Hother |].
  apply StronglySorted_inv in Hsorted as [Hrest Hitem].
  cbn [firstPerUser] in Hrow.
  destruct (existsb _ seen) eqn:Hseen.
  - destruct Hother as [<- | Hother].
    + apply firstPerUser_unseen in Hrow. exfalso. apply Hrow.
      apply seen_spec. rewrite <- Hsame. exact Hseen.
    + apply (IH seen); assumption.
  - destruct Hrow as [<- | Hrow].
    + destruct Hother as [<- | Hother]; [left; reflexivity |].
      right. rewrite List.Forall_forall in Hitem. apply Hitem, Hother.
    + destruct Hother as [<- | Hother].
      * apply firstPerUser_unseen in Hrow. exfalso. apply Hrow.
        apply in_or_app. right. left. exact Hsame.
      * apply (IH (seen ++ [loc_userId item])); assumption.
Qed.

(** X16. Of the rows of the query, the storage returns one row per user:
    for every user the first row of that user in the query's order, and
    no row for a user without rows; the rows returned keep the order of
    the query and have pairwise different users. When the rows of the
    query are in some order (the query asks for the latest first), the
    row returned for a user stands in that order before every other row
    of the same user. *)
Theorem latest_row_of_each_member :
  forall result,
    (forall member,
        List.find (fun row => loc_userId row =? member)
          (getFamilyMembersLocations result)
        = List.find (fun row => loc_userId row =? member) result) /\
    List.NoDup (map loc_userId (getFamilyMembersLocations result)) /\
    sublist (getFamilyMembersLocations result) result /\
    (forall (later : relation Location) row other,
        StronglySorted later result ->
        In row (getFamilyMembersLocations result) ->
        In other result ->
        loc_userId other = loc_userId row ->
        other = row \/ later row other).
Proof.
  intros result. rewrite getFamilyMembersLocations_first.
  split; [| split; [| split]].
  - intros member. rewrite firstPerUser_find. reflexivity.
  - apply firstPerUser_NoDup.
  - apply firstPerUser_sublist.
  - intros later row other. apply firstPerUser_sorted.
Qed.

Lemma latest_row_of_each_member_witness :
  pingAt 50 = pingAt 90 \/ notBefore 0 (pingAt 90) (pingAt 50).
Proof.
  destruct (latest_row_of_each_member [pingAt 90; pingAt 50])
    as (_ & _ & _ & Hlatest).
  apply (Hlatest (notBefore 0) (pingAt 90) (pingAt 50)).
  - apply SSorted_cons; [apply SSorted_cons; [apply SSorted_nil |] |].
    + apply List.Forall_nil.
    + apply List.Forall_cons; [| apply List.Forall_nil].
      unfold notBefore, locationTime, pingAt. simpl. lia.
  - left. reflexivity.
  - right. left. reflexivity.
  - reflexivity.
Defined.

(** *** The history of each member *)

Lemma groupStep_lookup groupedHistory item key :
  groupStep groupedHistory item !! key
  = if String.eqb (toString (loc_userId item)) key
    then Some (default [] (groupedHistory !! key) ++ [item])
    else groupedHistory !! key.
Proof.
  unfold groupStep.
  destruct (String.eqb_spec (toString (loc_userId item)) key) as [<- | Hne].
  - rewrite lookup_insert_eq.
    destruct (groupedHistory !! toString (loc_userId item)) eqn:Hget.
    + rewrite Hget. reflexivity.
    + rewrite lookup_insert_eq. reflexivity.
  - rewrite lookup_insert_ne by exact Hne.
    destruct (groupedHistory !! toString (loc_userId item));
      [reflexivity |].
    rewrite lookup_insert_ne by exact Hne. reflexivity.
Qed.

Lemma group_fold key result :
  forall groupedHistory,
    fold_left groupStep result groupedHistory !! key
    = match List.filter
              (fun item => String.eqb (toString (loc_userId item)) key) result
      with
      | [] => groupedHistory !! key
      | rows => Some (default [] (groupedHistory !! key) ++ rows)
      end.
Proof.
  induction result as [| item rest IH]; intros groupedHistory;
    [reflexivity |].
  cbn [fold_left List.filter]. rewrite IH, groupStep_lookup.
  destruct (String.eqb (toString (loc_userId item)) key).
  - cbn [default].
    destruct (List.filter _ rest) as [| row rows]; [reflexivity |].
    unfold Datatypes.id. rewrite <- app_assoc. reflexivity.
  - reflexivity.
Qed.

Lemma rows_of_key member result :
  List.filter
    (fun item => String.eqb (toString (loc_userId item)) (toString member))
    result
  = locationsOf member result.
Proof.
  unfold locationsOf. apply List.filter_ext. intros item.
  destruct (Z.eqb_spec (loc_userId item) member) as [-> | Hne].
  - apply String.eqb_refl.
  - apply String.eqb_neq. intros Heq. apply Hne, toString_inj, Heq.
Qed.

Lemma locationsOf_sublist member result :
  sublist (locationsOf member result) result.
Proof.
  unfold locationsOf. induction result as [| item rest IH]; [constructor |].
  cbn [List.filter]. destruct (loc_userId item =? member).
  - apply sublist_skip, IH.
  - apply sublist_cons, IH.
Qed.

(** X17. The history returned by the storage has one entry per user with
    rows in the query, filed under the decimal text of the user id and
    under no other key; the entry of a user holds the rows of that user
    alone, in the order of the query, thinned by the hourly filter. Rows
    of other users have no influence on it. *)
Theorem history_is_grouped_by_member :
  forall now result,
    (forall member,
        getFamilyLocationHistory now result !! toString member
        = match locationsOf member result with
          | [] => None
          | _ => Some (familyLocationHistory now result member)
          end) /\
    (forall key,
        is_Some (getFamilyLocationHistory now result !! key) <->
        exists item, In item result /\ key = toString (loc_userId item)) /\
    (forall member entry,
        getFamilyLocationHistory now result !! toString member = Some entry ->
        sublist entry result /\
        List.Forall (fun row => loc_userId row = member) entry).
Proof.
  intros now result.
  assert (Hentry : forall member,
    getFamilyLocationHistory now result !! toString member
    = match locationsOf member result with
      | [] => None
      | _ => Some (familyLocationHistory now result member)
      end).
  { intros member. unfold getFamilyLocationHistory, groupHistory.
    rewrite lookup_fmap, group_fold, rows_of_key, lookup_empty.
    unfold familyLocationHistory.
    destruct (locationsOf member result); reflexivity. }
  split; [exact Hentry |]. split.
  - intros key. unfold getFamilyLocationHistory, groupHistory.
    rewrite lookup_fmap, group_fold, lookup_empty. split.
    + intros Hsome.
      destruct (List.filter _ result) as [| row rows] eqn:Hrows.
      * destruct Hsome as [x Hx]. discriminate.
      * assert (Hin : In row (List.filter
                  (fun item => String.eqb (toString (loc_userId item)) key)
                  result)) by (rewrite Hrows; left; reflexivity).
        apply filter_In in Hin as [Hin Heq].
        apply String.eqb_eq in Heq. exists row. auto.
    + intros (item & Hin & ->).
      destruct (List.filter _ result) as [| row rows] eqn:Hrows.
      * exfalso.
        assert (Hin' : In item (List.filter
                  (fun item0 => String.eqb (toString (loc_userId item0))
                                  (toString (loc_userId item)))
                  result)).
        { apply filter_In. split; [exact Hin | apply String.eqb_refl]. }
        rewrite Hrows in Hin'. destruct Hin'.
      * eexists. reflexivity.
  - intros member entry Hget. rewrite Hentry in Hget.
    destruct (locationsOf member result) eqn:Hrows; [discriminate |].
    injection Hget as <-. unfold familyLocationHistory, hourlyFilter.
    assert (Hsub : forall last xs, sublist (hourlyFilterFrom now last xs) xs).
    { intros last xs. revert last.
      induction xs as [| x rest IH]; intros last; [constructor |].
      cbn [hourlyFilterFrom]. destruct (_ || _).
      - apply sublist_skip, IH.
      - apply sublist_cons, IH. }
    split.
    + etransitivity; [apply Hsub |]. apply locationsOf_sublist.
    + apply List.Forall_forall. intros row Hin.
      apply list_elem_of_In in Hin.
      eapply elem_of_sublist in Hin; [| apply Hsub].
      apply list_elem_of_In in Hin. unfold locationsOf in Hin.
      apply filter_In in Hin as [_ Heq]. apply Z.eqb_eq, Heq.
Qed.

Lemma history_is_grouped_by_member_witness :
  sublist [pingAt 100] [pingAt 100; pingAt 90] /\
  List.Forall (fun row => loc_userId row = 1) [pingAt 100].
Proof.
  destruct (history_is_grouped_by_member 0 [pingAt 100; pingAt 90])
    as (_ & _ & Hentry).
  apply (Hentry 1 [pingAt 100]). reflexivity.
Defined.

(** *** The hourly filter on its own *)

Lemma hourlyFilterFrom_idempotent now locations :
  forall lastIncludedTime,
    hourlyFilterFrom now lastIncludedTime
      (hourlyFilterFrom now lastIncludedTime locations)
    = hourlyFilterFrom now lastIncludedTime locations.
Proof.
  induction locations as [| location rest IH]; intros lastIncludedTime;
    [reflexivity |].
  cbn [hourlyFilterFrom].
  destruct ((lastIncludedTime =? 0) || _) eqn:Hkeep.
  - cbn [hourlyFilterFrom]. rewrite Hkeep, IH. reflexivity.
  - apply IH.
Qed.

Lemma hourlyFilterFrom_spaced now locations :
  forall lastIncludedTime,
    spaced now (hourlyFilterFrom now lastIncludedTime locations) = true /\
    forall kept rest,
      hourlyFilterFrom now lastIncludedTime locations = kept :: rest ->
      (lastIncludedTime =? 0)
      || (minSpacing <=? Z.abs (locationTime now kept - lastIncludedTime))
      = true.
Proof.
  induction locations as [| location rest IH]; intros lastIncludedTime.
  - split; [reflexivity | discriminate].
  - cbn [hourlyFilterFrom].
    destruct ((lastIncludedTime =? 0) || _) eqn:Hkeep; [| apply IH].
    destruct (IH (locationTime now location)) as [Hspaced Hnext].
    split.
    + destruct (hourlyFilterFrom now (locationTime now location) rest)
        as [| next others] eqn:Hrest; [reflexivity |].
      change (spaced now (location :: next :: others))
        with (((locationTime now location =? 0)
               || (minSpacing <=? Z.abs (locationTime now next
                                         - locationTime now location)))
              && spaced now (next :: others)).
      rewrite Hspaced, (Hnext next others eq_refl). reflexivity.
    + intros kept others [= <- _]. exact Hkeep.
Qed.

Lemma hourlyFilterFrom_keeps_spaced now locations :
  forall lastIncludedTime,
    match locations with
    | [] => True
    | first :: _ =>
        (lastIncludedTime =? 0)
        || (minSpacing <=? Z.abs (locationTime now first - lastIncludedTime))
        = true
    end ->
    spaced now locations = true ->
    hourlyFilterFrom now lastIncludedTime locations = locations.
Proof.
  induction locations as [| location rest IH];
    intros lastIncludedTime Hfirst Hspaced; [reflexivity |].
  cbn [hourlyFilterFrom]. rewrite Hfirst. f_equal.
  destruct rest as [| next others]; [reflexivity |].
  change (spaced now (location :: next :: others))
    with (((locationTime now location =? 0)
           || (minSpacing <=? Z.abs (locationTime now next
                                     - locationTime now location)))
          && spaced now (next :: others)) in Hspaced.
  apply andb_prop in Hspaced as [Hgap Hspaced].
  apply IH; assumption.
Qed.

(** X18. The hourly filter always keeps the first entry; in what it
    returns, two entries that follow each other lie at least 45 minutes
    apart, unless the former carries the time 0, after which the next
    entry is kept whatever its time. A list that already has this form
    is returned as it is, so filtering twice gives what filtering once
    gives. *)
Theorem hourly_filter_is_a_projection :
  forall now locations,
    head (hourlyFilter now locations) = head locations /\
    spaced now (hourlyFilter now locations) = true /\
    (spaced now locations = true -> hourlyFilter now locations = locations) /\
    hourlyFilter now (hourlyFilter now locations) = hourlyFilter now locations.
Proof.
  intros now locations. unfold hourlyFilter.
  split; [| split; [| split]].
  - destruct locations; reflexivity.
  - apply hourlyFilterFrom_spaced.
  - intros Hspaced. apply hourlyFilterFrom_keeps_spaced; [| exact Hspaced].
    destruct locations; [exact I | reflexivity].
  - apply hourlyFilterFrom_idempotent.
Qed.

Lemma hourly_filter_is_a_projection_witness :
  hourlyFilter 0 [pingAt 0; pingAt 1; pingAt (minutes 50)]
  = [pingAt 0; pingAt 1; pingAt (minutes 50)].
Proof.
  destruct (hourly_filter_is_a_projection 0
              [pingAt 0; pingAt 1; pingAt (minutes 50)])
    as (_ & _ & Hfixed & _).
  apply Hfixed. reflexivity.
Defined.

(** ** The family tables *)

Ltac eqb_cases :=
  repeat match goal with
         | |- context [Z.eqb ?x ?y] => destruct (Z.eqb_spec x y)
         end;
  subst; simpl;
  rewrite ?andb_true_r, ?andb_false_r, ?orb_true_r, ?orb_false_r;
  try reflexivity; try congruence.

Lemma exists_user_filter (rows : list User) x b :
  existsb (fun u => user_id u =? b)
    (List.filter (fun u => user_id u =? x) rows)
  = (x =? b) && existsb (fun u => user_id u =? b) rows.
Proof.
  induction rows as [| u rest IH]; simpl.
  - rewrite andb_false_r. reflexivity.
  - destruct (Z.eqb_spec (user_id u) x) as [Hx | Hx]; simpl; rewrite IH.
    + subst x. destruct (Z.eqb_spec (user_id u) b); simpl; reflexivity.
    + destruct (Z.eqb_spec (user_id u) b) as [Hb | Hb]; simpl;
        [| reflexivity].
      subst b. destruct (Z.eqb_spec x (user_id u)); [congruence |].
      reflexivity.
Qed.

Lemma connected_rows db a b :
  Family.connected db a b
  = Family.hasRow (Family.familyConnections db) a b
    && Family.userExists db b.
Proof.
  unfold Family.connected, Family.getFamilyMembers, Family.hasRow,
    Family.userExists.
  induction (Family.familyConnections db) as [| c rest IH]; [reflexivity |].
  cbn [List.filter existsb].
  destruct (Family.isAccepted a c); cbn [flat_map andb orb];
    [| exact IH].
  rewrite existsb_app, exists_user_filter, IH.
  rewrite <- andb_orb_distrib_l. reflexivity.
Qed.

Lemma connected_user_exists db a b :
  Family.connected db a b = true -> Family.userExists db b = true.
Proof.
  rewrite connected_rows. intros H. apply andb_prop in H. tauto.
Qed.

Lemma hasRow_app rows more a b :
  Family.hasRow (rows ++ more) a b
  = Family.hasRow rows a b || Family.hasRow more a b.
Proof. unfold Family.hasRow. apply existsb_app. Qed.

Lemma hasRow_one x y a b :
  Family.hasRow [Family.mkConnection x y "accepted"] a b
  = (x =? a) && (y =? b).
Proof.
  unfold Family.hasRow, Family.isAccepted. simpl.
  rewrite orb_false_r, andb_true_r. reflexivity.
Qed.

Lemma connectAll_tables userId inviterFamilyMembers :
  forall db,
    Family.users (Family.connectAll userId inviterFamilyMembers db)
    = Family.users db /\
    Family.invitationCodes (Family.connectAll userId inviterFamilyMembers db)
    = Family.invitationCodes db /\
    forall a b,
      Family.hasRow
        (Family.familyConnections
           (Family.connectAll userId inviterFamilyMembers db)) a b
      = Family.hasRow (Family.familyConnections db) a b
        || existsb
             (fun m =>
                negb (user_id m =? userId)
                && (((user_id m =? a) && (userId =? b))
                    || ((userId =? a) && (user_id m =? b))))
             inviterFamilyMembers.
Proof.
  unfold Family.connectAll.
  induction inviterFamilyMembers as [| m rest IH]; intros db.
  - simpl. split; [reflexivity |]. split; [reflexivity |].
    intros a b. rewrite orb_false_r. reflexivity.
  - cbn [fold_left existsb].
    match goal with
    | |- context [fold_left ?f rest ?d] =>
        destruct (IH d) as (Husers & Hcodes & Hrows)
    end.
    rewrite Husers, Hcodes.
    destruct (user_id m =? userId) eqn:Hself.
    + split; [reflexivity |]. split; [reflexivity |].
      intros a b. rewrite Hrows. reflexivity.
    + split; [reflexivity |]. split; [reflexivity |].
      intros a b. rewrite Hrows. cbn [Family.addFamilyMember
        Family.familyConnections negb andb].
      rewrite !hasRow_app, !hasRow_one, <- !orb_assoc. reflexivity.
Qed.

Lemma joined_by_loop userId inviterFamilyMembers a b :
  existsb
    (fun m =>
       negb (user_id m =? userId)
       && (((user_id m =? a) && (userId =? b))
           || ((userId =? a) && (user_id m =? b))))
    inviterFamilyMembers
  = ((userId =? b) && negb (a =? userId)
     && existsb (fun m => user_id m =? a) inviterFamilyMembers)
    || ((userId =? a) && negb (b =? userId)
        && existsb (fun m => user_id m =? b) inviterFamilyMembers).
Proof.
  induction inviterFamilyMembers as [| m rest IH]; simpl.
  - rewrite !andb_false_r. reflexivity.
  - rewrite IH.
    destruct (existsb (fun m0 => user_id m0 =? a) rest);
      destruct (existsb (fun m0 => user_id m0 =? b) rest);
      eqb_cases.
Qed.


(** The handler when it answers with success: the guards it has passed
    and the tables it leaves. *)
Lemma postFamilyJoin_success toUpperCase userId code now db db' :
  Family.postFamilyJoin toUpperCase userId (Resolved code) now db
  = (Family.JoinSuccess, db') ->
  exists invitation,
    Family.getInvitationByCode db (toUpperCase code) = Some invitation /\
    now <= Family.inv_expiresAt invitation /\
    Family.inv_usedAt invitation = None /\
    Family.inv_userId invitation <> userId /\
    Family.connected db userId (Family.inv_userId invitation) = false /\
    db' =
      Family.useInvitationCode (toUpperCase code) userId now
        (Family.connectAll userId
           (Family.getFamilyMembers db (Family.inv_userId invitation))
           (Family.addFamilyMember
              (Family.mkConnection userId (Family.inv_userId invitation)
                 "accepted")
              (Family.addFamilyMember
                 (Family.mkConnection (Family.inv_userId invitation) userId
                    "accepted") db))).
Proof.
  unfold Family.postFamilyJoin.
  destruct (Family.getInvitationByCode db (toUpperCase code))
    as [invitation |]; [| discriminate].
  destruct (Z.ltb_spec (Family.inv_expiresAt invitation) now);
    [discriminate |].
  destruct (Family.inv_usedAt invitation) eqn:Hused; [discriminate |].
  destruct (Z.eqb_spec (Family.inv_userId invitation) userId);
    [discriminate |].
  destruct (Family.connected db userId (Family.inv_userId invitation))
    eqn:Hconn; [discriminate |].
  intros [= <-]. exists invitation. auto 10.
Qed.

Lemma join_connections toUpperCase userId code now db db' invitation :
  Family.postFamilyJoin toUpperCase userId (Resolved code) now db
  = (Family.JoinSuccess, db') ->
  Family.getInvitationByCode db (toUpperCase code) = Some invitation ->
  Family.userExists db userId = true ->
  Family.userExists db (Family.inv_userId invitation) = true ->
  forall a b,
    Family.connected db' a b
    = Family.connected db a b
      || ((a =? userId)
          && Family.joins db userId (Family.inv_userId invitation) b)
      || ((b =? userId)
          && Family.joins db userId (Family.inv_userId invitation) a).
Proof.
  intros Hjoin Hcode Hself Hinviter a b.
  apply postFamilyJoin_success in Hjoin
    as (invitation' & Hcode' & _ & _ & Hne & _ & ->).
  rewrite Hcode in Hcode'. injection Hcode' as <-.
  set (inviter := Family.inv_userId invitation) in *.
  rewrite connected_rows. unfold Family.userExists at 1.
  cbn [Family.useInvitationCode Family.familyConnections Family.users].
  destruct (connectAll_tables userId (Family.getFamilyMembers db inviter)
              (Family.addFamilyMember
                 (Family.mkConnection userId inviter "accepted")
                 (Family.addFamilyMember
                    (Family.mkConnection inviter userId "accepted") db)))
    as (Husers & _ & Hrows).
  rewrite Husers, Hrows. cbn [Family.addFamilyMember Family.familyConnections
    Family.users].
  fold (Family.userExists db b).
  rewrite !hasRow_app, !hasRow_one, joined_by_loop.
  fold (Family.connected db inviter a). fold (Family.connected db inviter b).
  rewrite (connected_rows db a b). unfold Family.joins.
  pose proof (connected_user_exists db inviter b) as Hb.
  unfold Family.userExists in *.
  destruct (Family.hasRow (Family.familyConnections db) a b);
    destruct (Family.connected db inviter a);
    destruct (Family.connected db inviter b);
    destruct (Z.eqb_spec a userId); destruct (Z.eqb_spec b userId);
    destruct (Z.eqb_spec a inviter); destruct (Z.eqb_spec b inviter);
    subst; try congruence;
    rewrite ?Z.eqb_refl, ?Hself, ?Hinviter, ?(Hb eq_refl);
    repeat match goal with
           | |- context [Z.eqb ?x ?y] =>
               destruct (Z.eqb_spec x y); try congruence
           end;
    simpl; rewrite ?andb_true_r, ?andb_false_r, ?orb_true_r, ?orb_false_r;
    try reflexivity;
    destruct (existsb _ (Family.users db)); reflexivity.
Qed.


(** X19. When the database answers every call and a join by code
    succeeds, the connections afterwards are those from before together
    with, in both directions, the newcomer and each of: the inviter and
    the family members the inviter had (the newcomer apart); nothing else
    is added and nothing is removed. So the newcomer and the inviter see
    each other, the newcomer and every family member of the inviter see
    each other, and if every connection was mutual before it is mutual
    afterwards. (The newcomer and the owners of codes have user rows, as
    the foreign keys demand.) *)
Theorem join_connects_newcomer_with_whole_family :
  forall toUpperCase userId code now db db',
    Family.postFamilyJoin toUpperCase userId (Resolved code) now db
    = (Family.JoinSuccess, db') ->
    Family.userExists db userId = true ->
    (forall i, In i (Family.invitationCodes db) ->
               Family.userExists db (Family.inv_userId i) = true) ->
    exists invitation,
      Family.getInvitationByCode db (toUpperCase code) = Some invitation /\
      let inviter := Family.inv_userId invitation in
      (forall a b,
          Family.connected db' a b
          = Family.connected db a b
            || ((a =? userId) && Family.joins db userId inviter b)
            || ((b =? userId) && Family.joins db userId inviter a)) /\
      Family.connected db' userId inviter = true /\
      Family.connected db' inviter userId = true /\
      (forall m, Family.connected db inviter m = true -> m <> userId ->
                 Family.connected db' userId m = true /\
                 Family.connected db' m userId = true) /\
      ((forall a b, Family.connected db a b = Family.connected db b a) ->
       forall a b, Family.connected db' a b = Family.connected db' b a).
Proof.
  intros toUpperCase userId code now db db' Hjoin Hself Hfk.
  destruct (postFamilyJoin_success _ _ _ _ _ _ Hjoin)
    as (invitation & Hcode & _ & _ & Hne & _ & _).
  exists invitation. split; [exact Hcode |]. cbv zeta.
  assert (Hinviter : Family.userExists db (Family.inv_userId invitation)
                     = true).
  { apply Hfk. unfold Family.getInvitationByCode in Hcode.
    apply find_some in Hcode. tauto. }
  pose proof (join_connections toUpperCase userId code now db db' invitation
                Hjoin Hcode Hself Hinviter) as Hall.
  set (inviter := Family.inv_userId invitation) in *.
  assert (Hjoins_inviter : Family.joins db userId inviter inviter = true).
  { unfold Family.joins. rewrite Z.eqb_refl.
    destruct (Z.eqb_spec inviter userId); [contradiction | reflexivity]. }
  assert (Hjoins_member : forall m,
             Family.connected db inviter m = true -> m <> userId ->
             Family.joins db userId inviter m = true).
  { intros m Hm Hmne. unfold Family.joins. rewrite Hm, orb_true_r.
    destruct (Z.eqb_spec m userId); [contradiction | reflexivity]. }
  split; [exact Hall |]. split; [| split; [| split]].
  - rewrite Hall, Z.eqb_refl, Hjoins_inviter. simpl.
    rewrite orb_true_r. reflexivity.
  - rewrite Hall, Z.eqb_refl, Hjoins_inviter. simpl.
    rewrite !orb_true_r. reflexivity.
  - intros m Hm Hmne. rewrite !Hall, !Z.eqb_refl, (Hjoins_member m Hm Hmne).
    simpl. rewrite !orb_true_r. split; reflexivity.
  - intros Hsym a b. rewrite !Hall, (Hsym a b).
    rewrite <- !orb_assoc. f_equal. apply orb_comm.
Qed.

Lemma join_connects_newcomer_with_whole_family_witness :
  exists db',
    Family.postFamilyJoin Family.upper 1 (Resolved "abc123") 10
      Family.sampleDb = (Family.JoinSuccess, db') /\
    Family.connected db' 1 3 = true /\ Family.connected db' 3 1 = true.
Proof.
  eexists. split; [reflexivity |].
  destruct (join_connects_newcomer_with_whole_family Family.upper 1 "abc123"
              10 Family.sampleDb _ eq_refl)
    as (invitation & Hcode & _ & _ & _ & Hfamily & _).
  - reflexivity.
  - intros i [<- | []]. reflexivity.
  - injection Hcode as <-. apply Hfamily; [reflexivity | lia].
Defined.



(** *** Removing a connection *)

Lemma hasRow_removed rows x y a b :
  Family.hasRow
    (List.filter (fun c => negb (Family.isBetween x y c)) rows) a b
  = Family.hasRow rows a b
    && negb (((a =? x) && (b =? y)) || ((a =? y) && (b =? x))).
Proof.
  unfold Family.hasRow.
  induction rows as [| c rest IH]; [reflexivity |].
  cbn [List.filter existsb].
  destruct (Family.isBetween x y c) eqn:Hbetween; cbn [negb existsb];
    rewrite IH; unfold Family.isBetween, Family.isAccepted in *;
    destruct (String.eqb (Family.fc_status c) "accepted");
    revert Hbetween;
    destruct (existsb _ rest); eqb_cases.
Qed.

(** X21. Removing the connection between two users removes it in both
    directions, whichever of the two asks, and touches no other pair; if
    every connection was mutual it stays so. A newcomer who has joined
    through an inviter and then removes the inviter stays connected, both
    ways, with the other family members of the inviter. *)
Theorem removal_cuts_one_pair_both_ways :
  forall db x y,
    (forall a b,
        Family.connected (Family.removeFamilyMember x y db) a b
        = Family.connected db a b
          && negb (((a =? x) && (b =? y)) || ((a =? y) && (b =? x)))) /\
    Family.connected (Family.removeFamilyMember x y db) x y = false /\
    Family.connected (Family.removeFamilyMember x y db) y x = false /\
    (forall a b,
        Family.connected (Family.removeFamilyMember y x db) a b
        = Family.connected (Family.removeFamilyMember x y db) a b) /\
    ((forall a b, Family.connected db a b = Family.connected db b a) ->
     forall a b,
       Family.connected (Family.removeFamilyMember x y db) a b
       = Family.connected (Family.removeFamilyMember x y db) b a) /\
    (forall toUpperCase code now before invitation m,
        Family.postFamilyJoin toUpperCase x (Resolved code) now before
        = (Family.JoinSuccess, db) ->
        Family.getInvitationByCode before (toUpperCase code)
        = Some invitation ->
        y = Family.inv_userId invitation ->
        Family.userExists before x = true ->
        Family.userExists before y = true ->
        Family.connected before y m = true ->
        m <> x -> m <> y ->
        Family.connected (Family.removeFamilyMember x y db) x m = true /\
        Family.connected (Family.removeFamilyMember x y db) m x = true).
Proof.
  intros db x y.
  assert (Hall : forall x y a b,
    Family.connected (Family.removeFamilyMember x y db) a b
    = Family.connected db a b
      && negb (((a =? x) && (b =? y)) || ((a =? y) && (b =? x)))).
  { intros x0 y0 a b. rewrite !connected_rows.
    unfold Family.userExists.
    cbn [Family.removeFamilyMember Family.familyConnections Family.users].
    rewrite hasRow_removed.
    destruct (Family.hasRow _ a b); destruct (existsb _ (Family.users db));
      destruct (negb _); reflexivity. }
  split; [apply Hall |]. split; [| split; [| split; [| split]]].
  - rewrite Hall, !Z.eqb_refl. simpl. apply andb_false_r.
  - rewrite Hall, !Z.eqb_refl. simpl. rewrite orb_true_r. apply andb_false_r.
  - intros a b. rewrite !Hall. f_equal. f_equal. apply orb_comm.
  - intros Hsym a b. rewrite !Hall, (Hsym a b). f_equal. f_equal.
    rewrite (andb_comm (a =? x)), (andb_comm (a =? y)). apply orb_comm.
  - intros toUpperCase code now before invitation m Hjoin Hcode -> Hself
      Hinviter Hmember Hmx Hmy.
    pose proof (join_connections toUpperCase x code now before db invitation
                  Hjoin Hcode Hself Hinviter) as Hjoined.
    rewrite !Hall, !Hjoined. unfold Family.joins. rewrite Hmember.
    destruct (Family.connected before x m);
      destruct (Family.connected before m x);
      destruct (Family.connected before (Family.inv_userId invitation) x);
      split; eqb_cases.
Qed.

Lemma removal_cuts_one_pair_both_ways_witness :
  exists db',
    Family.postFamilyJoin Family.upper 1 (Resolved "abc123") 10
      Family.sampleDb = (Family.JoinSuccess, db') /\
    Family.connected (Family.removeFamilyMember 1 2 db') 1 3 = true /\
    Family.connected (Family.removeFamilyMember 1 2 db') 3 1 = true.
Proof.
  eexists. split; [reflexivity |].
  destruct (removal_cuts_one_pair_both_ways
              (snd (Family.postFamilyJoin Family.upper 1 (Resolved "abc123")
                      10 Family.sampleDb)) 1 2)
    as (_ & _ & _ & _ & _ & Hrest).
  apply (Hrest Family.upper "abc123" 10 Family.sampleDb
           (Family.mkInvitation "ABC123" 2 1000 None None) 3);
    try reflexivity; lia.
Defined.


(** ** Starting and stopping a logging session *)

Lemma sessionDelete_fresh key s (m : list (string * UserLocationSession)) :
  sessionGet key m = None -> sessionDelete key (m ++ [(key, s)]) = m.
Proof.
  intros Hget. unfold sessionDelete. rewrite List.filter_app. simpl.
  rewrite String.eqb_refl. simpl. rewrite app_nil_r.
  apply forallb_filter_id, forallb_forall. intros [k v] Hin. simpl.
  destruct (String.eqb_spec k key) as [-> | _]; [| reflexivity].
  exfalso. apply sessionGet_None_notin in Hget. apply Hget.
  apply (in_map fst _ _ Hin).
Qed.

Lemma clearInterval_fresh id (live : list Z) :
  Forall (fun t => t < id) live -> clearInterval id (live ++ [id]) = live.
Proof.
  intros Hlt. unfold clearInterval. rewrite List.filter_app. simpl.
  rewrite Z.eqb_refl. simpl. rewrite app_nil_r.
  apply forallb_filter_id, forallb_forall. intros t Hin.
  rewrite Forall_forall in Hlt. apply list_elem_of_In, Hlt in Hin.
  destruct (Z.eqb_spec t id); [lia | reflexivity].
Qed.

(** X22. For a user without a session, starting and then stopping the
    hourly logging leaves the sessions and the live timers as they were
    (the logger being in a state that calls on a new logger lead to).
    While the session runs, the reported time of the last log is the
    time of the start that opened the session, and the reported next log
    is one hour later: a second start at a later time does not move
    them. *)
Theorem start_then_stop_restores_the_logger :
  forall userId now later l,
    loggerConsistent l ->
    sessionGet userId (activeSessions l) = None ->
    let running := startHourlyLogging userId now l in
    activeSessions (stopHourlyLogging userId running) = activeSessions l /\
    liveIntervals (stopHourlyLogging userId running) = liveIntervals l /\
    getActiveSessions (startHourlyLogging userId later running)
    = getActiveSessions l ++ [(userId, now, now + HOUR_IN_MS)].
Proof.
  intros userId now later l Hl Hget running.
  assert (Hrunning : running =
    {| activeSessions :=
         activeSessions l ++ [(userId, mkSession userId now (nextInterval l))];
       liveIntervals := liveIntervals l ++ [nextInterval l];
       nextInterval := nextInterval l + 1 |}).
  { subst running. unfold startHourlyLogging. rewrite Hget.
    rewrite sessionSet_fresh by exact Hget. reflexivity. }
  assert (Hfound : sessionGet userId (activeSessions running)
                   = Some (mkSession userId now (nextInterval l))).
  { rewrite Hrunning. cbn [activeSessions].
    rewrite sessionGet_append, Hget, String.eqb_refl. reflexivity. }
  split; [| split].
  - unfold stopHourlyLogging. rewrite Hfound. cbn [activeSessions].
    rewrite Hrunning. cbn [activeSessions].
    apply sessionDelete_fresh. exact Hget.
  - unfold stopHourlyLogging. rewrite Hfound. cbn [liveIntervals].
    rewrite Hrunning. cbn [liveIntervals session_intervalId].
    apply clearInterval_fresh. apply (intervals_given_out l Hl).
  - subst running. rewrite start_idempotent. rewrite Hrunning.
    unfold getActiveSessions. cbn [activeSessions].
    rewrite map_app. reflexivity.
Qed.

Lemma start_then_stop_restores_the_logger_witness :
  activeSessions
    (stopHourlyLogging "7" (startHourlyLogging "7" 5 newLogger)) = [] /\
  liveIntervals
    (stopHourlyLogging "7" (startHourlyLogging "7" 5 newLogger)) = [] /\
  getActiveSessions
    (startHourlyLogging "7" 9 (startHourlyLogging "7" 5 newLogger))
  = [("7", 5, 5 + HOUR_IN_MS)].
Proof.
  apply (start_then_stop_restores_the_logger "7" 5 9 newLogger).
  - apply newLogger_consistent.
  - reflexivity.
Defined.

(** * Runs of checks and failing steps, with the dispatcher *)

(** ** The notifications of one dispatch *)

Lemma alertsAbout_app userId placeId (rows1 rows2 : list InsertNotification) :
  alertsAbout userId placeId (rows1 ++ rows2) =
  alertsAbout userId placeId rows1 ++ alertsAbout userId placeId rows2.
Proof. unfold alertsAbout. apply omap_app. Qed.

Lemma alertsOn_add_row userId placeId n w :
  alertsOn userId placeId (add_notificationRow n w) =
  alertsOn userId placeId w ++ alertsAbout userId placeId [n].
Proof. unfold alertsOn. simpl. apply alertsAbout_app. Qed.

(** The rows that a dispatch can create are the family rows and the own
    row of its mover about its place. *)
Lemma sendGeofenceNotification_keeps_rows storage (R : relation World)
    `{!PreOrder R} userId place action :
  (forall n w,
      n_data n = GeofenceData (Some userId) (place_id place)
                   (place_name place) action \/
      (n_data n = GeofenceData None (place_id place) (place_name place) action
       /\ n_userId n = userId) ->
      R w (add_notificationRow n w)) ->
  (forall ws fr w, R w (add_wire ws fr w)) ->
  (forall w, R w (add_console LogErrorSending w)) ->
  keeps R (sendGeofenceNotification storage userId place action).
Proof.
  intros Hrow Hwire Hlog. unfold sendGeofenceNotification, consoleLog.
  repeat first
    [ apply (createNotificationM_keeps storage R); intros ?; apply Hrow;
        first [left; reflexivity | right; split; reflexivity]
    | apply (broadcastIfInstalled_keeps R); apply Hwire
    | apply (keeps_modify R); apply Hlog
    | step_keeps ].
Qed.

(** A dispatch of another mover, or about another place, creates no
    notification about this mover and place, whatever the storage
    answers. *)
Lemma dispatch_keeps_other storage userId placeId mover place action :
  mover <> userId \/ place_id place <> placeId ->
  keeps (same (alertsOn userId placeId))
    (sendGeofenceNotification storage mover place action).
Proof.
  intros Hother.
  apply (sendGeofenceNotification_keeps_rows storage
           (same (alertsOn userId placeId))); try (intros; reflexivity).
  intros n w Hn. unfold same. rewrite alertsOn_add_row.
  assert (Hno : (mover =? userId) && (place_id place =? placeId) = false).
  { destruct (Z.eqb_spec mover userId); [| reflexivity].
    destruct (Z.eqb_spec (place_id place) placeId); [| reflexivity].
    destruct Hother; contradiction. }
  unfold alertsAbout. simpl.
  destruct Hn as [Hdata | [Hdata Hself]]; rewrite Hdata; simpl;
    rewrite ?Hself, Hno; apply app_nil_r.
Qed.

Lemma alertsAbout_familyRows userId placeId user place action
    (familyMembers : list User) :
  alertsAbout userId placeId
    (map (familyRow userId user place action) familyMembers)
  = if place_id place =? placeId
    then map (fun member => (user_id member, action)) familyMembers
    else [].
Proof.
  induction familyMembers as [| familyMember rest IH].
  - destruct (place_id place =? placeId); reflexivity.
  - cbn [map]. change (?x :: ?l) with ([x] ++ l) at 1.
    rewrite alertsAbout_app, IH. unfold alertsAbout. simpl.
    rewrite Z.eqb_refl. simpl.
    destruct (place_id place =? placeId); reflexivity.
Qed.

Lemma dispatch_alerts storage userId placeId lat lon place action w :
  (forall n, accepted storage n = true) ->
  alertsOn userId placeId
    (snd (sendGeofenceNotification storage userId place action w))
  = alertsOn userId placeId w ++
    (if place_id place =? placeId
     then fanoutOf (mkCheck userId storage lat lon) action
     else []).
Proof.
  intros Hacc. unfold fanoutOf. cbn [chk_storage chk_user].
  destruct (getUser storage userId) as [[user |] |] eqn:Huser.
  - destruct (getFamilyMembers storage userId) as [familyMembers |] eqn:Hfam.
    + rewrite (sendGeofenceNotification_success storage userId user
                 familyMembers place action w Huser Hfam);
        [| apply Forall_forall; intros familyMember _; apply Hacc
         | apply Hacc].
      unfold alertsOn.
      rewrite broadcastIfInstalled_rows, notificationRows_add_rows.
      rewrite !alertsAbout_app, alertsAbout_familyRows. f_equal.
      unfold alertsAbout, recipientsOf. simpl. rewrite Z.eqb_refl. simpl.
      destruct (place_id place =? placeId); reflexivity.
    + rewrite (dispatch_unreadable storage) by (right; eauto).
      destruct (place_id place =? placeId); symmetry; apply app_nil_r.
  - rewrite (dispatch_unknown_mover storage) by exact Huser.
    destruct (place_id place =? placeId); symmetry; apply app_nil_r.
  - rewrite (dispatch_unreadable storage) by (left; exact Huser).
    destruct (place_id place =? placeId); symmetry; apply app_nil_r.
Qed.

(** ** The notifications of one check *)

Lemma checkPlaces_alerts storage userId placeId lat lon previous places :
  actionsAt userId placeId (detected userId previous lat lon places) = [] \/
  (forall n, accepted storage n = true) ->
  forall newGeofences w,
    alertsOn userId placeId
      (snd (checkPlaces storage userId lat lon previous places newGeofences w))
    = alertsOn userId placeId w ++
      flat_map (fanoutOf (mkCheck userId storage lat lon))
        (actionsAt userId placeId (detected userId previous lat lon places)).
Proof.
  induction places as [| place rest IH]; intros Hyp newGeofences w.
  - simpl. rewrite app_nil_r. reflexivity.
  - assert (Hrest :
      actionsAt userId placeId (detected userId previous lat lon rest) = [] \/
      (forall n, accepted storage n = true)).
    { destruct Hyp as [Hquiet | Hacc]; [left | right; exact Hacc].
      rewrite detected_cons, actionsAt_app in Hquiet.
      apply app_eq_nil in Hquiet. tauto. }
    assert (Hhead : forall action w1,
      transitionOf previous lat lon place = Some action ->
      alertsOn userId placeId
        (snd (sendGeofenceNotification storage userId place action w1))
      = alertsOn userId placeId w1 ++
        flat_map (fanoutOf (mkCheck userId storage lat lon))
          (actionsAt userId placeId [(userId, action, place_id place)])).
    { intros action w1 Ht. unfold actionsAt. cbn [omap list_omap].
      rewrite Z.eqb_refl. cbn [andb].
      destruct (Z.eqb_spec (place_id place) placeId) as [Heq | Hne].
      - cbn [flat_map]. rewrite app_nil_r.
        destruct Hyp as [Hquiet | Hacc].
        + exfalso. rewrite detected_cons, actionsAt_app, Ht in Hquiet.
          unfold actionsAt in Hquiet at 1. cbn [omap list_omap] in Hquiet.
          rewrite Z.eqb_refl in Hquiet.
          destruct (Z.eqb_spec (place_id place) placeId);
            [discriminate | contradiction].
        + rewrite (dispatch_alerts storage userId placeId lat lon place action
                     w1 Hacc).
          destruct (Z.eqb_spec (place_id place) placeId);
            [reflexivity | contradiction].
      - cbn [flat_map]. rewrite app_nil_r.
        apply (dispatch_keeps_other storage userId placeId userId place
                 action (or_intror Hne)). }
    cbn [checkPlaces]. rewrite detected_cons, actionsAt_app, flat_map_app.
    assert (Hdispatch : forall action,
      let w1 := add_console
                  (LogTransition userId action (place_name place)
                     (place_id place)) w in
      (consoleLog (LogTransition userId action (place_name place)
                     (place_id place)) ;;
       sendGeofenceNotification storage userId place action) w
      = (Resolved tt,
         snd (sendGeofenceNotification storage userId place action w1))).
    { intros action w1. erewrite bind_run; [| reflexivity].
      apply resolves_run, sendGeofenceNotification_resolves. }
    revert Hhead. unfold transitionOf. fold (inside lat lon place).
    set (now := inside lat lon place).
    set (was := bool_decide (place_id place ∈ previous)).
    intros Hhead.
    destruct (now && negb was) eqn:Hent;
      [| destruct (negb now && was) eqn:Hex].
    + erewrite bind_run by apply Hdispatch.
      rewrite (IH Hrest), (Hhead entered _ eq_refl), <- app_assoc.
      reflexivity.
    + erewrite bind_run by apply Hdispatch.
      rewrite (IH Hrest), (Hhead exited _ eq_refl), <- app_assoc.
      reflexivity.
    + erewrite bind_run by reflexivity. rewrite (IH Hrest). reflexivity.
Qed.

Lemma other_mover_keeps_alerts storage userId placeId mover lat lon w :
  mover <> userId ->
  alertsOn userId placeId
    (snd (checkGeofenceTransitions storage mover lat lon w))
  = alertsOn userId placeId w.
Proof.
  intros Hother.
  apply (check_keeps_when_dispatch_keeps storage
           (same (alertsOn userId placeId))); try (intros; reflexivity).
  intros place action. apply dispatch_keeps_other. left. exact Hother.
Qed.

(** What one check of a run adds to the notifications about a place:
    what its dispatcher creates for the change of side it finds. *)
Lemma runCheck_alerts userId placeId c w :
  staysCandidate userId placeId c ->
  (forall now, sideAt userId placeId c = Some now ->
               now = wasInside w userId placeId) \/
  insertsAccepted userId c ->
  alertsOn userId placeId (snd (runCheck c w)) =
  alertsOn userId placeId w ++
  match sideAt userId placeId c with
  | Some now =>
      flat_map (fanoutOf c) (edges (wasInside w userId placeId) [now])
  | None => []
  end.
Proof.
  intros Hstay Hyp. destruct c as [u storage lat lon].
  unfold staysCandidate, insertsAccepted in *.
  unfold runCheck, sideAt, candidatesOf in *.
  cbn [chk_user chk_storage chk_lat chk_lon] in *.
  destruct (Z.eqb_spec u userId) as [-> | Hother].
  - destruct (Hstay eq_refl) as (places & Hcand & Hnd & Hin).
    destruct (getFamilyPlaces storage userId) as [[ps |] |] eqn:Hfetch;
      try discriminate.
    injection Hcand as ->.
    assert (Hne : places <> []) by (intros ->; inversion Hin).
    destruct (findPlace_candidate placeId places Hin) as (place & Hfind).
    cbn [mbind option_bind] in *. rewrite Hfind in *. cbn [fmap option_fmap option_map] in *.
    assert (Hacts :
      actionsAt userId placeId
        (detected userId (previousInside w userId) lat lon places)
      = edges (wasInside w userId placeId) [inside lat lon place]).
    { rewrite actionsAt_detected_find, Hfind by assumption.
      unfold transitionOf, wasInside. cbn [edges]. rewrite app_nil_r.
      apply findPlace_Some in Hfind as [_ ->].
      destruct (inside lat lon place), (bool_decide _); reflexivity. }
    rewrite (check_unfold storage userId lat lon w places Hfetch Hne).
    cbn [snd].
    change (alertsOn userId placeId (set_userGeofenceStates ?f ?x))
      with (alertsOn userId placeId x).
    rewrite checkPlaces_alerts, Hacts; [reflexivity |].
    destruct Hyp as [Hsame | Hacc]; [left | right; exact (Hacc eq_refl)].
    rewrite Hacts, (Hsame _ eq_refl). cbn [edges].
    destruct (wasInside w userId placeId); reflexivity.
  - rewrite other_mover_keeps_alerts by exact Hother.
    symmetry. apply app_nil_r.
Qed.

(** ** The notifications of a run *)

Lemma runChecks_cons c rest w :
  runChecks (c :: rest) w = runChecks rest (snd (runCheck c w)).
Proof.
  unfold runChecks. cbn [forOf]. unfold bind.
  pose proof (check_effect (chk_storage c) (chk_user c) (chk_lat c)
                (chk_lon c) w) as (Hres & _).
  fold (runCheck c) in Hres.
  destruct (runCheck c w) as [o w1]. cbn [fst snd] in *. subst o.
  reflexivity.
Qed.

Lemma runCheck_side userId placeId c w :
  staysCandidate userId placeId c ->
  wasInside (snd (runCheck c w)) userId placeId =
  match sideAt userId placeId c with
  | Some side => side
  | None => wasInside w userId placeId
  end.
Proof.
  intros Hstay.
  destruct (runCheck_step userId placeId c w Hstay) as (_ & new & _ & Hside).
  destruct (sideAt userId placeId c); tauto.
Qed.

Lemma runChecks_alerts userId placeId checks :
  Forall (staysCandidate userId placeId) checks ->
  Forall (insertsAccepted userId) checks ->
  forall w,
    alertsOn userId placeId (snd (runChecks checks w)) =
    alertsOn userId placeId w
      ++ alertsAlong userId placeId (wasInside w userId placeId) checks.
Proof.
  induction 1 as [| c rest Hc _ IH]; intros Hacc w.
  - simpl. rewrite app_nil_r. reflexivity.
  - inversion Hacc as [| ? ? Hc_acc Hrest_acc]; subst.
    rewrite runChecks_cons, (IH Hrest_acc).
    rewrite (runCheck_alerts userId placeId c w Hc (or_intror Hc_acc)).
    rewrite (runCheck_side userId placeId c w Hc).
    cbn [alertsAlong]. destruct (sideAt userId placeId c).
    + rewrite <- app_assoc. reflexivity.
    + rewrite app_nil_r. reflexivity.
Qed.

(** While the user stays on the side that is stored, a run creates no
    notification about the place, whatever the storage answers. *)
Lemma runChecks_quiet userId placeId side checks :
  Forall (staysCandidate userId placeId) checks ->
  (forall s, In s (sides userId placeId checks) -> s = side) ->
  forall w,
    wasInside w userId placeId = side ->
    alertsOn userId placeId (snd (runChecks checks w)) =
    alertsOn userId placeId w.
Proof.
  induction 1 as [| c rest Hc _ IH]; intros Hsame w Hwas; [reflexivity |].
  rewrite sides_cons in Hsame.
  rewrite runChecks_cons, IH.
  - rewrite (runCheck_alerts userId placeId c w Hc).
    + destruct (sideAt userId placeId c) as [now |];
        [| apply app_nil_r].
      rewrite (Hsame now (or_introl eq_refl)), Hwas. cbn [edges].
      destruct side; apply app_nil_r.
    + left. intros now Hnow. rewrite Hnow in Hsame. rewrite Hwas.
      apply Hsame. left. reflexivity.
  - intros s Hs. apply Hsame.
    destruct (sideAt userId placeId c); [right |]; exact Hs.
  - rewrite (runCheck_side userId placeId c w Hc).
    destruct (sideAt userId placeId c) as [now |]; [| exact Hwas].
    apply Hsame. left. reflexivity.
Qed.

Lemma edges_cons was now rest :
  edges was (now :: rest) = edges was [now] ++ edges now rest.
Proof. cbn [edges]. rewrite app_nil_r. reflexivity. Qed.

Lemma edges_dwell side (l : list bool) :
  (forall s, In s l -> s = side) -> edges side l = [].
Proof.
  induction l as [| now rest IH]; intros Hsame; [reflexivity |].
  rewrite (edges_cons side now rest), (Hsame now (or_introl eq_refl)), IH.
  - cbn [edges]. destruct side; reflexivity.
  - intros s Hs. apply Hsame. right. exact Hs.
Qed.

Lemma sideAt_user userId placeId c side :
  sideAt userId placeId c = Some side -> chk_user c = userId.
Proof.
  unfold sideAt. destruct (Z.eqb_spec (chk_user c) userId);
    [auto | discriminate].
Qed.

Lemma alertsAlong_dispatched userId placeId familyMembers checks :
  Forall (dispatchesTo userId familyMembers) checks ->
  forall was,
    alertsAlong userId placeId was checks =
    flat_map (recipientsOf userId familyMembers)
      (edges was (sides userId placeId checks)).
Proof.
  induction 1 as [| c rest Hc _ IH]; intros was; [reflexivity |].
  cbn [alertsAlong]. rewrite sides_cons.
  destruct (sideAt userId placeId c) as [now |] eqn:Hside; [| apply IH].
  rewrite (edges_cons was now (sides userId placeId rest)), flat_map_app, IH.
  f_equal.
  apply sideAt_user in Hside.
  destruct (Hc Hside) as ((user & Huser) & Hfam & _).
  apply flat_map_ext. intros action. unfold fanoutOf.
  rewrite Hside, Huser, Hfam. reflexivity.
Qed.

(** ** Changes of side and their notifications (C1) *)

Lemma dispatchesTo_accepted userId familyMembers checks :
  Forall (dispatchesTo userId familyMembers) checks ->
  Forall (insertsAccepted userId) checks.
Proof.
  induction 1 as [| c rest Hc _ IH]; [apply List.Forall_nil |].
  apply List.Forall_cons; [| exact IH].
  intros Huser. destruct (Hc Huser) as (_ & _ & Hacc). exact Hacc.
Qed.

(** C1, as the code has it. Take a user and a place that is on the
    candidate list (of distinct ids) of every check of that user in a
    sequence of checks run one after the other, checks of other users in
    between allowed. The transitions of the user at the place that the
    run detects and dispatches are exactly the changes of side: one
    [entered] at each check that finds the user inside after being
    outside, one [exited] at each check that finds the user outside
    after being inside, and nothing at a check that finds the same side
    as the one before, however many of those follow each other; a check
    repeated at once adds no transition. The notifications of a
    dispatched transition are those that the dispatcher of that check
    creates: with every insert accepted, one for each entry of the family
    list and then one for the mover when the mover is found and the
    family is read, and none otherwise. So when every check of the user
    finds the mover, reads the same family list and has its rows
    accepted, the notifications about the place are, for each change of
    side in turn, one per entry of the family list and one for the
    mover. When the check that finds the change of side cannot read the
    mover, the transition is dispatched but no notification is created,
    and none is created for it by the checks that follow on the same
    side. *)
Theorem one_transition_per_change_of_side :
  forall userId placeId checks w,
    Forall (staysCandidate userId placeId) checks ->
    (fst (runChecks checks w) = Resolved tt /\
     actionsAt userId placeId (transitionsOn (snd (runChecks checks w))) =
       actionsAt userId placeId (transitionsOn w)
         ++ edges (wasInside w userId placeId)
              (sides userId placeId checks)) /\
    (Forall (dispatchSucceeds userId) checks ->
     selfActionsOn userId placeId (snd (runChecks checks w)) =
       selfActionsOn userId placeId w
         ++ edges (wasInside w userId placeId)
              (sides userId placeId checks)) /\
    (forall was side n rest,
        edges was (replicate (S n) side ++ rest) = edges was (side :: rest)) /\
    (forall c, In c checks -> chk_user c = userId ->
       actionsAt userId placeId
         (transitionsOn (snd (runChecks [c; c] w))) =
       actionsAt userId placeId
         (transitionsOn (snd (runChecks [c] w)))) /\
    (Forall (insertsAccepted userId) checks ->
     alertsOn userId placeId (snd (runChecks checks w)) =
       alertsOn userId placeId w
         ++ alertsAlong userId placeId (wasInside w userId placeId) checks) /\
    (forall familyMembers,
        Forall (dispatchesTo userId familyMembers) checks ->
        alertsOn userId placeId (snd (runChecks checks w)) =
          alertsOn userId placeId w
            ++ flat_map (recipientsOf userId familyMembers)
                 (edges (wasInside w userId placeId)
                    (sides userId placeId checks))) /\
    (forall c rest side,
        checks = c :: rest ->
        chk_user c = userId ->
        moverUnreadable c ->
        sideAt userId placeId c = Some side ->
        (forall s, In s (sides userId placeId rest) -> s = side) ->
        actionsAt userId placeId (transitionsOn (snd (runChecks checks w))) =
          actionsAt userId placeId (transitionsOn w)
            ++ edges (wasInside w userId placeId) [side] /\
        alertsOn userId placeId (snd (runChecks checks w)) =
          alertsOn userId placeId w).
Proof.
  intros userId placeId checks w Hall.
  destruct (runChecks_trace userId placeId checks Hall w) as [Hres Htrace].
  split; [split; assumption |].
  split; [| split; [| split; [| split; [| split]]]].
  - intros Hok.
    destruct (runChecks_self_rows userId placeId checks Hok w)
      as (added & Hadded & Hrows).
    rewrite Hrows. f_equal.
    rewrite Hadded, actionsAt_app in Htrace.
    apply app_inv_head in Htrace. exact Htrace.
  - intros was side n rest. apply edges_repeat.
  - intros c Hin Huser.
    assert (Hc : staysCandidate userId placeId c).
    { rewrite Forall_forall in Hall. apply Hall. apply list_elem_of_In.
      exact Hin. }
    destruct (runChecks_trace userId placeId [c; c]
                ltac:(repeat constructor; assumption) w) as [_ H2].
    destruct (runChecks_trace userId placeId [c]
                ltac:(repeat constructor; assumption) w) as [_ H1].
    rewrite H2, H1. f_equal.
    rewrite !sides_cons.
    destruct (sideAt userId placeId c) as [side |] eqn:Hside.
    + change (sides userId placeId []) with (@nil bool).
      cbn [edges]. rewrite app_nil_r.
      destruct side; reflexivity.
    + reflexivity.
  - intros Hacc. apply runChecks_alerts; assumption.
  - intros familyMembers Hok.
    rewrite (runChecks_alerts userId placeId checks Hall
               (dispatchesTo_accepted userId familyMembers checks Hok)).
    rewrite (alertsAlong_dispatched userId placeId familyMembers checks Hok).
    reflexivity.
  - intros c rest side -> Huser Hunread Hside Hsame.
    inversion Hall as [| ? ? Hc Hrest]; subst.
    split.
    + rewrite Htrace, sides_cons, Hside.
      rewrite (edges_cons _ side (sides (chk_user c) placeId rest)).
      rewrite (edges_dwell side _ Hsame), app_nil_r. reflexivity.
    + rewrite runChecks_cons.
      rewrite (runChecks_quiet (chk_user c) placeId side rest Hrest Hsame).
      * destruct (Hc eq_refl) as (places & Hcand & _ & Hin).
        unfold candidatesOf in Hcand.
        destruct (getFamilyPlaces (chk_storage c) (chk_user c))
          as [[ps |] |] eqn:Hfetch; try discriminate.
        injection Hcand as ->.
        assert (Hne : places <> []) by (intros ->; inversion Hin).
        destruct (check_unreadable_mover (chk_storage c) (chk_user c)
                    (chk_lat c) (chk_lon c) w places Hfetch Hne Hunread)
          as (Hrows & _).
        unfold alertsOn, runCheck. rewrite Hrows. reflexivity.
      * rewrite (runCheck_side (chk_user c) placeId c w Hc), Hside.
        reflexivity.
Qed.

Lemma atHome_dispatchesTo : dispatchesTo 1 [] atHome.
Proof.
  intros _. split; [exists jane; reflexivity |].
  split; [reflexivity |]. intros n. reflexivity.
Defined.

Lemma one_transition_per_change_of_side_witness :
  actionsAt 1 8
    (transitionsOn (snd (runChecks [atHome; atHome] (freshWorld 0))))
  = [entered] /\
  selfActionsOn 1 8 (snd (runChecks [atHome; atHome] (freshWorld 0)))
  = [entered] /\
  alertsOn 1 8 (snd (runChecks [atHome; atHome] (freshWorld 0)))
  = [(1, entered)].
Proof.
  destruct (one_transition_per_change_of_side 1 8 [atHome; atHome]
              (freshWorld 0))
    as ([_ Htrace] & Hrows & _ & _ & _ & Halerts & _).
  - apply List.Forall_cons; [exact atHome_stays |].
    apply List.Forall_cons; [exact atHome_stays | apply List.Forall_nil].
  - split; [| split].
    + rewrite Htrace, sides_atHome. reflexivity.
    + rewrite Hrows, sides_atHome; [reflexivity |].
      apply List.Forall_cons; [exact atHome_dispatches |].
      apply List.Forall_cons; [exact atHome_dispatches | apply List.Forall_nil].
    + rewrite (Halerts []), sides_atHome; [reflexivity |].
      apply List.Forall_cons; [exact atHome_dispatchesTo |].
      apply List.Forall_cons; [exact atHome_dispatchesTo |
                               apply List.Forall_nil].
Defined.

Lemma atHomeUnread_stays : staysCandidate 1 8 atHomeUnread.
Proof.
  intros _. exists [home]. split; [reflexivity |]. split.
  - simpl. apply NoDup_cons. split; [apply not_elem_of_nil | apply NoDup_nil_2].
  - simpl. left. reflexivity.
Qed.

(** C1 as written fails when the check that finds the change of side
    cannot read the mover: user 1 is found inside [home] after being
    outside, the transition is dispatched, and a second check, with the
    users readable again, finds the user still inside; the run has
    created no notification row and written to no connection. *)
Lemma unread_mover_dwell_gets_no_notification :
  let checks := [atHomeUnread; atHome] in
  let w' := snd (runChecks checks (freshWorld 0)) in
  Forall (staysCandidate 1 8) checks /\
  wasInside (freshWorld 0) 1 8 = false /\
  sides 1 8 checks = [true; true] /\
  actionsAt 1 8 (transitionsOn w') = [entered] /\
  notificationRows w' = [] /\
  wire w' = [].
Proof.
  intros checks w'.
  assert (Hall : Forall (staysCandidate 1 8) checks).
  { apply List.Forall_cons; [exact atHomeUnread_stays |].
    apply List.Forall_cons; [exact atHome_stays | apply List.Forall_nil]. }
  assert (Hsides : sides 1 8 checks = [true; true]).
  { change (sides 1 8 checks)
      with [inside (place_latitude home) (place_longitude home) home;
            inside (place_latitude home) (place_longitude home) home].
    rewrite inside_at_centre. reflexivity. }
  split; [exact Hall |]. split; [reflexivity |]. split; [exact Hsides |].
  split.
  - destruct (runChecks_trace 1 8 checks Hall (freshWorld 0)) as [_ Htrace].
    fold w' in Htrace. rewrite Htrace, Hsides. reflexivity.
  - subst w' checks. rewrite !runChecks_cons.
    change (runCheck atHomeUnread (freshWorld 0))
      with (checkGeofenceTransitions (usersDown [home]) 1 0 0 (freshWorld 0)).
    change (runCheck atHome)
      with (checkGeofenceTransitions (sampleStorage [home] [] [] None) 1 0 0).
    change (runChecks []) with (@ret unit tt).
    rewrite (recheck_is_noop (usersDown [home])
               (sampleStorage [home] [] [] None) 1 0%R 0%R (freshWorld 0)
               [home] eq_refl eq_refl).
    + cbn [snd].
      destruct (check_unreadable_mover (usersDown [home]) 1 0%R 0%R
                  (freshWorld 0) [home] eq_refl)
        as (Hrows & Hwire & _); [discriminate | left; reflexivity |].
      split; [exact Hrows | exact Hwire].
    + simpl. apply NoDup_cons.
      split; [apply not_elem_of_nil | apply NoDup_nil_2].
Qed.

(** ** A failing step of a check (C7) *)

(** A dispatch whose reads fail creates no row and writes no frame. *)
Lemma failing_reads_keep {B} (f : World -> B) storage userId place action :
  (forall l w, f (add_console l w) = f w) ->
  getUser storage userId = Rejected \/
  getUser storage userId = Resolved None \/
  (exists user, getUser storage userId = Resolved (Some user) /\
                getFamilyMembers storage userId = Rejected) ->
  keeps (same f) (sendGeofenceNotification storage userId place action).
Proof.
  intros Hlog [Huser | [Huser | Hfam]] w; unfold same.
  - rewrite (dispatch_unreadable storage) by (left; exact Huser). apply Hlog.
  - rewrite (dispatch_unknown_mover storage) by exact Huser. reflexivity.
  - rewrite (dispatch_unreadable storage) by (right; exact Hfam). apply Hlog.
Qed.

(** C7, as the code has it. A check never rejects, whatever step of it
    fails, and the handler of the ping answers with the saved location
    whenever the row is saved and the mover and the family are read,
    whatever the place query and the inserts of notifications answer.
    When the query for the candidate places fails, the check logs the
    error and does nothing else: the stored sets, the recorded
    transitions and the notification rows are as before, and a later
    check starts from the same stored sets as if the failed check had
    not run. A failure of a later step is caught inside the dispatcher
    and does not undo the check: with a non-empty candidate list the
    transitions are detected and logged and the stored set of the user
    is replaced by the current one, whatever the reads of the mover and
    of the family and the inserts answer; when the mover is unknown or
    the mover or the family cannot be read, no notification row is
    created and nothing is written to a connection. *)
Theorem failed_check_is_contained :
  forall storage userId lat lon w,
    fst (checkGeofenceTransitions storage userId lat lon w) = Resolved tt /\
    (getFamilyPlaces storage userId = Rejected ->
     let w' := snd (checkGeofenceTransitions storage userId lat lon w) in
     w' = add_console LogErrorChecking w /\
     userGeofenceStates w' = userGeofenceStates w /\
     transitionsOn w' = transitionsOn w /\
     notificationRows w' = notificationRows w /\
     (forall locationData location user familyMembers,
         saveLocation storage locationData = Resolved location ->
         getUser storage userId = Resolved user ->
         getFamilyMembers storage userId = Resolved familyMembers ->
         let run := postLocations storage userId (Resolved locationData) w in
         fst run = Resolved (Json location) /\
         userGeofenceStates (snd run) = userGeofenceStates w /\
         transitionsOn (snd run) = transitionsOn w) /\
     (forall later lat2 lon2,
         let next := checkGeofenceTransitions later userId lat2 lon2 w' in
         fst next = Resolved tt /\
         transitionsOn (snd next) =
           transitionsOn w
             ++ fst (checkEffect later userId lat2 lon2
                       (userGeofenceStates w)) /\
         userGeofenceStates (snd next) =
           snd (checkEffect later userId lat2 lon2 (userGeofenceStates w)))) /\
    (forall places,
        getFamilyPlaces storage userId = Resolved (Some places) ->
        places <> [] ->
        let w' := snd (checkGeofenceTransitions storage userId lat lon w) in
        transitionsOn w' =
          transitionsOn w
            ++ detected userId (previousInside w userId) lat lon places /\
        userGeofenceStates w' =
          <[toString userId := currentInside lat lon places]>
            (userGeofenceStates w) /\
        ((getUser storage userId = Rejected \/
          getUser storage userId = Resolved None \/
          (exists user, getUser storage userId = Resolved (Some user) /\
                        getFamilyMembers storage userId = Rejected)) ->
         notificationRows w' = notificationRows w /\ wire w' = wire w)) /\
    (forall locationData location user familyMembers,
        saveLocation storage locationData = Resolved location ->
        getUser storage userId = Resolved user ->
        getFamilyMembers storage userId = Resolved familyMembers ->
        fst (postLocations storage userId (Resolved locationData) w)
        = Resolved (Json location)).
Proof.
  intros storage userId lat lon w.
  split; [apply check_effect |]. split; [| split].
  - intros Hfetch w'. subst w'. rewrite check_rejected by assumption.
    cbn [snd]. split; [reflexivity |]. split; [reflexivity |].
    split; [rewrite transitionsOn_add_console; apply app_nil_r |].
    split; [reflexivity |]. split.
    + intros locationData location user familyMembers Hsave Huser Hfam.
      apply (postLocations_places_down storage userId locationData location
               user familyMembers w Hfetch Hsave Huser Hfam).
    + intros later lat2 lon2.
      destruct (check_effect later userId lat2 lon2
                  (add_console LogErrorChecking w)) as (Hres & Htr & Hst).
      split; [exact Hres |]. split.
      * rewrite Htr, transitionsOn_add_console, app_nil_r. reflexivity.
      * exact Hst.
  - intros places Hfetch Hne w'. subst w'.
    destruct (check_run storage userId lat lon w places Hfetch Hne)
      as (w1 & Hrun & Htr & Hst).
    split; [| split].
    + rewrite Hrun. exact Htr.
    + rewrite Hrun. cbn [snd]. simpl. rewrite Hst. reflexivity.
    + intros Hfail. split.
      * apply (check_keeps_when_dispatch_keeps storage
                 (same notificationRows)); try (intros; reflexivity).
        intros place action.
        apply failing_reads_keep; [reflexivity | exact Hfail].
      * apply (check_keeps_when_dispatch_keeps storage (same wire));
          try (intros; reflexivity).
        intros place action.
        apply failing_reads_keep; [reflexivity | exact Hfail].
  - intros locationData location user familyMembers Hsave Huser Hfam.
    rewrite (postLocations_run storage userId locationData location user
               familyMembers w Hsave Huser Hfam).
    reflexivity.
Qed.

Lemma failed_check_is_contained_witness :
  snd (checkGeofenceTransitions (placesDown [john]) 1 0 0 staleWorld)
  = add_console LogErrorChecking staleWorld.
Proof.
  exact (proj1 (proj1 (proj2 (failed_check_is_contained (placesDown [john]) 1
                                0%R 0%R staleWorld)) eq_refl)).
Defined.

(** C7 as written fails for a step after the place query: with the
    users unreadable, the check of user 1 at the centre of [home] still
    detects the transition and replaces the stored set, which held
    nothing, by one that holds [home]. *)
Lemma later_failure_is_not_skipped :
  let w' := snd (checkGeofenceTransitions (usersDown [home]) 1 0 0
                   (freshWorld 0)) in
  getUser (usersDown [home]) 1 = Rejected /\
  transitionsOn (freshWorld 0) = [] /\
  transitionsOn w' = [(1, entered, 8)] /\
  userGeofenceStates (freshWorld 0) !! toString 1 = None /\
  userGeofenceStates w' !! toString 1 = Some (currentInside 0 0 [home]) /\
  8 ∈ currentInside 0 0 [home].
Proof.
  intros w'.
  destruct (check_unreadable_mover (usersDown [home]) 1 0%R 0%R
              (freshWorld 0) [home] eq_refl)
    as (_ & _ & Htr & Hst); [discriminate | left; reflexivity |].
  fold w' in Htr, Hst.
  assert (Hinside : inside 0 0 home = true).
  { change (inside 0 0 home)
      with (inside (place_latitude home) (place_longitude home) home).
    apply inside_at_centre. }
  split; [reflexivity |]. split; [reflexivity |]. split; [| split; [| split]].
  - rewrite Htr.
    change (transitionsOn (freshWorld 0)) with (@nil (Z * Action * Z)).
    rewrite app_nil_l, detected_cons. unfold transitionOf.
    rewrite Hinside. reflexivity.
  - reflexivity.
  - exact Hst.
  - apply elem_of_currentInside. exists home.
    split; [apply list_elem_of_here |]. split; [reflexivity | exact Hinside].
Qed.
